(** * snapraid-btrfs-runner: a shallow embedding of the runner script

    The development follows [snapraid-btrfs-runner.py].  Python [int] is
    [Z]; [str] is [string], a sequence of characters whose code points lie
    below 256 (every literal of the script is ASCII); a [dict] whose
    iteration order matters is an association list in insertion order; a
    [Counter] is a [gmap string Z] whose missing keys read as 0; the
    statements of [run] and [finish] live in a state-and-exception monad
    that threads the log and the list of spawned children.

    What the script asks of the outside world is a field of [Env]: the
    file system checks, the behaviour of each child, the clock and the
    traceback text of the log formatter, and the answers of the mail
    server and of the webhook.  For [run] and [finish], parsing of the
    command line and of the configuration file is taken as done: a
    [Config] is the dictionary [load_config] leaves.  [load_config] and
    the start of [main] are modelled further down, over the sections and
    items the parser has read ([ParsedFile]) and the options given on
    the command line ([Flags]).  A [Popen] that fails to start its program and
    the pause after each command have no counterpart.  The two threads
    that drain the pipes of a child are modelled twice: as the result
    they deliver ([tee_records]) inside [run], and step by step, with
    every interleaving, in the module [Tee]. *)

From Stdlib Require Import ZArith Ascii.
From stdpp Require Import gmap strings list fin_maps pretty.

Local Open Scope Z_scope.

(** ** Python string primitives used by the script *)

Module PyStr.

(** [s.split(sep)] for a one-character separator: every occurrence of
    [sep] ends a field, so the result always has at least one field. *)
Fixpoint split (sep : ascii) (s : string) : list string :=
  match s with
  | EmptyString => [EmptyString]
  | String a s' =>
      if Ascii.eqb a sep then EmptyString :: split sep s'
      else match split sep s' with
           | w :: ws => String a w :: ws
           | [] => [String a EmptyString]
           end
  end.

(** [needle in hay] on strings: substring test. *)
Fixpoint contains (needle hay : string) : bool :=
  String.prefix needle hay
  || match hay with
     | EmptyString => false
     | String _ hay' => contains needle hay'
     end.

(** [c.isspace()] on the code points below 256. *)
Definition isspace (c : ascii) : bool :=
  let n := N_of_ascii c in
  ((9 <=? n) && (n <=? 13) || (28 <=? n) && (n <=? 32)
   || (n =? 133) || (n =? 160))%N.

(** Dropping the trailing, respectively leading, characters that [sp]
    accepts. *)
Fixpoint rstrip_by (sp : ascii -> bool) (s : string) : string :=
  match s with
  | EmptyString => EmptyString
  | String a s' =>
      match rstrip_by sp s' with
      | EmptyString => if sp a then EmptyString else String a EmptyString
      | r => String a r
      end
  end.

Fixpoint lstrip_by (sp : ascii -> bool) (s : string) : string :=
  match s with
  | EmptyString => EmptyString
  | String a s' => if sp a then lstrip_by sp s' else s
  end.

(** [s.rstrip()]: drop the trailing white space. *)
Definition rstrip (s : string) : string := rstrip_by isspace s.

Definition nl : string := String "010" EmptyString.
Definition tab : string := String "009" EmptyString.

(** Index normalisation of a slice bound on a sequence of length [n]:
    a negative bound counts from the end, and both are clamped. *)
Definition bound (n i : Z) : Z :=
  if i <? 0 then Z.max 0 (n + i) else Z.min n i.

Definition len (s : string) : Z := Z.of_nat (String.length s).

(** [s[i:j]] *)
Definition slice (s : string) (i j : Z) : string :=
  let lo := bound (len s) i in
  let hi := bound (len s) j in
  String.substring (Z.to_nat lo) (Z.to_nat (hi - lo)) s.

(** [s[:j]] and [s[i:]] *)
Definition slice_to (s : string) (j : Z) : string := slice s 0 j.
Definition slice_from (s : string) (i : Z) : string := slice s i (len s).

Fixpoint count_char (c : ascii) (s : string) : Z :=
  match s with
  | EmptyString => 0
  | String a s' => (if Ascii.eqb a c then 1 else 0) + count_char c s'
  end.

(** [s.count(c, i, j)] for a one-character [c]. *)
Definition count (c : ascii) (s : string) (i j : Z) : Z :=
  count_char c (slice s i j).

Fixpoint concat (l : list string) : string :=
  match l with
  | [] => EmptyString
  | s :: l' => s +:+ concat l'
  end.

Fixpoint replicate (n : nat) (s : string) : string :=
  match n with
  | O => EmptyString
  | S n' => s +:+ replicate n' s
  end.

End PyStr.

(** ** Diff classifier ([run], the two [diff_results] assignments) *)

(** [line.split(" ")[0]]; the list is never empty, so the index is safe. *)
Definition first_field (line : string) : string :=
  match PyStr.split " " line with
  | w :: _ => w
  | [] => EmptyString
  end.

(** [Counter(iterable)]: one increment per element. *)
Definition Counter (xs : list string) : gmap string Z :=
  foldl (fun m x => <[x := default 0 (m !! x) + 1]> m) ∅ xs.

(** [Counter.__getitem__]: a missing key reads as 0. *)
Definition counter_get (c : gmap string Z) (k : string) : Z :=
  default 0 (c !! k).

Definition change_kinds : list string := ["add"; "remove"; "move"; "update"].

Definition classify (diff_out : list string) : gmap string Z :=
  let c := Counter (map first_field diff_out) in
  list_to_map (map (fun x => (x, counter_get c x)) change_kinds).

(** The spec's wording of the change kind of a line: its leading
    white-space-delimited token (none on a blank line). *)
Definition leading_ws_token (line : string) : option string :=
  head (String.words line).

(** Number of lines selected by a boolean test. *)
Definition count_lines (p : string -> bool) (lines : list string) : Z :=
  Z.of_nat (length (filter (fun l => p l = true) lines)).

(** A line "starts with the field [k]" when it is [k] itself or [k]
    followed by a space character: the reading of the change kind that
    [split(" ")[0]] implements. *)
Definition starts_field (k line : string) : bool :=
  String.eqb line k || String.prefix (k +:+ " ") line.

(** ** Configuration, as [load_config] leaves it *)

(** The options the run reads.  [load_config] coerces the integer options
    (0 on a malformed value) and the listed boolean options; every other
    option is the stripped text of the file, empty when absent.  The
    [enabled] key of the [discord] section is not coerced: it is tested
    for truthiness as text. *)
Record Config := {
  snapraid_executable : string;
  snapraid_config : string;
  snapraid_deletethreshold : Z;
  snapraid_touch : bool;
  btrfs_executable : string;
  btrfs_snapper_configs : string;
  btrfs_snapper_configs_file : string;
  btrfs_pool : bool;
  btrfs_pool_dir : string;
  btrfs_cleanup : bool;
  snapper_executable : string;
  scrub_enabled : bool;
  scrub_plan : string;
  scrub_older_than : Z;
  email_sendon : string;
  email_short : bool;
  email_maxsize : Z;
  email_subject : string;
  email_from : string;
  email_to : string;
  smtp_host : string;
  discord_enabled : string;
  discord_sendon : string;
  discord_webhook_url : string
}.

(** ** Exceptions, log records, messages handed to the transports *)

Inductive exn :=
| CalledProcessError (returncode : Z) (cmd : string)
| SystemExit (code : Z)
| KeyError (key : string)
| AttributeError (msg : string)
| TransportError (msg : string).

(** [except Exception] does not catch [SystemExit]. *)
Definition is_Exception (e : exn) : bool :=
  match e with
  | SystemExit _ => false
  | _ => true
  end.

Inductive Level := OUTPUT | INFO | OUTERR | WARNING | ERROR.

Global Instance Level_eq_dec : EqDecision Level.
Proof. solve_decision. Defined.

(** [setup_logger] registers OUTPUT as 15 and OUTERR as 25. *)
Definition levelno (l : Level) : Z :=
  match l with
  | OUTPUT => 15 | INFO => 20 | OUTERR => 25 | WARNING => 30 | ERROR => 40
  end.

(** [%(levelname)-6.6s] *)
Definition levelname6 (l : Level) : string :=
  match l with
  | OUTPUT => "OUTPUT" | INFO => "INFO  " | OUTERR => "OUTERR"
  | WARNING => "WARNIN" | ERROR => "ERROR "
  end.

Record LogRecord := {
  rec_level : Level;
  rec_msg : string;
  rec_exc : option exn   (* set by [logging.exception] *)
}.

Record Email := {
  mail_subject : string;
  mail_from : string;
  mail_to : string;
  mail_body : string
}.

(** The JSON object posted to the webhook. *)
Record Payload := {
  pay_content : string;
  pay_title : string;
  pay_description : string;
  pay_color : Z
}.

(** What [requests.post] followed by [raise_for_status] does. *)
Inductive PostResult :=
| PostOk
| PostHTTPError (msg : string)
| PostConnectionError (msg : string)
| PostTimeout (msg : string)
| PostRequestException (msg : string)
| PostOtherException (msg : string).

(** ** The outside world *)

(** What a child did: exit status, the lines [readline] yields on each
    pipe, and the order in which the two tee threads got to log. *)
Record ProcResult := {
  proc_ret : Z;
  proc_stdout : list string;
  proc_stderr : list string;
  proc_tee : list bool
}.

Record Env := {
  env_which : string -> bool;      (* [shutil.which(p) is not None] *)
  env_isfile : string -> bool;     (* [os.path.isfile(p)] *)
  env_popen : nat -> list string -> ProcResult;
                                   (* the n-th child, spawned with this argv *)
  env_asctime : nat -> string;     (* clock reading of the n-th log record *)
  env_traceback : exn -> string;   (* traceback text of a logged exception *)
  env_signal : Z -> option string; (* [repr(signal.Signals(n))], if valid *)
  env_int_max_str_digits : Z;      (* [sys.get_int_max_str_digits()], 0: no limit *)
  env_smtp_open : string -> option string;
                                   (* the session with the server on this
                                      host, up to [login]: [None] when it
                                      opens, else the error raised *)
  env_smtp : Email -> option string;
                                   (* [sendmail] and [quit] on the opened
                                      session: [None] when delivered, else
                                      the error raised *)
  env_post : string -> Payload -> PostResult
}.

(** ** State threaded through a run *)

Record Invocation := {
  inv_command : string;
  inv_argv : list string;
  inv_ret : Z
}.

Record State := {
  st_log : list LogRecord;        (* records seen by the root logger, oldest first *)
  st_spawned : list Invocation;   (* children, oldest first *)
  st_mails : list Email;          (* messages handed to [sendmail] *)
  st_posts : list Payload         (* payloads handed to [requests.post] *)
}.

Definition init_state : State :=
  {| st_log := []; st_spawned := []; st_mails := []; st_posts := [] |}.

Inductive result (A : Type) :=
| Ok (a : A)
| Raise (e : exn).
Arguments Ok {A} a.
Arguments Raise {A} e.

Definition M (A : Type) : Type := State -> result A * State.

Global Instance M_ret : MRet M := fun A a st => (Ok a, st).

Global Instance M_bind : MBind M := fun A B f m st =>
  match m st with
  | (Ok a, st') => f a st'
  | (Raise e, st') => (Raise e, st')
  end.

Definition raise {A} (e : exn) : M A := fun st => (Raise e, st).

(** [try: body except Exception as e: handler(e)] *)
Definition try_except {A} (body : M A) (handler : exn -> M A) : M A :=
  fun st =>
    match body st with
    | (Raise e, st') => if is_Exception e then handler e st' else (Raise e, st')
    | r => r
    end.

(** [try: body except subprocess.CalledProcessError as e: handler(e)] *)
Definition try_except_cpe {A} (body : M A) (handler : exn -> M A) : M A :=
  fun st =>
    match body st with
    | (Raise (CalledProcessError r c), st') => handler (CalledProcessError r c) st'
    | r => r
    end.

Definition emit (r : LogRecord) : M unit := fun st =>
  (Ok tt, {| st_log := st_log st ++ [r]; st_spawned := st_spawned st;
             st_mails := st_mails st; st_posts := st_posts st |}).

Definition emit_all (rs : list LogRecord) : M unit := fun st =>
  (Ok tt, {| st_log := st_log st ++ rs; st_spawned := st_spawned st;
             st_mails := st_mails st; st_posts := st_posts st |}).

Definition logging_log (l : Level) (msg : string) : M unit :=
  emit {| rec_level := l; rec_msg := msg; rec_exc := None |}.

Definition logging_exception (msg : string) (e : exn) : M unit :=
  emit {| rec_level := ERROR; rec_msg := msg; rec_exc := Some e |}.

Definition record_spawn (i : Invocation) : M unit := fun st =>
  (Ok tt, {| st_log := st_log st; st_spawned := st_spawned st ++ [i];
             st_mails := st_mails st; st_posts := st_posts st |}).

Definition record_mail (m : Email) : M unit := fun st =>
  (Ok tt, {| st_log := st_log st; st_spawned := st_spawned st;
             st_mails := st_mails st ++ [m]; st_posts := st_posts st |}).

Definition record_post (p : Payload) : M unit := fun st =>
  (Ok tt, {| st_log := st_log st; st_spawned := st_spawned st;
             st_mails := st_mails st; st_posts := st_posts st ++ [p] |}).

Definition get_state : M State := fun st => (Ok st, st).

(** [d[k]] on a [dict]: [KeyError] on a missing key. *)
Definition getitem (d : gmap string Z) (k : string) : M Z :=
  match d !! k with
  | Some v => mret v
  | None => raise (KeyError k)
  end.

(** ** Argument dictionaries and the argument vector *)

Inductive pyval :=
| VStr (s : string)
| VInt (z : Z).

(** [str(v)] *)
Definition py_str (v : pyval) : string :=
  match v with
  | VStr s => s
  | VInt z => pretty z
  end.

(** A [dict] in insertion order. *)
Definition pydict : Type := list (string * pyval).

(** [d[k] = v]: a present key keeps its place, a new key goes last. *)
Fixpoint dict_set (k : string) (v : pyval) (d : pydict) : pydict :=
  match d with
  | [] => [(k, v)]
  | (k', v') :: d' =>
      if String.eqb k' k then (k', v) :: d' else (k', v') :: dict_set k v d'
  end.

(** [for (k, v) in d.items(): arguments.extend(["--" + k, str(v)])] *)
Fixpoint extend_flags (d : pydict) : list string :=
  match d with
  | [] => []
  | (k, v) :: d' => ("--" +:+ k) :: py_str v :: extend_flags d'
  end.

(** The three path flags that follow the global [--quiet] at the head of
    [snapraid_btrfs_arguments]. *)
Definition connection_flags (cfg : Config) : list string :=
  ["--conf"; snapraid_config cfg;
   "--snapper-path"; snapper_executable cfg;
   "--snapraid-path"; snapraid_executable cfg].

Definition snapraid_btrfs_arguments (cfg : Config) (snapraid_btrfs_args : pydict)
  : list string :=
  ["--quiet"] ++ connection_flags cfg ++ extend_flags snapraid_btrfs_args.

Definition snapraid_arguments (command : string) (snapraid_args : pydict)
  : list string :=
  (if String.eqb command "cleanup" then [] else ["--quiet"])
  ++ extend_flags snapraid_args.

(** The list handed to [subprocess.Popen]. *)
Definition command_argv (cfg : Config) (command : string)
    (snapraid_args snapraid_btrfs_args : pydict) : list string :=
  [btrfs_executable cfg] ++ snapraid_btrfs_arguments cfg snapraid_btrfs_args
  ++ [command] ++ snapraid_arguments command snapraid_args.

(** ** Command runner *)

(** The records the two tee threads hand to the logger, stdout lines at
    OUTPUT and stderr lines at OUTERR, each line [rstrip]ped; [sched]
    resolves which thread logs next while both still have lines. *)
Fixpoint tee_interleave (sched : list bool) (outs errs : list LogRecord)
  : list LogRecord :=
  match sched with
  | [] => outs ++ errs
  | b :: sched' =>
      match outs, errs with
      | [], _ => errs
      | _, [] => outs
      | o :: outs', e :: errs' =>
          if b then o :: tee_interleave sched' outs' errs
          else e :: tee_interleave sched' outs errs'
      end
  end.

Definition tee_record (l : Level) (line : string) : LogRecord :=
  {| rec_level := l; rec_msg := PyStr.rstrip line; rec_exc := None |}.

Definition tee_records (p : ProcResult) : list LogRecord :=
  tee_interleave (proc_tee p)
    (map (tee_record OUTPUT) (proc_stdout p))
    (map (tee_record OUTERR) (proc_stderr p)).

(** [ret == 0 or ret in allow_statuscodes] *)
Definition status_allowed (ret : Z) (allow_statuscodes : list Z) : bool :=
  (ret =? 0) || existsb (Z.eqb ret) allow_statuscodes.

(** [snapraid_btrfs_command]: spawn, drain both pipes through the tees,
    wait, classify the exit status.  The 0.3 s sleep has no counterpart. *)
Definition snapraid_btrfs_command (cfg : Config) (env : Env) (command : string)
    (snapraid_args snapraid_btrfs_args : pydict) (allow_statuscodes : list Z)
  : M (list string) :=
  st ← get_state;
  let argv := command_argv cfg command snapraid_args snapraid_btrfs_args in
  let p := env_popen env (length (st_spawned st)) argv in
  record_spawn {| inv_command := command; inv_argv := argv; inv_ret := proc_ret p |};;
  emit_all (tee_records p);;
  let out := proc_stdout p in
  let ret := proc_ret p in
  if status_allowed ret allow_statuscodes then mret out
  else raise (CalledProcessError ret ("snapraid-btrfs " +:+ command)).

(** ** [int(text)] in base 10 *)

Definition digit_val (c : ascii) : option Z :=
  let n := Z.of_N (N_of_ascii c) in
  if (48 <=? n) && (n <=? 57) then Some (n - 48) else None.

(** Digits with single underscores between them; [sep] tells that a
    digit is required next. *)
Fixpoint digits_value (sep : bool) (acc : Z) (s : string) : option Z :=
  match s with
  | EmptyString => if sep then None else Some acc
  | String c s' =>
      if Ascii.eqb c "_" then
        if sep then None else digits_value true acc s'
      else
        match digit_val c with
        | Some d => digits_value false (10 * acc + d) s'
        | None => None
        end
  end.

Fixpoint digit_count (s : string) : Z :=
  match s with
  | EmptyString => 0
  | String c s' =>
      match digit_val c with Some _ => 1 | None => 0 end + digit_count s'
  end.

(** The white space [int] skips around the digits: the ASCII blanks,
    and the two further spaces below 256 (the separators 28 to 31, which
    [str.isspace] accepts, are an error here). *)
Definition int_isspace (c : ascii) : bool :=
  let n := N_of_ascii c in
  ((9 <=? n) && (n <=? 13) || (n =? 32) || (n =? 133) || (n =? 160))%N.

(** [int(text)]: [None] stands for [ValueError]. *)
Definition py_int (env : Env) (text : string) : option Z :=
  let t := PyStr.rstrip_by int_isspace (PyStr.lstrip_by int_isspace text) in
  let '(neg, body) :=
    match t with
    | String "-" b => (true, b)
    | String "+" b => (false, b)
    | _ => (false, t)
    end in
  match digits_value true 0 body with
  | Some n =>
      if (0 <? env_int_max_str_digits env)
         && (env_int_max_str_digits env <? digit_count body)
      then None
      else Some (if neg then - n else n)
  | None => None
  end.

(** ** The in-memory log handed to the notifiers *)

(** One record in the format ["%(asctime)s [%(levelname)-6.6s] %(message)s"],
    followed by the handler's line terminator. *)
Definition format_record (env : Env) (i : nat) (r : LogRecord) : string :=
  env_asctime env i +:+ " [" +:+ levelname6 (rec_level r) +:+ "] "
  +:+ rec_msg r
  +:+ match rec_exc r with
      | Some e => PyStr.nl +:+ env_traceback env e
      | None => EmptyString
      end
  +:+ PyStr.nl.

(** Level of the in-memory handler: INFO when [short], else unset. *)
Definition email_handler_level (cfg : Config) : Z :=
  if email_short cfg then levelno INFO else 0.

Definition email_log_text (cfg : Config) (env : Env) (log : list LogRecord)
  : string :=
  PyStr.concat
    (imap (fun i r =>
             if email_handler_level cfg <=? levelno (rec_level r)
             then format_record env i r else EmptyString) log).

(** [email_log.getvalue()]: [setup_logger] creates the buffer only when
    the [sendon] option of the email section is not empty. *)
Definition email_log_getvalue (cfg : Config) (env : Env) : M string :=
  fun st =>
    if String.eqb (email_sendon cfg) EmptyString
    then (Raise (AttributeError "'NoneType' object has no attribute 'getvalue'"), st)
    else (Ok (email_log_text cfg env (st_log st)), st).

(** ** [send_email] *)

Definition too_big_note : string :=
  "NOTE: Log was too big for email and was shortened" +:+ PyStr.nl +:+ PyStr.nl.

Definition too_big_marker (cut_lines : Z) : string :=
  "[...]" +:+ PyStr.nl +:+ PyStr.nl +:+ PyStr.nl
  +:+ " --- LOG WAS TOO BIG - " +:+ pretty cut_lines +:+ " LINES REMOVED --"
  +:+ PyStr.nl +:+ PyStr.nl +:+ PyStr.nl +:+ "[...]".

(** The truncation step of [send_email]; [maxsize_kb] is the coerced
    [maxsize] option, which [load_config] always sets (0 when absent, so
    the fallback 500 of the [get] call is never taken). *)
Definition shorten_log (maxsize_kb : Z) (log : string) : string :=
  let maxsize := maxsize_kb * 1024 in
  if negb (maxsize =? 0) && (maxsize <? PyStr.len log) then
    let cut_lines := PyStr.count "010" log (maxsize / 2) (- maxsize / 2) in
    too_big_note
    +:+ PyStr.slice_to log (maxsize / 2)
    +:+ too_big_marker cut_lines
    +:+ PyStr.slice_from log (- maxsize / 2)
  else log.

Definition email_greeting (success : bool) : string :=
  (if success then "SnapRAID job completed successfully:"
   else "Error during SnapRAID job:")
  +:+ PyStr.nl +:+ PyStr.nl +:+ PyStr.nl.

(** The message [send_email] builds around the text of the log. *)
Definition email_message (cfg : Config) (success : bool) (log : string) : Email :=
  {| mail_subject :=
       email_subject cfg +:+ (if success then " SUCCESS" else " ERROR");
     mail_from := email_from cfg;
     mail_to := email_to cfg;
     mail_body := email_greeting success +:+ shorten_log (email_maxsize cfg) log |}.

(** The message is built first; then the session with the server is
    opened ([SMTP] or [SMTP_SSL], [starttls], [login]), which can fail
    before [sendmail] gets the message. *)
Definition send_email (cfg : Config) (env : Env) (success : bool) : M unit :=
  if PyStr.len (smtp_host cfg) =? 0 then
    logging_log ERROR "Failed to send email because smtp host is not set"
  else
    log ← email_log_getvalue cfg env;
    let msg := email_message cfg success log in
    match env_smtp_open env (smtp_host cfg) with
    | Some err => raise (TransportError err)
    | None =>
        record_mail msg;;
        match env_smtp env msg with
        | None => mret tt
        | Some err => raise (TransportError err)
        end
    end.

(** ** [send_discord_notification] *)

Definition discord_payload (success : bool) (log : string) : Payload :=
  {| pay_content := if success then "SnapRAID job completed successfully."
                    else "Error during SnapRAID job:";
     pay_title := "Log";
     pay_description := log;
     pay_color := if success then 65280 else 16711680 |}.

Definition send_discord_notification (cfg : Config) (env : Env)
    (success : bool) (log : string) : M unit :=
  let payload := discord_payload success log in
  record_post payload;;
  match env_post env (discord_webhook_url cfg) payload with
  | PostOk => logging_log INFO "Discord notification sent successfully."
  | PostHTTPError m => logging_log ERROR ("HTTP Error: " +:+ m)
  | PostConnectionError m => logging_log ERROR ("Error Connecting: " +:+ m)
  | PostTimeout m => logging_log ERROR ("Timeout Error: " +:+ m)
  | PostRequestException m => logging_log ERROR ("Something went wrong: " +:+ m)
  | PostOtherException m => raise (TransportError m)
  end.

(** ** [finish] *)

(** [("error", "success")[is_success]] *)
Definition outcome_word (is_success : bool) : string :=
  if is_success then "success" else "error".

Definition exit_status (is_success : bool) : Z :=
  if is_success then 0 else 1.

(** First block of [finish]: the email notifier. *)
Definition notify_email (cfg : Config) (env : Env) (is_success : bool) : M unit :=
  if PyStr.contains (outcome_word is_success) (email_sendon cfg) then
    try_except (send_email cfg env is_success)
      (fun e => logging_exception "Failed to send email" e)
  else mret tt.

(** Second block of [finish]: the webhook notifier.  The section list of
    [load_config] contains [discord], so the membership test of the
    block always holds. *)
Definition notify_discord (cfg : Config) (env : Env) (is_success : bool) : M unit :=
  if negb (String.eqb (discord_enabled cfg) EmptyString) then
    if PyStr.contains (outcome_word is_success) (discord_sendon cfg) then
      try_except
        (log ← email_log_getvalue cfg env;
         send_discord_notification cfg env is_success log)
        (fun e => logging_exception "Failed to send Discord notification" e)
    else mret tt
  else mret tt.

Definition finish (cfg : Config) (env : Env) (is_success : bool) : M unit :=
  notify_email cfg env is_success;;
  notify_discord cfg env is_success;;
  (if is_success then logging_log INFO "Run finished successfully"
   else logging_log ERROR "Run failed");;
  raise (SystemExit (exit_status is_success)).

(** ** [run] *)

Definition dq : string := String "034" EmptyString.

Definition stars : string := PyStr.replicate 60 "*".
Definition rule : string := PyStr.replicate 60 "=".

(** [str(e)] for the error [logging.error(e)] prints. *)
Definition exn_str (env : Env) (e : exn) : string :=
  match e with
  | CalledProcessError ret cmd =>
      if ret <? 0 then
        match env_signal env (- ret) with
        | Some name => "Command '" +:+ cmd +:+ "' died with " +:+ name +:+ "."
        | None => "Command '" +:+ cmd +:+ "' died with unknown signal "
                  +:+ pretty (- ret) +:+ "."
        end
      else "Command '" +:+ cmd +:+ "' returned non-zero exit status "
           +:+ pretty ret +:+ "."
  | SystemExit code => pretty code
  | KeyError k => "'" +:+ k +:+ "'"
  | AttributeError m => m
  | TransportError m => m
  end.

(** The four existence checks at the head of [run]. *)
Definition preflight (cfg : Config) (env : Env) : M unit :=
  (if negb (env_which env (snapraid_executable cfg)) then
     logging_log ERROR
       ("The configured snapraid executable " +:+ dq +:+ snapraid_executable cfg
        +:+ dq +:+ " does not exist or is not a file");;
     finish cfg env false
   else mret tt);;
  (if negb (env_isfile env (snapraid_config cfg)) then
     logging_log ERROR ("Snapraid config does not exist at " +:+ snapraid_config cfg);;
     finish cfg env false
   else mret tt);;
  (if negb (env_which env (btrfs_executable cfg)) then
     logging_log ERROR
       ("Snapraid-btrfs executable does not exist at " +:+ btrfs_executable cfg);;
     finish cfg env false
   else mret tt);;
  (if negb (env_which env (snapper_executable cfg)) then
     logging_log ERROR
       ("Snapper executable does not exist at " +:+ snapper_executable cfg);;
     finish cfg env false
   else mret tt).

(** [snapraid_btrfs_args_extend] as first filled. *)
Definition initial_args (cfg : Config) : pydict :=
  let d := [] in
  let d := if 0 <? PyStr.len (btrfs_snapper_configs cfg)
           then dict_set "snapper-configs" (VStr (btrfs_snapper_configs cfg)) d
           else d in
  let d := if 0 <? PyStr.len (btrfs_snapper_configs_file cfg)
           then dict_set "snapper-configs-file"
                  (VStr (btrfs_snapper_configs_file cfg)) d
           else d in
  d.

Definition touch_stage (cfg : Config) (env : Env) (args : pydict) : M unit :=
  if snapraid_touch cfg then
    logging_log INFO "Running touch...";;
    snapraid_btrfs_command cfg env "touch" [] args [];;
    logging_log INFO stars
  else mret tt.

Definition diff_stage (cfg : Config) (env : Env) (args : pydict)
  : M (list string) :=
  logging_log INFO "Running diff...";;
  diff_out ← snapraid_btrfs_command cfg env "diff" [] args [2];
  logging_log INFO stars;;
  mret diff_out.

Definition report_diff (diff_results : gmap string Z) : M unit :=
  a ← getitem diff_results "add";
  r ← getitem diff_results "remove";
  m ← getitem diff_results "move";
  u ← getitem diff_results "update";
  logging_log INFO
    ("Diff results: " +:+ pretty a +:+ " added,  " +:+ pretty r +:+ " removed,  "
     +:+ pretty m +:+ " moved,  " +:+ pretty u +:+ " modified").

(** The delete-threshold guard. *)
Definition threshold_check (cfg : Config) (env : Env)
    (diff_results : gmap string Z) : M unit :=
  if 0 <=? snapraid_deletethreshold cfg then
    r ← getitem diff_results "remove";
    if snapraid_deletethreshold cfg <? r then
      logging_log ERROR
        ("Deleted files exceed delete threshold of "
         +:+ pretty (snapraid_deletethreshold cfg) +:+ ", aborting");;
      logging_log ERROR "Run again with --ignore-deletethreshold to sync anyways";;
      finish cfg env false
    else mret tt
  else mret tt.

(** [except subprocess.CalledProcessError as e: logging.error(e); finish(False)] *)
Definition abort_on_error (cfg : Config) (env : Env) (e : exn) : M unit :=
  logging_log ERROR (exn_str env e);;
  finish cfg env false.

Definition sync_stage (cfg : Config) (env : Env)
    (diff_results : gmap string Z) (args : pydict) : M unit :=
  r ← getitem diff_results "remove";
  a ← getitem diff_results "add";
  m ← getitem diff_results "move";
  u ← getitem diff_results "update";
  if r + a + m + u =? 0 then
    logging_log INFO "No changes detected, no sync required"
  else
    logging_log INFO "Running sync...";;
    try_except_cpe
      (snapraid_btrfs_command cfg env "sync" [] args [];; mret tt)
      (abort_on_error cfg env);;
    logging_log INFO stars.

(** The pool step writes [pool-dir] into the dictionary shared by all
    the calls of the run; the stage returns the dictionary as it leaves
    it. *)
Definition pool_stage (cfg : Config) (env : Env) (args : pydict) : M pydict :=
  if btrfs_pool cfg then
    logging_log INFO "Running pool...";;
    let args := if 0 <? PyStr.len (btrfs_pool_dir cfg)
                then dict_set "pool-dir" (VStr (btrfs_pool_dir cfg)) args
                else args in
    try_except_cpe
      (snapraid_btrfs_command cfg env "pool" [] args [];; mret tt)
      (abort_on_error cfg env);;
    logging_log INFO stars;;
    mret args
  else mret args.

Definition cleanup_stage (cfg : Config) (env : Env) (args : pydict) : M unit :=
  if btrfs_cleanup cfg then
    logging_log INFO "Running cleanup...";;
    try_except_cpe
      (snapraid_btrfs_command cfg env "cleanup" [] args [];; mret tt)
      (abort_on_error cfg env);;
    logging_log INFO stars
  else mret tt.

(** [snapraid_args_extend] of the scrub step, with the warning of the
    symbolic branch. *)
Definition scrub_args (cfg : Config) (env : Env) : M pydict :=
  match py_int env (scrub_plan cfg) with
  | None =>
      (if 0 <? scrub_older_than cfg then
         logging_log WARNING
           ("Ignoring 'older-than' config item with scrub plan '"
            +:+ scrub_plan cfg +:+ "'")
       else mret tt);;
      mret [("plan", VStr (scrub_plan cfg))]
  | Some _ =>
      mret [("plan", VStr (scrub_plan cfg));
            ("older-than", VInt (scrub_older_than cfg))]
  end.

Definition scrub_stage (cfg : Config) (env : Env) (args : pydict) : M unit :=
  if scrub_enabled cfg then
    logging_log INFO "Running scrub...";;
    snapraid_args_extend ← scrub_args cfg env;
    try_except_cpe
      (snapraid_btrfs_command cfg env "scrub" snapraid_args_extend args [];;
       mret tt)
      (abort_on_error cfg env);;
    logging_log INFO stars
  else mret tt.

(** [run] up to and including the diff report: the lines of the diff and
    the shared argument dictionary. *)
Definition run_to_diff (cfg : Config) (env : Env) : M (list string * pydict) :=
  logging_log INFO rule;;
  logging_log INFO "Run started";;
  logging_log INFO rule;;
  preflight cfg env;;
  let args := initial_args cfg in
  touch_stage cfg env args;;
  diff_out ← diff_stage cfg env args;
  report_diff (classify diff_out);;
  mret (diff_out, args).

(** [run] from the threshold guard on. *)
Definition run_from_guard (cfg : Config) (env : Env)
    (diff_out : list string) (args : pydict) : M unit :=
  let diff_results := classify diff_out in
  threshold_check cfg env diff_results;;
  sync_stage cfg env diff_results args;;
  args ← pool_stage cfg env args;
  cleanup_stage cfg env args;;
  scrub_stage cfg env args;;
  logging_log INFO "All done";;
  finish cfg env true.

Definition run (cfg : Config) (env : Env) : M unit :=
  '(diff_out, args) ← run_to_diff cfg env;
  run_from_guard cfg env diff_out args.

(** [main] after the configuration is loaded and the logger set up. *)
Definition main (cfg : Config) (env : Env) : M unit :=
  try_except (run cfg env)
    (fun e =>
       logging_exception "Run failed due to unexpected exception:" e;;
       finish cfg env false).

(** Exit status of the process for a final result of [main]. *)
Definition process_exit_code (r : result unit) : Z :=
  match r with
  | Ok _ => 0
  | Raise (SystemExit code) => code
  | Raise _ => 1
  end.

(** ** The two tee threads of one command, step by step *)

(** [snapraid_btrfs_command] starts one [tee_thread] per pipe, joins
    both and only then calls [p.wait()].  The module spells the
    interleavings out.  A step is one of: the child writes a line to a
    pipe, closes a pipe, or exits; a thread performs its next statement
    ([readline], [logging.log], [out_lines.append], [infile.close]); the
    parent performs its next statement.  Each statement is atomic here:
    a log handler emits a record under its lock, a list append is a
    single operation of the interpreter, and [readline] hands out whole
    lines.  Pipes are unbounded, which only adds interleavings. *)
Module Tee.

Record Pipe := {
  unwritten : list string;   (* lines the child has still to write *)
  buffered : list string;    (* written and not read yet *)
  closed : bool              (* the child has closed its end *)
}.

(** Where a [tee_thread] stands. *)
Inductive Thread :=
| AtReadline               (* about to call [infile.readline()] *)
| AtLog (line : string)    (* in the loop body, about to log *)
| AtAppend (line : string) (* about to append to [out_lines] *)
| AtClose                  (* loop left, about to close the file *)
| Joinable.                (* the thread function has returned *)

(** Where the parent stands after starting the threads. *)
Inductive Parent :=
| JoinOut                  (* in [t.join()] of the stdout tee *)
| JoinErr                  (* in [t.join()] of the stderr tee *)
| Wait                     (* in [p.wait()] *)
| GotStatus (ret : Z).     (* [ret] assigned *)

Record Sys := {
  out_pipe : Pipe;
  err_pipe : Pipe;
  status : Z;                (* status the child exits with *)
  exited : bool;
  t_out : Thread;
  t_err : Thread;
  sink : list LogRecord;     (* what the log handler has emitted *)
  out : list string;         (* the list [out] *)
  err_lines : list string;   (* the unnamed list of the stderr tee *)
  parent : Parent
}.

Definition init (outs errs : list string) (ret : Z) : Sys :=
  {| out_pipe := {| unwritten := outs; buffered := []; closed := false |};
     err_pipe := {| unwritten := errs; buffered := []; closed := false |};
     status := ret; exited := false;
     t_out := AtReadline; t_err := AtReadline;
     sink := []; out := []; err_lines := []; parent := JoinOut |}.

Definition child_write (p : Pipe) : option Pipe :=
  if closed p then None
  else match unwritten p with
       | line :: rest =>
           Some {| unwritten := rest; buffered := buffered p ++ [line];
                   closed := false |}
       | [] => None
       end.

Definition child_close (p : Pipe) : option Pipe :=
  if closed p then None
  else match unwritten p with
       | [] => Some {| unwritten := []; buffered := buffered p; closed := true |}
       | _ :: _ => None
       end.

(** One statement of [tee_thread] on its pipe, at log level [l], with
    the shared sink and its own accumulator.  [iter(infile.readline, "")]
    leaves the loop when [readline] returns the empty string, which it
    does at end of file; [readline] blocks on an empty open pipe. *)
Definition thread_step (l : Level) (p : Pipe) (t : Thread)
    (k : list LogRecord) (acc : list string)
  : option (Pipe * Thread * list LogRecord * list string) :=
  match t with
  | AtReadline =>
      match buffered p with
      | line :: rest =>
          let p' := {| unwritten := unwritten p; buffered := rest;
                       closed := closed p |} in
          if String.eqb line EmptyString then Some (p', AtClose, k, acc)
          else Some (p', AtLog line, k, acc)
      | [] => if closed p then Some (p, AtClose, k, acc) else None
      end
  | AtLog line => Some (p, AtAppend line, k ++ [tee_record l line], acc)
  | AtAppend line => Some (p, AtReadline, k, acc ++ [line])
  | AtClose => Some (p, Joinable, k, acc)
  | Joinable => None
  end.

Definition is_joinable (t : Thread) : bool :=
  match t with Joinable => true | _ => false end.

Definition parent_step (s : Sys) : option Parent :=
  match parent s with
  | JoinOut => if is_joinable (t_out s) then Some JoinErr else None
  | JoinErr => if is_joinable (t_err s) then Some Wait else None
  | Wait => if exited s then Some (GotStatus (status s)) else None
  | GotStatus _ => None
  end.

Inductive Action :=
| WriteOut | WriteErr | CloseOut | CloseErr | Exit
| TeeOut | TeeErr | ParentStep.

Definition step (a : Action) (s : Sys) : option Sys :=
  match a with
  | WriteOut =>
      p ← child_write (out_pipe s);
      Some {| out_pipe := p; err_pipe := err_pipe s; status := status s;
              exited := exited s; t_out := t_out s; t_err := t_err s;
              sink := sink s; out := out s; err_lines := err_lines s;
              parent := parent s |}
  | WriteErr =>
      p ← child_write (err_pipe s);
      Some {| out_pipe := out_pipe s; err_pipe := p; status := status s;
              exited := exited s; t_out := t_out s; t_err := t_err s;
              sink := sink s; out := out s; err_lines := err_lines s;
              parent := parent s |}
  | CloseOut =>
      p ← child_close (out_pipe s);
      Some {| out_pipe := p; err_pipe := err_pipe s; status := status s;
              exited := exited s; t_out := t_out s; t_err := t_err s;
              sink := sink s; out := out s; err_lines := err_lines s;
              parent := parent s |}
  | CloseErr =>
      p ← child_close (err_pipe s);
      Some {| out_pipe := out_pipe s; err_pipe := p; status := status s;
              exited := exited s; t_out := t_out s; t_err := t_err s;
              sink := sink s; out := out s; err_lines := err_lines s;
              parent := parent s |}
  | Exit =>
      if closed (out_pipe s) && closed (err_pipe s) && negb (exited s) then
        Some {| out_pipe := out_pipe s; err_pipe := err_pipe s;
                status := status s; exited := true;
                t_out := t_out s; t_err := t_err s;
                sink := sink s; out := out s; err_lines := err_lines s;
                parent := parent s |}
      else None
  | TeeOut =>
      '(p, t, k, acc) ← thread_step OUTPUT (out_pipe s) (t_out s) (sink s) (out s);
      Some {| out_pipe := p; err_pipe := err_pipe s; status := status s;
              exited := exited s; t_out := t; t_err := t_err s;
              sink := k; out := acc; err_lines := err_lines s;
              parent := parent s |}
  | TeeErr =>
      '(p, t, k, acc) ← thread_step OUTERR (err_pipe s) (t_err s) (sink s)
                          (err_lines s);
      Some {| out_pipe := out_pipe s; err_pipe := p; status := status s;
              exited := exited s; t_out := t_out s; t_err := t;
              sink := k; out := out s; err_lines := acc;
              parent := parent s |}
  | ParentStep =>
      q ← parent_step s;
      Some {| out_pipe := out_pipe s; err_pipe := err_pipe s;
              status := status s; exited := exited s;
              t_out := t_out s; t_err := t_err s;
              sink := sink s; out := out s; err_lines := err_lines s;
              parent := q |}
  end.

(** Running a schedule; [None] when a scheduled step is not enabled. *)
Fixpoint exec (sched : list Action) (s : Sys) : option Sys :=
  match sched with
  | [] => Some s
  | a :: sched' => s' ← step a s; exec sched' s'
  end.

(** The parent has got past both joins. *)
Definition past_joins (s : Sys) : Prop :=
  parent s = Wait \/ exists ret, parent s = GotStatus ret.

(** The records of level [l] in a sink, in order. *)
Definition at_level (l : Level) (k : list LogRecord) : list LogRecord :=
  filter (fun r => rec_level r = l) k.

(** Steps still to come, at most. *)
Definition pipe_fuel (p : Pipe) : nat :=
  (4 * length (unwritten p) + 3 * length (buffered p)
   + (if closed p then 0 else 1))%nat.

Definition thread_fuel (t : Thread) : nat :=
  match t with
  | AtLog _ => 4 | AtAppend _ => 3 | AtReadline => 2 | AtClose => 1
  | Joinable => 0
  end.

Definition parent_fuel (q : Parent) : nat :=
  match q with
  | JoinOut => 3 | JoinErr => 2 | Wait => 1 | GotStatus _ => 0
  end.

(** Lines a thread holds between [readline] and [append]. *)
Definition in_flight (t : Thread) : list string :=
  match t with
  | AtLog line | AtAppend line => [line]
  | _ => []
  end.

(** Lines a thread has logged and not appended yet. *)
Definition logged_only (t : Thread) : list string :=
  match t with
  | AtAppend line => [line]
  | _ => []
  end.

(** What holds of one stream at every moment: no line is lost or
    duplicated on its way from the child to the accumulator, the sink
    holds the records of the lines logged so far in order, and a thread
    that has left its loop has drained its pipe. *)
Definition stream_inv (l : Level) (lines : list string) (p : Pipe)
    (t : Thread) (acc : list string) (k : list LogRecord) : Prop :=
  lines = acc ++ in_flight t ++ buffered p ++ unwritten p
  /\ at_level l k = map (tee_record l) (acc ++ logged_only t)
  /\ (closed p = true -> unwritten p = [])
  /\ (t = AtClose \/ t = Joinable -> buffered p = [] /\ unwritten p = []).

Definition tee_inv (outs errs : list string) (ret : Z) (s : Sys) : Prop :=
  stream_inv OUTPUT outs (out_pipe s) (t_out s) (out s) (sink s)
  /\ stream_inv OUTERR errs (err_pipe s) (t_err s) (err_lines s) (sink s)
  /\ Forall (fun r => rec_level r = OUTPUT \/ rec_level r = OUTERR) (sink s)
  /\ status s = ret
  /\ (parent s <> JoinOut -> t_out s = Joinable)
  /\ (past_joins s -> t_err s = Joinable)
  /\ (forall r, parent s = GotStatus r -> r = ret).

Definition fuel (s : Sys) : nat :=
  (pipe_fuel (out_pipe s) + pipe_fuel (err_pipe s)
   + (if exited s then 0 else 1)
   + thread_fuel (t_out s) + thread_fuel (t_err s)
   + parent_fuel (parent s))%nat.

End Tee.

(** ** Vocabulary of the statements *)

(** The line [finish] logs last. *)
Definition status_record (is_success : bool) : LogRecord :=
  if is_success
  then {| rec_level := INFO; rec_msg := "Run finished successfully"; rec_exc := None |}
  else {| rec_level := ERROR; rec_msg := "Run failed"; rec_exc := None |}.

(** The record [logging.exception] leaves for a caught notifier error. *)
Definition caught_record (msg : string) (e : exn) : LogRecord :=
  {| rec_level := ERROR; rec_msg := msg; rec_exc := Some e |}.

Definition error_record (msg : string) : LogRecord :=
  {| rec_level := ERROR; rec_msg := msg; rec_exc := None |}.

(** How [finish] accounts in the log for the answer of the webhook. *)
Definition post_logged (answer : PostResult) (log : list LogRecord) : Prop :=
  match answer with
  | PostOk =>
      In {| rec_level := INFO; rec_msg := "Discord notification sent successfully.";
            rec_exc := None |} log
  | PostHTTPError m => In (error_record ("HTTP Error: " +:+ m)) log
  | PostConnectionError m => In (error_record ("Error Connecting: " +:+ m)) log
  | PostTimeout m => In (error_record ("Timeout Error: " +:+ m)) log
  | PostRequestException m => In (error_record ("Something went wrong: " +:+ m)) log
  | PostOtherException m =>
      In (caught_record "Failed to send Discord notification" (TransportError m)) log
  end.

(** States that differ from [st] by appended log records, messages and
    payloads. *)
Definition with_log (st : State) (rs : list LogRecord) : State :=
  {| st_log := st_log st ++ rs; st_spawned := st_spawned st;
     st_mails := st_mails st; st_posts := st_posts st |}.

Definition with_mails (st : State) (ms : list Email) : State :=
  {| st_log := st_log st; st_spawned := st_spawned st;
     st_mails := st_mails st ++ ms; st_posts := st_posts st |}.

Definition with_posts (st : State) (ps : list Payload) : State :=
  {| st_log := st_log st; st_spawned := st_spawned st;
     st_mails := st_mails st; st_posts := st_posts st ++ ps |}.



(** Number of diff lines whose first space-separated field is [k]. *)
Definition count_kind (k : string) (diff_out : list string) : Z :=
  count_lines (fun l => bool_decide (first_field l = k)) diff_out.

Definition total_changes (diff_out : list string) : Z :=
  count_kind "remove" diff_out + count_kind "add" diff_out
  + count_kind "move" diff_out + count_kind "update" diff_out.

(** [run] after the Sync step. *)
Definition run_after_sync (cfg : Config) (env : Env) (args : pydict) : M unit :=
  args ← pool_stage cfg env args;
  cleanup_stage cfg env args;;
  scrub_stage cfg env args;;
  logging_log INFO "All done";;
  finish cfg env true.

(** The commands of the optional steps that follow Sync, in order. *)
Definition enabled_steps (cfg : Config) : list string :=
  (if btrfs_pool cfg then ["pool"] else [])
  ++ (if btrfs_cleanup cfg then ["cleanup"] else [])
  ++ (if scrub_enabled cfg then ["scrub"] else []).

(** The shared dictionary as the pool step leaves it. *)
Definition pool_args (cfg : Config) (args : pydict) : pydict :=
  if btrfs_pool cfg && (0 <? PyStr.len (btrfs_pool_dir cfg))
  then dict_set "pool-dir" (VStr (btrfs_pool_dir cfg)) args
  else args.

(** The per-command dictionary of the scrub step. *)
Definition scrub_sargs (cfg : Config) (env : Env) : pydict :=
  match py_int env (scrub_plan cfg) with
  | None => [("plan", VStr (scrub_plan cfg))]
  | Some _ => [("plan", VStr (scrub_plan cfg));
               ("older-than", VInt (scrub_older_than cfg))]
  end.

(** The warning of the scrub step about an ignored older-than option. *)
Definition older_than_warning (cfg : Config) : LogRecord :=
  {| rec_level := WARNING;
     rec_msg := "Ignoring 'older-than' config item with scrub plan '"
                +:+ scrub_plan cfg +:+ "'";
     rec_exc := None |}.

(** A planned call of the command runner: command, per-command
    dictionary, shared dictionary. *)
Definition Step : Type := string * pydict * pydict.

Definition later_steps (cfg : Config) (env : Env) (args : pydict) : list Step :=
  (if btrfs_pool cfg then [("pool", [], pool_args cfg args)] else [])
  ++ (if btrfs_cleanup cfg then [("cleanup", [], pool_args cfg args)] else [])
  ++ (if scrub_enabled cfg
      then [("scrub", scrub_sargs cfg env, pool_args cfg args)] else []).

(** The [n]-th child of the run, when spawned for the step [s]. *)
Definition invocation_at (cfg : Config) (env : Env) (n : nat) (s : Step)
  : Invocation :=
  let argv := command_argv cfg s.1.1 s.1.2 s.2 in
  {| inv_command := s.1.1; inv_argv := argv;
     inv_ret := proc_ret (env_popen env n argv) |}.

(** Children spawned for a list of steps that stops at the first one
    leaving with a non-zero status, and whether all succeeded. *)
Fixpoint spawn_in_order (cfg : Config) (env : Env) (n : nat) (plan : list Step)
  : list Invocation * bool :=
  match plan with
  | [] => ([], true)
  | s :: plan' =>
      let i := invocation_at cfg env n s in
      if inv_ret i =? 0 then
        let '(rest, ok) := spawn_in_order cfg env (S n) plan' in (i :: rest, ok)
      else ([i], false)
  end.

(** Every call of the command runner that [run] can make. *)
Definition all_steps (cfg : Config) (env : Env) : list Step :=
  [("touch", [], initial_args cfg); ("diff", [], initial_args cfg);
   ("sync", [], initial_args cfg)]
  ++ later_steps cfg env (initial_args cfg).

(** The invocation [i] was spawned for one of the steps of [plan]. *)
Definition from_step (cfg : Config) (env : Env) (plan : list Step)
    (i : Invocation) : Prop :=
  exists k s, In s plan /\ i = invocation_at cfg env k s.

(** ** Concrete scenarios *)

(** A configuration with every optional step enabled and both notifiers
    set to fire on either outcome. *)
Definition demo_cfg (deletethreshold : Z) (plan : string) : Config :=
  {| snapraid_executable := "/usr/bin/snapraid";
     snapraid_config := "/etc/snapraid.conf";
     snapraid_deletethreshold := deletethreshold;
     snapraid_touch := true;
     btrfs_executable := "/usr/bin/snapraid-btrfs";
     btrfs_snapper_configs := "data1,data2";
     btrfs_snapper_configs_file := "";
     btrfs_pool := true;
     btrfs_pool_dir := "/mnt/pool";
     btrfs_cleanup := true;
     snapper_executable := "/usr/bin/snapper";
     scrub_enabled := true;
     scrub_plan := plan;
     scrub_older_than := 30;
     email_sendon := "success,error";
     email_short := false;
     email_maxsize := 1;
     email_subject := "[SnapRAID]";
     email_from := "runner@example.org";
     email_to := "admin@example.org";
     smtp_host := "localhost";
     discord_enabled := "true";
     discord_sendon := "success,error";
     discord_webhook_url := "https://discord.example/api/webhooks/1" |}.

Definition quiet_child (ret : Z) : ProcResult :=
  {| proc_ret := ret; proc_stdout := []; proc_stderr := []; proc_tee := [] |}.

(** A world where every path exists, the diff child prints [diff_lines]
    and leaves with status 2, the child of [failing] (if any) leaves with
    status 1, every other child succeeds silently, and both transports
    answer as given. *)
Definition demo_env (diff_lines : list string) (failing : string)
    (smtp : option string) (post : PostResult) : Env :=
  {| env_which := fun _ => true;
     env_isfile := fun _ => true;
     env_popen := fun _ argv =>
       if bool_decide ("diff" ∈ argv) then
         {| proc_ret := 2; proc_stdout := diff_lines;
            proc_stderr := ["WARNING! UUID is unsupported" +:+ PyStr.nl];
            proc_tee := [true; false] |}
       else if bool_decide (failing ∈ argv) then quiet_child 1
       else quiet_child 0;
     env_asctime := fun _ => "2026-11-04 09:41:00,000";
     env_traceback := fun _ => "Traceback (most recent call last):";
     env_signal := fun _ => None;
     env_int_max_str_digits := 4300;
     env_smtp_open := fun _ => None;
     env_smtp := fun _ => smtp;
     env_post := fun _ _ => post |}.

(** Scenario A and B of the spec: two additions and one removal. *)
Definition demo_diff : list string :=
  ["add a" +:+ PyStr.nl; "add b" +:+ PyStr.nl; "remove c" +:+ PyStr.nl].


(** State after a child has been spawned and its output logged. *)
Definition after_command (st : State) (i : Invocation) (rs : list LogRecord)
  : State :=
  {| st_log := st_log st ++ rs; st_spawned := st_spawned st ++ [i];
     st_mails := st_mails st; st_posts := st_posts st |}.

(** The child a call of the command runner spawns from state [st]. *)
Definition child_of (cfg : Config) (env : Env) (command : string)
    (snapraid_args snapraid_btrfs_args : pydict) (st : State) : ProcResult :=
  env_popen env (length (st_spawned st))
    (command_argv cfg command snapraid_args snapraid_btrfs_args).

Definition invocation_of (cfg : Config) (env : Env) (command : string)
    (snapraid_args snapraid_btrfs_args : pydict) (st : State) : Invocation :=
  {| inv_command := command;
     inv_argv := command_argv cfg command snapraid_args snapraid_btrfs_args;
     inv_ret := proc_ret (child_of cfg env command snapraid_args
                            snapraid_btrfs_args st) |}.

(** No record of the list is a warning. *)
Definition no_warning (rs : list LogRecord) : Prop :=
  Forall (fun r => rec_level r <> WARNING) rs.

(** [st'] continues [st]: it has spawned [invs] more and logged [rs] more. *)
Definition continues (st st' : State) (invs : list Invocation)
    (rs : list LogRecord) : Prop :=
  st_spawned st' = st_spawned st ++ invs /\ st_log st' = st_log st ++ rs.

(** The condition of the delete-threshold guard. *)
Definition guard_trips (cfg : Config) (diff_out : list string) : bool :=
  (0 <=? snapraid_deletethreshold cfg)
  && (snapraid_deletethreshold cfg <? count_kind "remove" diff_out).

(** The spec's order: connection flags first, then the caller's flags,
    the command name and the per-command flags. *)
Definition spec_order_vector (cfg : Config) (command : string)
    (snapraid_args snapraid_btrfs_args : pydict) : list string :=
  connection_flags cfg ++ extend_flags snapraid_btrfs_args
  ++ [command] ++ snapraid_arguments command snapraid_args.

(** ** The shape of a whole run *)

(** The four existence checks at the head of [run], taken together. *)
Definition preflight_ok (cfg : Config) (env : Env) : bool :=
  env_which env (snapraid_executable cfg)
  && env_isfile env (snapraid_config cfg)
  && env_which env (btrfs_executable cfg)
  && env_which env (snapper_executable cfg).

Definition touch_steps (cfg : Config) : list Step :=
  if snapraid_touch cfg then [("touch", [], initial_args cfg)] else [].

Definition sync_steps (cfg : Config) (diff_out : list string) : list Step :=
  if total_changes diff_out =? 0 then [] else [("sync", [], initial_args cfg)].

(** The diff child of a run whose [n]-th child it is. *)
Definition diff_child (cfg : Config) (env : Env) (n : nat) : ProcResult :=
  env_popen env n (command_argv cfg "diff" [] (initial_args cfg)).

(** How [run], started when [n] children have been spawned, can end:
    with which result and which further children. *)
Inductive RunShape (cfg : Config) (env : Env) (n : nat)
  : result unit -> list Invocation -> Prop :=
| shape_preflight :
    preflight_ok cfg env = false ->
    RunShape cfg env n (Raise (SystemExit 1)) []
| shape_touch_failed ti :
    preflight_ok cfg env = true ->
    snapraid_touch cfg = true ->
    ti = invocation_at cfg env n ("touch", [], initial_args cfg) ->
    inv_ret ti <> 0 ->
    RunShape cfg env n
      (Raise (CalledProcessError (inv_ret ti) "snapraid-btrfs touch")) [ti]
| shape_diff_failed pre di :
    preflight_ok cfg env = true ->
    spawn_in_order cfg env n (touch_steps cfg) = (pre, true) ->
    di = invocation_at cfg env (n + length pre) ("diff", [], initial_args cfg) ->
    status_allowed (inv_ret di) [2] = false ->
    RunShape cfg env n
      (Raise (CalledProcessError (inv_ret di) "snapraid-btrfs diff"))
      (pre ++ [di])
| shape_guard_tripped pre di :
    preflight_ok cfg env = true ->
    spawn_in_order cfg env n (touch_steps cfg) = (pre, true) ->
    di = invocation_at cfg env (n + length pre) ("diff", [], initial_args cfg) ->
    status_allowed (inv_ret di) [2] = true ->
    guard_trips cfg (proc_stdout (diff_child cfg env (n + length pre))) = true ->
    RunShape cfg env n (Raise (SystemExit 1)) (pre ++ [di])
| shape_steps pre di post ok :
    preflight_ok cfg env = true ->
    spawn_in_order cfg env n (touch_steps cfg) = (pre, true) ->
    di = invocation_at cfg env (n + length pre) ("diff", [], initial_args cfg) ->
    status_allowed (inv_ret di) [2] = true ->
    guard_trips cfg (proc_stdout (diff_child cfg env (n + length pre))) = false ->
    spawn_in_order cfg env (n + length pre + 1)
      (sync_steps cfg (proc_stdout (diff_child cfg env (n + length pre)))
       ++ later_steps cfg env (initial_args cfg)) = (post, ok) ->
    RunShape cfg env n (Raise (SystemExit (if ok then 0 else 1)))
      (pre ++ [di] ++ post).

(** Exit status [main] turns a result of [run] into. *)
Definition main_status (r : result unit) : Z :=
  match r with
  | Raise (SystemExit code) => code
  | _ => 1
  end.

(** The order in which the commands of a run can appear. *)
Definition command_order : list string :=
  ["touch"; "diff"; "sync"; "pool"; "cleanup"; "scrub"].

(** A world like [demo_env] where the checks of the listed paths fail
    and the diff child leaves with [diff_ret]. *)
Definition demo_world (missing : list string) (diff_ret : Z)
    (diff_lines : list string) (failing : string) : Env :=
  {| env_which := fun p => negb (bool_decide (p ∈ missing));
     env_isfile := fun p => negb (bool_decide (p ∈ missing));
     env_popen := fun _ argv =>
       if bool_decide ("diff" ∈ argv) then
         {| proc_ret := diff_ret; proc_stdout := diff_lines;
            proc_stderr := []; proc_tee := [] |}
       else if bool_decide (failing ∈ argv) then quiet_child 1
       else quiet_child 0;
     env_asctime := fun _ => "2026-11-04 09:41:00,000";
     env_traceback := fun _ => "Traceback (most recent call last):";
     env_signal := fun _ => None;
     env_int_max_str_digits := 4300;
     env_smtp_open := fun _ => None;
     env_smtp := fun _ => None;
     env_post := fun _ _ => PostOk |}.

(** [cfg] with the pool step switched to [b]. *)
Definition with_pool (b : bool) (cfg : Config) : Config :=
  {| snapraid_executable := snapraid_executable cfg;
     snapraid_config := snapraid_config cfg;
     snapraid_deletethreshold := snapraid_deletethreshold cfg;
     snapraid_touch := snapraid_touch cfg;
     btrfs_executable := btrfs_executable cfg;
     btrfs_snapper_configs := btrfs_snapper_configs cfg;
     btrfs_snapper_configs_file := btrfs_snapper_configs_file cfg;
     btrfs_pool := b;
     btrfs_pool_dir := btrfs_pool_dir cfg;
     btrfs_cleanup := btrfs_cleanup cfg;
     snapper_executable := snapper_executable cfg;
     scrub_enabled := scrub_enabled cfg;
     scrub_plan := scrub_plan cfg;
     scrub_older_than := scrub_older_than cfg;
     email_sendon := email_sendon cfg;
     email_short := email_short cfg;
     email_maxsize := email_maxsize cfg;
     email_subject := email_subject cfg;
     email_from := email_from cfg;
     email_to := email_to cfg;
     smtp_host := smtp_host cfg;
     discord_enabled := discord_enabled cfg;
     discord_sendon := discord_sendon cfg;
     discord_webhook_url := discord_webhook_url cfg |}.

(** ** When the notifiers fire *)

(** [finish] sets out to send a mail: [send_email] is called and gets
    past its test of the smtp host. *)
Definition mail_due (cfg : Config) (is_success : bool) : bool :=
  PyStr.contains (outcome_word is_success) (email_sendon cfg)
  && negb (PyStr.len (smtp_host cfg) =? 0).

(** The session with the mail server opens: the constructor of the
    client, [starttls] and [login] raise nothing. *)
Definition session_opens (cfg : Config) (env : Env) : bool :=
  match env_smtp_open env (smtp_host cfg) with
  | None => true
  | Some _ => false
  end.

(** [finish] hands a payload to the webhook.  The text posted is read
    from the buffer that [setup_logger] creates for the email, which
    exists only when the [sendon] option of the email section is set. *)
Definition post_due (cfg : Config) (is_success : bool) : bool :=
  negb (String.eqb (discord_enabled cfg) EmptyString)
  && PyStr.contains (outcome_word is_success) (discord_sendon cfg)
  && negb (String.eqb (email_sendon cfg) EmptyString).

(** [demo_cfg] with the options of the two notifiers as given. *)
Definition notify_cfg (sendon host : string) (short : bool) (maxsize : Z)
    (enabled dsendon : string) : Config :=
  {| snapraid_executable := "/usr/bin/snapraid";
     snapraid_config := "/etc/snapraid.conf";
     snapraid_deletethreshold := 5;
     snapraid_touch := true;
     btrfs_executable := "/usr/bin/snapraid-btrfs";
     btrfs_snapper_configs := "data1,data2";
     btrfs_snapper_configs_file := "";
     btrfs_pool := true;
     btrfs_pool_dir := "/mnt/pool";
     btrfs_cleanup := true;
     snapper_executable := "/usr/bin/snapper";
     scrub_enabled := true;
     scrub_plan := "80";
     scrub_older_than := 30;
     email_sendon := sendon;
     email_short := short;
     email_maxsize := maxsize;
     email_subject := "[SnapRAID]";
     email_from := "runner@example.org";
     email_to := "admin@example.org";
     smtp_host := host;
     discord_enabled := enabled;
     discord_sendon := dsendon;
     discord_webhook_url := "https://discord.example/api/webhooks/1" |}.

(** ** [load_config] *)

(** [c.lower()] and [s.lower()] on the code points below 256: the
    letters A to Z, and the capital letters of Latin-1 (192 to 222
    without the multiplication sign 215). *)
Definition py_lower_char (c : ascii) : ascii :=
  let n := N_of_ascii c in
  if ((65 <=? n) && (n <=? 90)
      || (192 <=? n) && (n <=? 222) && negb (n =? 215))%N
  then ascii_of_N (n + 32) else c.

Fixpoint py_lower (s : string) : string :=
  match s with
  | EmptyString => EmptyString
  | String a s' => String (py_lower_char a) (py_lower s')
  end.

(** [s.strip()] *)
Definition py_strip (s : string) : string :=
  PyStr.rstrip (PyStr.lstrip_by PyStr.isspace s).

(** What [parser.sections()] and, for each of them, [parser.items(section)]
    give once [parser.read(args.conf)] has returned. *)
Definition ParsedFile : Type := list (string * list (string * string)).

Definition sections : list string :=
  ["snapraid-btrfs"; "snapper"; "snapraid"; "logging"; "email"; "smtp";
   "scrub"; "discord"].

(** The dictionary [config] while all its values are text. *)
Abbreviation RawConfig := (gmap string (gmap string string)).

(** [dict((x, defaultdict(lambda: "")) for x in sections)] *)
Definition empty_config : RawConfig :=
  list_to_map (map (fun x => (x, ∅)) sections).

(** [for (k, v) in parser.items(section): config[section][k] = v.strip()];
    [config] itself is a plain [dict], so a section that is not one of
    [sections] raises [KeyError] at its first item. *)
Fixpoint set_items (section : string) (items : list (string * string))
    (c : RawConfig) : result RawConfig :=
  match items with
  | [] => Ok c
  | (k, v) :: items' =>
      match c !! section with
      | Some d => set_items section items' (<[section := <[k := py_strip v]> d]> c)
      | None => Raise (KeyError section)
      end
  end.

Fixpoint read_sections (file : ParsedFile) (c : RawConfig) : result RawConfig :=
  match file with
  | [] => Ok c
  | (section, items) :: file' =>
      match set_items section items c with
      | Ok c' => read_sections file' c'
      | Raise e => Raise e
      end
  end.

(** [config[section][option]] for one of the eight sections: a missing
    option reads as the empty string. *)
Definition option_text (c : RawConfig) (section key : string) : string :=
  default EmptyString (c !! section ≫= (.!! key)).

(** [try: int(text) except ValueError: 0] *)
Definition int_option (env : Env) (text : string) : Z :=
  default 0 (py_int env text).

(** [text.lower() == "true"] *)
Definition bool_option (text : string) : bool :=
  String.eqb (py_lower text) "true".

(** The namespace [parser.parse_args()] returns. *)
Record Args := {
  args_conf : string;
  args_pool : option bool;
  args_cleanup : option bool;
  args_scrub : option bool;
  args_ignore_deletethreshold : bool;
  args_deletethreshold : option Z
}.

(** The options given on the command line. *)
Record Flags := {
  flag_conf : option string;
  flag_no_pool : bool;
  flag_no_cleanup : bool;
  flag_no_scrub : bool;
  flag_ignore_deletethreshold : bool;
  flag_deletethreshold : option Z
}.

(** The parser built in [main]: the three [--no-...] flags store [False]
    over a default of [None]. *)
Definition parse_args (flags : Flags) : Args :=
  {| args_conf := default "snapraid-btrfs-runner.conf" (flag_conf flags);
     args_pool := if flag_no_pool flags then Some false else None;
     args_cleanup := if flag_no_cleanup flags then Some false else None;
     args_scrub := if flag_no_scrub flags then Some false else None;
     args_ignore_deletethreshold := flag_ignore_deletethreshold flags;
     args_deletethreshold := flag_deletethreshold flags |}.

(** What [load_config] leaves in [config]: the options [run] and [finish]
    read, and those that only [setup_logger] and the mail transport
    read. *)
Record Loaded := {
  loaded_config : Config;
  logging_file : string;
  logging_maxsize : Z;
  smtp_port : string;
  smtp_ssl : bool;
  smtp_tls : bool;
  smtp_user : string;
  smtp_password : string
}.

(** [discord_webhook_url] stays [None] unless the webhook is enabled;
    [finish] tests the same option before the address is read, so the
    empty string stands for [None]. *)
Definition load_config (env : Env) (args : Args) (file : ParsedFile)
  : result Loaded :=
  match read_sections file empty_config with
  | Raise e => Raise e
  | Ok c =>
      let text := option_text c in
      Ok {| loaded_config :=
              {| snapraid_executable := text "snapraid" "executable";
                 snapraid_config := text "snapraid" "config";
                 snapraid_deletethreshold :=
                   if args_ignore_deletethreshold args then -1
                   else match args_deletethreshold args with
                        | Some n => n
                        | None => int_option env (text "snapraid" "deletethreshold")
                        end;
                 snapraid_touch := bool_option (text "snapraid" "touch");
                 btrfs_executable := text "snapraid-btrfs" "executable";
                 btrfs_snapper_configs := text "snapraid-btrfs" "snapper-configs";
                 btrfs_snapper_configs_file :=
                   text "snapraid-btrfs" "snapper-configs-file";
                 btrfs_pool :=
                   match args_pool args with
                   | Some b => b
                   | None => bool_option (text "snapraid-btrfs" "pool")
                   end;
                 btrfs_pool_dir := text "snapraid-btrfs" "pool-dir";
                 btrfs_cleanup :=
                   match args_cleanup args with
                   | Some b => b
                   | None => bool_option (text "snapraid-btrfs" "cleanup")
                   end;
                 snapper_executable := text "snapper" "executable";
                 scrub_enabled :=
                   match args_scrub args with
                   | Some b => b
                   | None => bool_option (text "scrub" "enabled")
                   end;
                 scrub_plan :=
                   if 0 <? PyStr.len (text "scrub" "percentage")
                   then text "scrub" "percentage" else text "scrub" "plan";
                 scrub_older_than := int_option env (text "scrub" "older-than");
                 email_sendon := text "email" "sendon";
                 email_short := bool_option (text "email" "short");
                 email_maxsize := int_option env (text "email" "maxsize");
                 email_subject := text "email" "subject";
                 email_from := text "email" "from";
                 email_to := text "email" "to";
                 smtp_host := text "smtp" "host";
                 discord_enabled := text "discord" "enabled";
                 discord_sendon := text "discord" "sendon";
                 discord_webhook_url :=
                   if 0 <? PyStr.len (text "discord" "enabled")
                   then text "discord" "webhook_url" else EmptyString |};
            logging_file := text "logging" "file";
            logging_maxsize := int_option env (text "logging" "maxsize");
            smtp_port := text "smtp" "port";
            smtp_ssl := bool_option (text "smtp" "ssl");
            smtp_tls := bool_option (text "smtp" "tls");
            smtp_user := text "smtp" "user";
            smtp_password := text "smtp" "password" |}
  end.

(** ** The start of the program ([main] up to the call of [run]) *)

(** What the start of the program finds outside. *)
Record Boot := {
  boot_exists : string -> bool;     (* [os.path.exists(p)] *)
  boot_read : string -> option ParsedFile;
                                    (* the file as the parser reads it;
                                       [None]: [parser.read] raises *)
  boot_log_opens : string -> bool   (* the rotating file handler on this
                                       path can be created *)
}.

(** [maxBytes] of the rotating file handler. *)
Definition max_log_size (ld : Loaded) : Z := Z.max (logging_maxsize ld) 0 * 1024.

(** [setup_logger] returns, or raises when the log file cannot be
    opened; the levels and handlers it installs are those of
    [levelno], [format_record] and [email_log_getvalue]. *)
Definition setup_logger (boot : Boot) (ld : Loaded) : bool :=
  if 0 <? PyStr.len (logging_file ld) then boot_log_opens boot (logging_file ld)
  else true.

(** [main] from the parsed command line on.  What it prints to the
    console before it exits with status 2 is not part of the state. *)
Definition main_entry (boot : Boot) (flags : Flags) (env : Env) : M unit :=
  let args := parse_args flags in
  if negb (boot_exists boot (args_conf args)) then raise (SystemExit 2)
  else
    match boot_read boot (args_conf args) with
    | None => raise (SystemExit 2)
    | Some file =>
        match load_config env args file with
        | Raise _ => raise (SystemExit 2)
        | Ok ld =>
            if setup_logger boot ld then main (loaded_config ld) env
            else raise (SystemExit 2)
        end
    end.

(** ** Vocabulary for the configuration file *)

(** The value the file gives last for [key] among [items]. *)
Fixpoint last_value (key : string) (items : list (string * string))
  : option string :=
  match items with
  | [] => None
  | (k, v) :: items' =>
      match last_value key items' with
      | Some w => Some w
      | None => if decide (k = key) then Some v else None
      end
  end.

(** The items of all the parts of the file headed [section], in order. *)
Definition file_items (file : ParsedFile) (section : string)
  : list (string * string) :=
  flat_map (fun p => if decide (p.1 = section) then p.2 else []) file.

(** The text of an option as the file gives it: stripped, and empty
    when the file does not set it. *)
Definition file_option (file : ParsedFile) (section key : string) : string :=
  from_option py_strip EmptyString (last_value key (file_items file section)).

(** Every section of the file that has an item is one of [sections]. *)
Definition known_sections (file : ParsedFile) : Prop :=
  Forall (fun p => p.2 = [] \/ In p.1 sections) file.

(** The start of the program fails before the run. *)
Definition setup_fails (boot : Boot) (flags : Flags) (env : Env) : Prop :=
  let args := parse_args flags in
  boot_exists boot (args_conf args) = false
  \/ boot_read boot (args_conf args) = None
  \/ exists file,
       boot_read boot (args_conf args) = Some file
       /\ (~ known_sections file
           \/ exists ld, load_config env args file = Ok ld
                         /\ logging_file ld <> EmptyString
                         /\ boot_log_opens boot (logging_file ld) = false).

(** A configuration file and a command line for the examples. *)
Definition demo_file : ParsedFile :=
  [("snapraid-btrfs", [("executable", "/usr/bin/snapraid-btrfs");
                       ("pool", "True"); ("cleanup", " true ")]);
   ("snapper", [("executable", "/usr/bin/snapper")]);
   ("snapraid", [("executable", "/usr/bin/snapraid");
                 ("config", "/etc/snapraid.conf");
                 ("touch", "yes")]);
   ("email", [("sendon", "error"); ("subject", "[SnapRAID]")]);
   ("smtp", [("host", "localhost")]);
   ("scrub", [("enabled", "TRUE"); ("plan", "12")]);
   ("discord", [("enabled", "false"); ("sendon", "error");
                ("webhook_url", "https://discord.example/api/webhooks/1")])].

Definition demo_flags (no_pool ignore : bool) (threshold : option Z) : Flags :=
  {| flag_conf := None;
     flag_no_pool := no_pool;
     flag_no_cleanup := false;
     flag_no_scrub := false;
     flag_ignore_deletethreshold := ignore;
     flag_deletethreshold := threshold |}.

Definition demo_boot (file : option ParsedFile) : Boot :=
  {| boot_exists := fun _ => true;
     boot_read := fun _ => file;
     boot_log_opens := fun _ => true |}.

(** [env] where the two tee threads of every child get to log in the
    order [order]. *)
Definition with_tee_order (order : list bool) (env : Env) : Env :=
  {| env_which := env_which env;
     env_isfile := env_isfile env;
     env_popen := fun n argv =>
       let p := env_popen env n argv in
       {| proc_ret := proc_ret p; proc_stdout := proc_stdout p;
          proc_stderr := proc_stderr p; proc_tee := order |};
     env_asctime := env_asctime env;
     env_traceback := env_traceback env;
     env_signal := env_signal env;
     env_int_max_str_digits := env_int_max_str_digits env;
     env_smtp_open := env_smtp_open env;
     env_smtp := env_smtp env;
     env_post := env_post env |}.

(** * Properties *)

(** *** Facts about [split] and [first_field] *)

Lemma split_nonempty sep s : PyStr.split sep s ≠ [].
Proof.
  destruct s as [|a s]; simpl; [done|].
  destruct (Ascii.eqb a sep); [done|].
  by destruct (PyStr.split sep s).
Qed.

Lemma first_field_nil : first_field "" = "".
Proof. reflexivity. Qed.

Lemma first_field_cons a s :
  first_field (String a s) =
  if Ascii.eqb a " " then "" else String a (first_field s).
Proof.
  unfold first_field. simpl.
  destruct (Ascii.eqb a " "); [done|].
  destruct (PyStr.split " " s) eqn:E; [|done].
  by apply split_nonempty in E.
Qed.

Lemma prefix_cons a k b s :
  String.prefix (String a k) (String b s) =
  bool_decide (a = b) && String.prefix k s.
Proof.
  simpl. destruct (ascii_dec a b) as [->|Hne].
  - by rewrite bool_decide_eq_true_2.
  - by rewrite bool_decide_eq_false_2.
Qed.

Lemma count_char_nonneg c s : 0 <= PyStr.count_char c s.
Proof.
  induction s as [|a s IH]; cbn [PyStr.count_char]; [lia|].
  destruct (Ascii.eqb a c); lia.
Qed.

Lemma append_cons a k s : String a k +:+ s = String a (k +:+ s).
Proof. reflexivity. Qed.

(** For a key without a space, [first_field] selects exactly the lines
    that start with that field. *)
Lemma first_field_starts k line :
  PyStr.count_char " " k = 0 ->
  bool_decide (first_field line = k) = starts_field k line.
Proof.
  revert line. induction k as [|c k IH]; intros line Hk.
  - unfold starts_field. destruct line as [|a s]; [done|].
    rewrite first_field_cons.
    change ("" +:+ " ") with (String " " "").
    rewrite prefix_cons. cbn [String.eqb String.prefix].
    destruct (Ascii.eqb_spec a " ") as [->|Hne].
    + rewrite !bool_decide_eq_true_2 by done. by destruct s.
    + rewrite !bool_decide_eq_false_2; [done|congruence|done].
  - cbn [PyStr.count_char] in Hk.
    pose proof (count_char_nonneg " " k) as Hpos.
    destruct (Ascii.eqb_spec c " ") as [->|Hc]; [lia|].
    assert (PyStr.count_char " " k = 0) as Hk' by lia.
    unfold starts_field. destruct line as [|a s].
    { by rewrite first_field_nil. }
    rewrite first_field_cons, append_cons, prefix_cons. cbn [String.eqb].
    destruct (Ascii.eqb_spec a " ") as [->|Ha].
    + rewrite bool_decide_eq_false_2 by done.
      destruct (Ascii.eqb_spec " " c) as [<-|_]; [done|].
      by rewrite (bool_decide_eq_false_2 (c = " "%char)) by done.
    + destruct (Ascii.eqb_spec a c) as [->|Hac].
      * rewrite (bool_decide_eq_true_2 (c = c)) by done.
        rewrite andb_true_l. fold (starts_field k s). rewrite <- (IH s Hk').
        apply bool_decide_ext. split; congruence.
      * rewrite (bool_decide_eq_false_2 (c = a)) by congruence.
        rewrite bool_decide_eq_false_2; [done|congruence].
Qed.

(** *** Facts about [Counter] and [classify] *)

Lemma count_lines_nil p : count_lines p [] = 0.
Proof. reflexivity. Qed.

Lemma count_lines_cons p l ls :
  count_lines p (l :: ls) = (if p l then 1 else 0) + count_lines p ls.
Proof.
  unfold count_lines. rewrite filter_cons.
  destruct (p l); case_decide; try done; cbn [length]; lia.
Qed.

Lemma count_lines_ext p q ls :
  (forall l, p l = q l) -> count_lines p ls = count_lines q ls.
Proof.
  intros E. induction ls as [|l ls IH]; [done|].
  by rewrite !count_lines_cons, E, IH.
Qed.

Lemma count_lines_bounds p ls : 0 <= count_lines p ls <= Z.of_nat (length ls).
Proof.
  induction ls as [|l ls IH]; [by cbn|].
  rewrite count_lines_cons. cbn [length]. destruct (p l); lia.
Qed.

Lemma counter_get_insert c x k :
  counter_get (<[x := default 0 (c !! x) + 1]> c) k =
  counter_get c k + (if bool_decide (x = k) then 1 else 0).
Proof.
  unfold counter_get. case_bool_decide as E.
  - subst. by rewrite lookup_insert_eq.
  - rewrite lookup_insert_ne by done. lia.
Qed.

Lemma counter_get_foldl (c : gmap string Z) (xs : list string) k :
  counter_get
    (foldl (fun m x => <[x := default 0 (m !! x) + 1]> m) c xs) k =
  counter_get c k + count_lines (fun x => bool_decide (x = k)) xs.
Proof.
  revert c. induction xs as [|x xs IH]; intros c; cbn [foldl].
  - rewrite count_lines_nil. lia.
  - rewrite IH, counter_get_insert, count_lines_cons. lia.
Qed.

Lemma count_lines_map (f : string -> string) p ls :
  count_lines p (map f ls) = count_lines (fun l => p (f l)) ls.
Proof.
  induction ls as [|l ls IH]; [done|].
  cbn [map]. by rewrite !count_lines_cons, IH.
Qed.

Lemma counter_get_Counter fields k :
  counter_get (Counter fields) k = count_lines (fun x => bool_decide (x = k)) fields.
Proof.
  unfold Counter. rewrite counter_get_foldl. unfold counter_get.
  rewrite lookup_empty. cbn. lia.
Qed.

Lemma classify_lookup lines k :
  k ∈ change_kinds ->
  classify lines !! k =
  Some (count_lines (fun l => bool_decide (first_field l = k)) lines).
Proof.
  intros Hk. unfold classify, change_kinds in *. cbn [map list_to_map foldr uncurry].
  rewrite !counter_get_Counter, !count_lines_map.
  set_unfold in Hk.
  destruct Hk as [->|[->|[->|[->|[]]]]]; by simplify_map_eq.
Qed.

Lemma classify_lookup_inv lines k n :
  classify lines !! k = Some n -> k ∈ change_kinds.
Proof.
  unfold classify, change_kinds. cbn [map list_to_map foldr uncurry].
  intros H. set_unfold.
  destruct (decide (k = "add")) as [->|?]; [by left|].
  destruct (decide (k = "remove")) as [->|?]; [by right; left|].
  destruct (decide (k = "move")) as [->|?]; [by right; right; left|].
  destruct (decide (k = "update")) as [->|?]; [by right; right; right; left|].
  by simplify_map_eq.
Qed.

Lemma change_kinds_no_space k :
  k ∈ change_kinds -> PyStr.count_char " " k = 0.
Proof.
  unfold change_kinds. set_unfold.
  intros [->|[->|[->|[->|[]]]]]; reflexivity.
Qed.

(** The four kinds select disjoint sets of lines. *)
Lemma classify_total_le lines :
  count_lines (fun l => bool_decide (first_field l = "add")) lines
  + count_lines (fun l => bool_decide (first_field l = "remove")) lines
  + count_lines (fun l => bool_decide (first_field l = "move")) lines
  + count_lines (fun l => bool_decide (first_field l = "update")) lines
  <= Z.of_nat (length lines).
Proof.
  induction lines as [|l ls IH]; [by cbn|].
  rewrite !count_lines_cons. cbn [length].
  repeat case_bool_decide; first [lia | congruence].
Qed.

(** *** The monad *)

Lemma bind_unfold {A B} (m : M A) (f : A -> M B) st :
  (m ≫= f) st =
  match m st with
  | (Ok a, st') => f a st'
  | (Raise e, st') => (Raise e, st')
  end.
Proof. reflexivity. Qed.

Lemma bind_ok {A B} (m : M A) (f : A -> M B) st a st' :
  m st = (Ok a, st') -> (m ≫= f) st = f a st'.
Proof. intros H. by rewrite bind_unfold, H. Qed.

Lemma command_unfold cfg env command sargs bargs allow st :
  let p := child_of cfg env command sargs bargs st in
  snapraid_btrfs_command cfg env command sargs bargs allow st =
  (if status_allowed (proc_ret p) allow then Ok (proc_stdout p)
   else Raise (CalledProcessError (proc_ret p) ("snapraid-btrfs " +:+ command)),
   after_command st (invocation_of cfg env command sargs bargs st)
     (tee_records p)).
Proof.
  cbv zeta. unfold snapraid_btrfs_command, child_of, invocation_of.
  rewrite bind_unfold. cbn [get_state].
  rewrite bind_unfold. cbn [record_spawn st_spawned st_log st_mails st_posts].
  rewrite bind_unfold. cbn [emit_all st_spawned st_log st_mails st_posts].
  unfold after_command. cbn [inv_ret].
  by destruct (status_allowed _ allow).
Qed.

Lemma status_allowed_spec ret allow :
  status_allowed ret allow = true <-> ret = 0 \/ In ret allow.
Proof.
  unfold status_allowed. rewrite orb_true_iff, Z.eqb_eq, existsb_exists.
  split.
  - intros [H|(x & Hx & E)]; [by left|]. apply Z.eqb_eq in E. subst. by right.
  - intros [H|H]; [by left|]. right. exists ret. by rewrite Z.eqb_refl.
Qed.

(** ** C1: classification of the exit status *)

(** C1.  Whatever the command, its arguments and the list of extra
    allowed status codes: when the child's exit status is 0 or occurs in
    that list, the command runner returns the captured stdout lines
    unchanged; on every other status it raises [CalledProcessError]
    carrying that very status and the name ["snapraid-btrfs <command>"]. *)
Theorem command_status_classification cfg env command sargs bargs allow st :
  let p := child_of cfg env command sargs bargs st in
  (proc_ret p = 0 \/ In (proc_ret p) allow ->
   fst (snapraid_btrfs_command cfg env command sargs bargs allow st)
   = Ok (proc_stdout p))
  /\ (~ (proc_ret p = 0 \/ In (proc_ret p) allow) ->
      fst (snapraid_btrfs_command cfg env command sargs bargs allow st)
      = Raise (CalledProcessError (proc_ret p) ("snapraid-btrfs " +:+ command))).
Proof.
  cbv zeta. rewrite command_unfold. cbn [fst].
  rewrite <- status_allowed_spec.
  destruct (status_allowed _ allow); split; intros H; first [done | tauto].
Qed.

(** ** The finalizer *)

Lemma no_warning_app rs1 rs2 :
  no_warning rs1 -> no_warning rs2 -> no_warning (rs1 ++ rs2).
Proof. unfold no_warning. intros. by apply Forall_app. Qed.

Lemma no_warning_nil : no_warning [].
Proof. constructor. Qed.

Lemma no_warning_one l msg exc :
  l <> WARNING ->
  no_warning [{| rec_level := l; rec_msg := msg; rec_exc := exc |}].
Proof. intros. by repeat constructor. Qed.

Create HintDb quiet.

#[local] Hint Resolve no_warning_app no_warning_nil no_warning_one : quiet.


Ltac unfold_m :=
  cbv [mbind M_bind mret M_ret raise try_except try_except_cpe emit emit_all
       logging_log logging_exception record_spawn record_mail record_post
       get_state email_log_getvalue is_Exception].

Lemma with_log_nil st : with_log st [] = st.
Proof. destruct st. unfold with_log. cbn. by rewrite app_nil_r. Qed.

Lemma with_mails_nil st : with_mails st [] = st.
Proof. destruct st. unfold with_mails. cbn. by rewrite app_nil_r. Qed.

Lemma with_posts_nil st : with_posts st [] = st.
Proof. destruct st. unfold with_posts. cbn. by rewrite app_nil_r. Qed.

Lemma notify_email_spec cfg env b st :
  exists rs ms,
    notify_email cfg env b st = (Ok tt, with_mails (with_log st rs) ms)
    /\ (ms = [] \/ ms = [email_message cfg b (email_log_text cfg env (st_log st))])
    /\ (forall m err, ms = [m] -> env_smtp env m = Some err ->
          In (caught_record "Failed to send email" (TransportError err)) rs)
    /\ no_warning rs.
Proof.
  unfold notify_email.
  destruct (PyStr.contains _ _).
  2:{ exists [], []. rewrite with_log_nil, with_mails_nil. unfold_m.
      split; [done|]. split; [by left|]. split; [done|constructor]. }
  unfold send_email.
  destruct (PyStr.len (smtp_host cfg) =? 0).
  { eexists [_], []. rewrite with_mails_nil. unfold_m. split; [reflexivity|].
    split; [by left|]. split; [done|by apply no_warning_one]. }
  unfold_m. destruct (String.eqb (email_sendon cfg) "").
  { eexists [_], []. rewrite with_mails_nil. split; [reflexivity|].
    split; [by left|]. split; [done|by apply no_warning_one]. }
  destruct (env_smtp_open env _) as [oerr|].
  { eexists [_], []. rewrite with_mails_nil. split; [reflexivity|].
    split; [by left|]. split; [done|by apply no_warning_one]. }
  destruct (env_smtp env _) as [err|] eqn:E.
  - eexists [_], [_]. split; [reflexivity|]. split; [by right|].
    split; [|by apply no_warning_one].
    intros m err' [= <-] E'. rewrite E in E'. injection E' as <-. by left.
  - eexists [], [_]. split; [by rewrite with_log_nil|]. split; [by right|].
    split; [|constructor].
    intros m err' [= <-] E'. by rewrite E in E'.
Qed.

Lemma notify_discord_spec cfg env b st :
  exists rs ps,
    notify_discord cfg env b st = (Ok tt, with_posts (with_log st rs) ps)
    /\ (ps = [] \/ ps = [discord_payload b (email_log_text cfg env (st_log st))])
    /\ (forall p, ps = [p] ->
          post_logged (env_post env (discord_webhook_url cfg) p) rs)
    /\ no_warning rs.
Proof.
  unfold notify_discord.
  destruct (negb _).
  2:{ exists [], []. rewrite with_log_nil, with_posts_nil. unfold_m.
      split; [done|]. split; [by left|]. split; [done|constructor]. }
  destruct (PyStr.contains _ _).
  2:{ exists [], []. rewrite with_log_nil, with_posts_nil. unfold_m.
      split; [done|]. split; [by left|]. split; [done|constructor]. }
  unfold send_discord_notification. unfold_m.
  destruct (String.eqb (email_sendon cfg) "").
  { eexists [_], []. rewrite with_posts_nil. split; [reflexivity|].
    split; [by left|]. split; [done|by apply no_warning_one]. }
  destruct (env_post env _ _) eqn:E;
    (eexists [_], [_]; split; [reflexivity|]; split; [by right|];
     split; [|by apply no_warning_one];
     intros p [= <-]; rewrite E; by left).
Qed.


(** [finish] as a whole: what it appends, and how it leaves. *)
Lemma finish_spec cfg env b st :
  exists rs1 ms rs2 ps,
    finish cfg env b st
    = (Raise (SystemExit (exit_status b)),
       with_log (with_posts (with_log (with_mails (with_log st rs1) ms) rs2) ps)
         [status_record b])
    /\ (ms = [] \/ ms = [email_message cfg b (email_log_text cfg env (st_log st))])
    /\ (forall m err, ms = [m] -> env_smtp env m = Some err ->
          In (caught_record "Failed to send email" (TransportError err)) rs1)
    /\ (ps = [] \/
        ps = [discord_payload b (email_log_text cfg env (st_log st ++ rs1))])
    /\ (forall p, ps = [p] ->
          post_logged (env_post env (discord_webhook_url cfg) p) rs2)
    /\ no_warning (rs1 ++ rs2).
Proof.
  destruct (notify_email_spec cfg env b st) as (rs1 & ms & E1 & Hms & Hm & Q1).
  destruct (notify_discord_spec cfg env b (with_mails (with_log st rs1) ms))
    as (rs2 & ps & E2 & Hps & Hp & Q2).
  exists rs1, ms, rs2, ps. split; [|by auto 7 with quiet].
  unfold finish. rewrite (bind_ok _ _ _ _ _ E1), (bind_ok _ _ _ _ _ E2).
  unfold_m. unfold status_record. by destruct b.
Qed.

(** ** C8: the finalizer *)


(** ** Slices *)

Lemma substring_nil n m : String.substring n m "" = "".
Proof. by destruct n, m. Qed.


Lemma substring_all s : String.substring 0 (String.length s) s = s.
Proof. induction s as [|a s IH]; cbn; [done|]. by rewrite IH. Qed.


Lemma substring_length s : forall n m,
  String.length (String.substring n m s) = Nat.min m (String.length s - n).
Proof.
  induction s as [|a s IH]; intros n m.
  { rewrite substring_nil. cbn. lia. }
  destruct n as [|n].
  - destruct m as [|m]; cbn [String.substring String.length]; [done|].
    rewrite IH. cbn. lia.
  - cbn [String.substring String.length]. rewrite IH. cbn. lia.
Qed.


Lemma shorten_log_keeps maxsize_kb log :
  maxsize_kb = 0 \/ PyStr.len log <= 1024 * maxsize_kb ->
  shorten_log maxsize_kb log = log.
Proof.
  intros H. unfold shorten_log.
  destruct (Z.eqb_spec (maxsize_kb * 1024) 0) as [?|?]; [done|].
  destruct (Z.ltb_spec (maxsize_kb * 1024) (PyStr.len log)) as [?|?]; [lia|done].
Qed.


(** ** C6: what the notifiers receive *)



(** ** C7: the argument vector *)

Lemma extend_flags_flat_map (d : pydict) :
  extend_flags d = flat_map (fun kv => ["--" +:+ kv.1; py_str kv.2]) d.
Proof.
  induction d as [|[k v] d IH]; cbn [extend_flags flat_map fst snd app]; [done|].
  by rewrite IH.
Qed.

Lemma extend_flags_dict_set_fresh k v (d : pydict) :
  ~ In k (map fst d) ->
  extend_flags (dict_set k v d) = extend_flags d ++ ["--" +:+ k; py_str v].
Proof.
  induction d as [|[k' v'] d IH]; intros Hk; cbn [dict_set extend_flags app].
  { done. }
  cbn [map fst In] in Hk.
  destruct (String.eqb_spec k' k) as [->|_]; [tauto|].
  cbn [extend_flags app]. rewrite IH by tauto. done.
Qed.

(** C7, amended.  The vector a command is spawned with is a function of
    the configuration, the command and the two dictionaries: the
    executable and a global [--quiet]; then the three connection flags
    (config path, snapper path, snapraid path); then the flags of the
    caller's shared dictionary in its insertion order (a fresh key set
    later goes last); then the command name; then [--quiet] unless the
    command is [cleanup]; then the per-command flags of the caller, again
    in insertion order, so that [cleanup] called without per-command
    flags ends at its name. *)
Theorem argument_vector_order cfg env command sargs bargs allow st :
  let flags := flat_map (fun kv : string * pyval => ["--" +:+ kv.1; py_str kv.2]) in
  let argv :=
    [btrfs_executable cfg; "--quiet"]
    ++ ["--conf"; snapraid_config cfg;
        "--snapper-path"; snapper_executable cfg;
        "--snapraid-path"; snapraid_executable cfg]
    ++ flags bargs
    ++ [command]
    ++ (if decide (command = "cleanup") then [] else ["--quiet"])
    ++ flags sargs in
  command_argv cfg command sargs bargs = argv
  /\ (exists i,
        st_spawned (snd (snapraid_btrfs_command cfg env command sargs bargs allow st))
        = st_spawned st ++ [i]
        /\ inv_command i = command /\ inv_argv i = argv)
  /\ (forall k v, ~ In k (map fst bargs) ->
        flags (dict_set k v bargs) = flags bargs ++ ["--" +:+ k; py_str v])
  /\ (command = "cleanup" -> sargs = [] ->
      exists front, argv = front ++ [command]).
Proof.
  cbv zeta.
  assert (command_argv cfg command sargs bargs
          = [btrfs_executable cfg; "--quiet"]
            ++ ["--conf"; snapraid_config cfg;
                "--snapper-path"; snapper_executable cfg;
                "--snapraid-path"; snapraid_executable cfg]
            ++ flat_map (fun kv => ["--" +:+ kv.1; py_str kv.2]) bargs
            ++ [command]
            ++ (if decide (command = "cleanup") then [] else ["--quiet"])
            ++ flat_map (fun kv => ["--" +:+ kv.1; py_str kv.2]) sargs) as E.
  { unfold command_argv, snapraid_btrfs_arguments, snapraid_arguments,
      connection_flags.
    rewrite !extend_flags_flat_map.
    destruct (String.eqb_spec command "cleanup") as [->|Hne].
    - by rewrite decide_True.
    - by rewrite decide_False. }
  split; [exact E|]. split; [|split].
  - rewrite command_unfold. cbn [snd after_command st_spawned].
    eexists. split; [reflexivity|]. split; [reflexivity|]. exact E.
  - intros k v Hk. rewrite <- !extend_flags_flat_map.
    by apply extend_flags_dict_set_fresh.
  - intros -> ->. rewrite decide_True by done. cbn [flat_map].
    rewrite !app_nil_r. rewrite !app_assoc. by eexists.
Qed.

(** ** Stages of [run] *)

Lemma tee_interleave_Forall (P : LogRecord -> Prop) sched : forall outs errs,
  Forall P outs -> Forall P errs -> Forall P (tee_interleave sched outs errs).
Proof.
  induction sched as [|b sched IH]; intros outs errs Ho He;
    cbn [tee_interleave].
  { by apply Forall_app. }
  destruct outs as [|o outs]; [done|]. destruct errs as [|e errs]; [done|].
  destruct b.
  - inversion Ho; subst. constructor; [done|]. by apply IH.
  - inversion He; subst. constructor; [done|]. by apply IH.
Qed.

Lemma tee_records_no_warning p : no_warning (tee_records p).
Proof.
  unfold tee_records, no_warning.
  apply tee_interleave_Forall; apply Forall_map, Forall_true; done.
Qed.

#[local] Hint Resolve tee_records_no_warning : quiet.

Lemma continues_refl st : continues st st [] [].
Proof. unfold continues. by rewrite !app_nil_r. Qed.

Lemma continues_trans st1 st2 st3 invs1 invs2 rs1 rs2 :
  continues st1 st2 invs1 rs1 -> continues st2 st3 invs2 rs2 ->
  continues st1 st3 (invs1 ++ invs2) (rs1 ++ rs2).
Proof.
  unfold continues. intros [E1 E2] [E3 E4].
  rewrite E3, E4, E1, E2. by rewrite !app_assoc.
Qed.

Lemma continues_with_log st rs : continues st (with_log st rs) [] rs.
Proof. unfold continues. cbn. by rewrite app_nil_r. Qed.

Lemma logging_log_unfold l msg st :
  logging_log l msg st
  = (Ok tt, with_log st [{| rec_level := l; rec_msg := msg; rec_exc := None |}]).
Proof. reflexivity. Qed.

(** [finish] spawns nothing and logs no warning. *)
Lemma finish_continues cfg env b st :
  exists st' rs,
    finish cfg env b st = (Raise (SystemExit (exit_status b)), st')
    /\ continues st st' [] rs /\ no_warning rs.
Proof.
  destruct (finish_spec cfg env b st)
    as (rs1 & ms & rs2 & ps & E & _ & _ & _ & _ & Q).
  eexists _, ((rs1 ++ rs2) ++ [status_record b]). split; [exact E|]. split.
  - unfold continues. cbn. by rewrite app_nil_r, <- !app_assoc.
  - apply no_warning_app; [done|]. destruct b; by apply no_warning_one.
Qed.

(** *** Guarded commands *)

Lemma invocation_of_at cfg env c sa ba st :
  invocation_of cfg env c sa ba st
  = invocation_at cfg env (length (st_spawned st)) (c, sa, ba).
Proof. reflexivity. Qed.

(** A command wrapped in the handler that logs the error and finishes. *)
Lemma guarded_spec cfg env c sa ba st :
  let i := invocation_at cfg env (length (st_spawned st)) (c, sa, ba) in
  exists st' rs,
    try_except_cpe
      (snapraid_btrfs_command cfg env c sa ba [];; mret tt)
      (abort_on_error cfg env) st
    = (if inv_ret i =? 0 then Ok tt else Raise (SystemExit 1), st')
    /\ continues st st' [i] rs /\ no_warning rs.
Proof.
  cbv zeta. unfold try_except_cpe. rewrite bind_unfold, command_unfold.
  rewrite invocation_of_at. unfold child_of, status_allowed, invocation_at.
  cbn [existsb orb inv_ret fst snd].
  rewrite orb_false_r.
  destruct (_ =? 0) eqn:E.
  - eexists _, _. split; [reflexivity|]. split; [|apply tee_records_no_warning].
    unfold continues. by cbn.
  - unfold abort_on_error. rewrite bind_unfold, logging_log_unfold.
    match goal with |- context [finish cfg env false ?s] =>
      destruct (finish_continues cfg env false s) as (st' & rs & Ef & [C1 C2] & Q)
    end.
    rewrite Ef. eexists _, _. split; [reflexivity|].
    cbn [with_log after_command st_log st_spawned] in C1, C2.
    split.
    + unfold continues. rewrite C1, C2, app_nil_r, <- !app_assoc. done.
    + apply no_warning_app; [apply tee_records_no_warning|].
      apply no_warning_app; [by apply no_warning_one|done].
Qed.

Lemma spawn_one cfg env n s :
  spawn_in_order cfg env n [s]
  = ([invocation_at cfg env n s], inv_ret (invocation_at cfg env n s) =? 0).
Proof. cbn [spawn_in_order]. by destruct (_ =? 0). Qed.

(** A step that announces itself, runs its guarded command and closes
    with the line of stars. *)
Lemma announced_spec cfg env msg c sa ba st :
  let plan := spawn_in_order cfg env (length (st_spawned st)) [(c, sa, ba)] in
  exists st' rs,
    (logging_log INFO msg;;
     try_except_cpe
       (snapraid_btrfs_command cfg env c sa ba [];; mret tt)
       (abort_on_error cfg env);;
     logging_log INFO stars) st
    = (if plan.2 then Ok tt else Raise (SystemExit 1), st')
    /\ continues st st' plan.1 rs /\ no_warning rs.
Proof.
  cbv zeta. rewrite spawn_one. cbn [fst snd].
  rewrite bind_unfold, logging_log_unfold.
  destruct (guarded_spec cfg env c sa ba
              (with_log st [{| rec_level := INFO; rec_msg := msg; rec_exc := None |}]))
    as (st1 & rs1 & E & C & Q).
  cbn [with_log st_spawned] in E, C.
  rewrite bind_unfold, E.
  destruct (_ =? 0).
  - rewrite logging_log_unfold. eexists _, _. split; [reflexivity|]. split.
    + change [invocation_at cfg env (length (st_spawned st)) (c, sa, ba)]
        with ([] ++ [invocation_at cfg env (length (st_spawned st)) (c, sa, ba)] ++ []).
      eapply continues_trans; [apply continues_with_log|].
      eapply continues_trans; [exact C|apply continues_with_log].
    + auto with quiet.
  - eexists _, _. split; [reflexivity|]. split.
    + change [invocation_at cfg env (length (st_spawned st)) (c, sa, ba)]
        with ([] ++ [invocation_at cfg env (length (st_spawned st)) (c, sa, ba)]).
      eapply continues_trans; [apply continues_with_log|exact C].
    + auto with quiet.
Qed.

Lemma cleanup_stage_spec cfg env args st :
  let plan := spawn_in_order cfg env (length (st_spawned st))
                (if btrfs_cleanup cfg then [("cleanup", [], args)] else []) in
  exists st' rs,
    cleanup_stage cfg env args st
    = (if plan.2 then Ok tt else Raise (SystemExit 1), st')
    /\ continues st st' plan.1 rs /\ no_warning rs.
Proof.
  unfold cleanup_stage. destruct (btrfs_cleanup cfg).
  - apply announced_spec.
  - cbv zeta. cbn [spawn_in_order fst snd]. exists st, [].
    split; [done|]. split; [apply continues_refl|constructor].
Qed.

Lemma pool_stage_spec cfg env args st :
  let plan := spawn_in_order cfg env (length (st_spawned st))
                (if btrfs_pool cfg then [("pool", [], pool_args cfg args)] else []) in
  exists st' rs,
    pool_stage cfg env args st
    = (if plan.2 then Ok (pool_args cfg args) else Raise (SystemExit 1), st')
    /\ continues st st' plan.1 rs /\ no_warning rs.
Proof.
  unfold pool_stage, pool_args. destruct (btrfs_pool cfg); cbn [andb].
  2:{ cbv zeta. cbn [spawn_in_order fst snd]. exists st, [].
      split; [done|]. split; [apply continues_refl|constructor]. }
  cbv zeta.
  set (args' := if 0 <? PyStr.len (btrfs_pool_dir cfg) then _ else args).
  destruct (announced_spec cfg env "Running pool..." "pool" [] args' st)
    as (st' & rs & E & C & Q).
  cbv zeta in E, C. rewrite spawn_one in *. cbn [fst snd] in *.
  rewrite bind_unfold, logging_log_unfold in E.
  rewrite bind_unfold, logging_log_unfold.
  rewrite bind_unfold in E. rewrite bind_unfold.
  exists st', rs. split; [|done].
  destruct (try_except_cpe _ _ _) as [[[]|e] st2].
  - rewrite bind_unfold. rewrite logging_log_unfold in *.
    destruct (_ =? 0); [|done]. injection E as <-. by unfold_m.
  - destruct (_ =? 0); [done|]. by injection E as -> ->.
Qed.

Lemma scrub_args_unfold cfg env st :
  scrub_args cfg env st
  = (Ok (scrub_sargs cfg env),
     with_log st
       match py_int env (scrub_plan cfg) with
       | Some _ => []
       | None => if 0 <? scrub_older_than cfg then [older_than_warning cfg] else []
       end).
Proof.
  unfold scrub_args, scrub_sargs.
  destruct (py_int env (scrub_plan cfg)).
  - by rewrite with_log_nil.
  - destruct (0 <? scrub_older_than cfg); unfold_m; [done|].
    by rewrite with_log_nil.
Qed.

(** The scrub step when enabled: one child, and no warning other than
    the one about the older-than option. *)
Lemma scrub_stage_enabled cfg env args st :
  scrub_enabled cfg = true ->
  let i := invocation_at cfg env (length (st_spawned st))
             ("scrub", scrub_sargs cfg env, args) in
  exists st' rs1 rs2,
    scrub_stage cfg env args st
    = (if inv_ret i =? 0 then Ok tt else Raise (SystemExit 1), st')
    /\ continues st st' [i]
         (rs1
          ++ match py_int env (scrub_plan cfg) with
             | Some _ => []
             | None => if 0 <? scrub_older_than cfg
                       then [older_than_warning cfg] else []
             end
          ++ rs2)
    /\ no_warning rs1 /\ no_warning rs2.
Proof.
  intros En. cbv zeta. unfold scrub_stage. rewrite En.
  rewrite bind_unfold, logging_log_unfold.
  rewrite bind_unfold, scrub_args_unfold.
  set (ws := match py_int env (scrub_plan cfg) with Some _ => [] | None => _ end).
  set (st1 := with_log (with_log st _) ws).
  destruct (guarded_spec cfg env "scrub" (scrub_sargs cfg env) args st1)
    as (st2 & rs & E & [C1 C2] & Q).
  cbn [with_log st_spawned st_log st1] in E, C1, C2.
  rewrite bind_unfold, E.
  destruct (_ =? 0).
  - rewrite logging_log_unfold.
    eexists _, [_], (rs ++ [_]). split; [reflexivity|]. split.
    { unfold continues. cbn [with_log st_spawned st_log].
      rewrite C1, C2, <- !app_assoc. split; reflexivity. }
    split; [by apply no_warning_one|auto with quiet].
  - eexists _, [_], rs. split; [reflexivity|]. split.
    { unfold continues. rewrite C1, C2, <- !app_assoc. split; reflexivity. }
    split; [by apply no_warning_one|done].
Qed.

Lemma scrub_stage_spec cfg env args st :
  let plan := spawn_in_order cfg env (length (st_spawned st))
                (if scrub_enabled cfg
                 then [("scrub", scrub_sargs cfg env, args)] else []) in
  exists st' rs,
    scrub_stage cfg env args st
    = (if plan.2 then Ok tt else Raise (SystemExit 1), st')
    /\ continues st st' plan.1 rs.
Proof.
  cbv zeta. destruct (scrub_enabled cfg) eqn:En.
  - destruct (scrub_stage_enabled cfg env args st En) as (st' & rs1 & rs2 & E & C & _).
    rewrite spawn_one. cbn [fst snd]. eauto.
  - unfold scrub_stage. rewrite En. cbn [spawn_in_order fst snd].
    exists st, []. split; [done|apply continues_refl].
Qed.

Lemma getitem_classify lines k st :
  k ∈ change_kinds ->
  getitem (classify lines) k st = (Ok (count_kind k lines), st).
Proof.
  intros Hk. unfold getitem. by rewrite (classify_lookup lines k Hk).
Qed.

Lemma kind_add : "add" ∈ change_kinds.
Proof. unfold change_kinds. set_solver. Qed.
Lemma kind_remove : "remove" ∈ change_kinds.
Proof. unfold change_kinds. set_solver. Qed.
Lemma kind_move : "move" ∈ change_kinds.
Proof. unfold change_kinds. set_solver. Qed.
Lemma kind_update : "update" ∈ change_kinds.
Proof. unfold change_kinds. set_solver. Qed.

Lemma sync_stage_spec cfg env diff_out args st :
  let plan := spawn_in_order cfg env (length (st_spawned st))
                (if total_changes diff_out =? 0 then [] else [("sync", [], args)]) in
  exists st' rs,
    sync_stage cfg env (classify diff_out) args st
    = (if plan.2 then Ok tt else Raise (SystemExit 1), st')
    /\ continues st st' plan.1 rs /\ no_warning rs.
Proof.
  unfold sync_stage.
  rewrite bind_unfold, (getitem_classify _ _ _ kind_remove).
  rewrite bind_unfold, (getitem_classify _ _ _ kind_add).
  rewrite bind_unfold, (getitem_classify _ _ _ kind_move).
  rewrite bind_unfold, (getitem_classify _ _ _ kind_update).
  fold (total_changes diff_out).
  destruct (total_changes diff_out =? 0).
  - cbv zeta. cbn [spawn_in_order fst snd]. rewrite logging_log_unfold.
    eexists _, _. split; [reflexivity|].
    split; [apply continues_with_log|by apply no_warning_one].
  - apply announced_spec.
Qed.

Lemma spawn_in_order_app cfg env p1 : forall n p2,
  spawn_in_order cfg env n (p1 ++ p2)
  = if (spawn_in_order cfg env n p1).2
    then ((spawn_in_order cfg env n p1).1
          ++ (spawn_in_order cfg env
                (n + length (spawn_in_order cfg env n p1).1) p2).1,
          (spawn_in_order cfg env
             (n + length (spawn_in_order cfg env n p1).1) p2).2)
    else ((spawn_in_order cfg env n p1).1, false).
Proof.
  induction p1 as [|s p1 IH]; intros n p2.
  - cbn [app spawn_in_order fst snd length]. rewrite Nat.add_0_r.
    by destruct (spawn_in_order cfg env n p2).
  - cbn [app spawn_in_order]. destruct (_ =? 0); [|done].
    rewrite IH. destruct (spawn_in_order cfg env (S n) p1) as [i1 ok1].
    cbn [fst snd]. destruct ok1; [|done].
    cbn [length app]. by rewrite Nat.add_succ_r.
Qed.

Lemma continues_length st st' invs rs :
  continues st st' invs rs ->
  length (st_spawned st') = (length (st_spawned st) + length invs)%nat.
Proof. intros [-> _]. by rewrite length_app. Qed.

(** Everything after Sync: the enabled steps run in order up to the
    first failure, and the run leaves with the matching status. *)
Lemma run_after_sync_spec cfg env args st :
  let plan := spawn_in_order cfg env (length (st_spawned st))
                (later_steps cfg env args) in
  exists st' rs,
    run_after_sync cfg env args st
    = (Raise (SystemExit (if plan.2 then 0 else 1)), st')
    /\ continues st st' plan.1 rs.
Proof.
  cbv zeta. unfold run_after_sync, later_steps.
  destruct (pool_stage_spec cfg env args st) as (st1 & rs1 & E1 & C1 & _).
  cbv zeta in E1, C1. rewrite spawn_in_order_app.
  set (P1 := spawn_in_order cfg env (length (st_spawned st)) _) in *.
  rewrite bind_unfold, E1.
  destruct P1.2; [|by eauto].
  destruct (cleanup_stage_spec cfg env (pool_args cfg args) st1)
    as (st2 & rs2 & E2 & C2 & _).
  cbv zeta in E2, C2. rewrite spawn_in_order_app.
  rewrite <- (continues_length _ _ _ _ C1).
  set (P2 := spawn_in_order cfg env (length (st_spawned st1)) _) in *.
  rewrite bind_unfold, E2. cbn [fst snd].
  destruct P2.2.
  2:{ eexists _, _. split; [reflexivity|]. eapply continues_trans; eauto. }
  destruct (scrub_stage_spec cfg env (pool_args cfg args) st2)
    as (st3 & rs3 & E3 & C3).
  cbv zeta in E3, C3.
  rewrite <- (continues_length _ _ _ _ C2).
  set (P3 := spawn_in_order cfg env (length (st_spawned st2)) _) in *.
  rewrite bind_unfold, E3.
  destruct P3.2.
  2:{ eexists _, _. split; [reflexivity|].
      eapply continues_trans; [eauto|]. eapply continues_trans; eauto. }
  rewrite bind_unfold, logging_log_unfold.
  match goal with |- context [finish cfg env true ?s] =>
    destruct (finish_continues cfg env true s) as (st4 & rs4 & E4 & C4 & _)
  end.
  rewrite E4. eexists _, _. split; [reflexivity|].
  eapply continues_trans; [eauto|]. eapply continues_trans; [eauto|].
  rewrite <- (app_nil_r P3.1).
  eapply continues_trans; [eauto|].
  change (@nil Invocation) with (@nil Invocation ++ []).
  eapply continues_trans; [apply continues_with_log|exact C4].
Qed.

(** *** Properties of a plan *)

Lemma spawn_in_order_prefix cfg env plan : forall n,
  exists rest,
    map (fun s : Step => s.1.1) plan
    = map inv_command (spawn_in_order cfg env n plan).1 ++ rest.
Proof.
  induction plan as [|s plan IH]; intros n; cbn [spawn_in_order map].
  { by exists []. }
  destruct (_ =? 0).
  - destruct (IH (S n)) as [rest E].
    destruct (spawn_in_order cfg env (S n) plan) as [invs ok].
    exists rest. cbn [fst map app inv_command invocation_at] in *. by rewrite E.
  - exists (map (fun s : Step => s.1.1) plan). done.
Qed.

Lemma spawn_in_order_ok cfg env plan : forall n,
  (spawn_in_order cfg env n plan).2 = true ->
  map inv_command (spawn_in_order cfg env n plan).1
  = map (fun s : Step => s.1.1) plan
  /\ Forall (fun i => inv_ret i = 0) (spawn_in_order cfg env n plan).1.
Proof.
  induction plan as [|s plan IH]; intros n; cbn [spawn_in_order map].
  { by split. }
  destruct (Z.eqb_spec (inv_ret (invocation_at cfg env n s)) 0) as [E|E]; [|done].
  specialize (IH (S n)).
  destruct (spawn_in_order cfg env (S n) plan) as [invs ok].
  cbn [fst snd map] in *. intros Hok. destruct (IH Hok) as [E1 E2].
  split; [by rewrite E1|by constructor].
Qed.

Lemma spawn_in_order_failed cfg env plan : forall n,
  (spawn_in_order cfg env n plan).2 = false ->
  Exists (fun i => inv_ret i <> 0) (spawn_in_order cfg env n plan).1.
Proof.
  induction plan as [|s plan IH]; intros n; cbn [spawn_in_order].
  { done. }
  destruct (Z.eqb_spec (inv_ret (invocation_at cfg env n s)) 0) as [E|E].
  - specialize (IH (S n)).
    destruct (spawn_in_order cfg env (S n) plan) as [invs ok].
    cbn [fst snd] in *. intros Hok. apply Exists_cons_tl. by apply IH.
  - intros _. by apply Exists_cons_hd.
Qed.

Lemma spawn_in_order_all_zero cfg env plan n :
  Forall (fun i => inv_ret i = 0) (spawn_in_order cfg env n plan).1 ->
  (spawn_in_order cfg env n plan).2 = true.
Proof.
  intros Hall. destruct (spawn_in_order cfg env n plan).2 eqn:E; [done|].
  apply spawn_in_order_failed in E. apply Exists_exists in E as (i & Hi & Hne).
  rewrite Forall_forall in Hall. by specialize (Hall i Hi).
Qed.

Lemma spawn_in_order_members cfg env plan : forall n,
  Forall (fun i => exists k s, In s plan /\ i = invocation_at cfg env k s)
    (spawn_in_order cfg env n plan).1.
Proof.
  induction plan as [|s plan IH]; intros n; cbn [spawn_in_order].
  { constructor. }
  assert (exists k s0, In s0 (s :: plan) /\ invocation_at cfg env n s
                        = invocation_at cfg env k s0) as Hhd.
  { exists n, s. split; [by left|done]. }
  destruct (_ =? 0).
  - specialize (IH (S n)).
    destruct (spawn_in_order cfg env (S n) plan) as [invs ok].
    cbn [fst] in *. constructor; [done|].
    eapply Forall_impl; [exact IH|].
    intros i (k & s0 & Hin & ->). exists k, s0. split; [by right|done].
  - cbn [fst]. by constructor.
Qed.

Lemma later_steps_commands cfg env args :
  map (fun s : Step => s.1.1) (later_steps cfg env args) = enabled_steps cfg.
Proof.
  unfold later_steps, enabled_steps.
  by destruct (btrfs_pool cfg), (btrfs_cleanup cfg), (scrub_enabled cfg).
Qed.

Lemma count_kind_starts k lines :
  k ∈ change_kinds -> count_kind k lines = count_lines (starts_field k) lines.
Proof.
  intros Hk. unfold count_kind. apply count_lines_ext. intros l.
  apply first_field_starts. by apply change_kinds_no_space.
Qed.

(** *** The threshold guard *)

Lemma threshold_check_spec cfg env diff_out st :
  exists st' rs,
    threshold_check cfg env (classify diff_out) st
    = (if guard_trips cfg diff_out then Raise (SystemExit 1) else Ok tt, st')
    /\ continues st st' [] rs
    /\ (guard_trips cfg diff_out = false -> st' = st).
Proof.
  unfold threshold_check, guard_trips.
  destruct (0 <=? snapraid_deletethreshold cfg); cbn [andb].
  2:{ exists st, []. split; [done|]. split; [apply continues_refl|done]. }
  rewrite bind_unfold, (getitem_classify _ _ _ kind_remove).
  destruct (_ <? _).
  2:{ exists st, []. split; [done|]. split; [apply continues_refl|done]. }
  rewrite bind_unfold, logging_log_unfold. rewrite bind_unfold, logging_log_unfold.
  match goal with |- context [finish cfg env false ?s] =>
    destruct (finish_continues cfg env false s) as (st' & rs & E & [C1 C2] & _)
  end.
  rewrite E. eexists _, _. split; [reflexivity|]. split; [|done].
  cbn [with_log st_log st_spawned] in C1, C2. unfold continues.
  rewrite C1, C2, <- !app_assoc. split; reflexivity.
Qed.

Lemma run_unfold cfg env st diff_out args st1 :
  run_to_diff cfg env st = (Ok (diff_out, args), st1) ->
  run cfg env st
  = (threshold_check cfg env (classify diff_out);;
     sync_stage cfg env (classify diff_out) args;;
     run_after_sync cfg env args) st1.
Proof. intros E. unfold run. by rewrite bind_unfold, E. Qed.

Lemma app_eq_self {A} (l x : list A) : l ++ x = l -> x = [].
Proof.
  intros H. apply (f_equal length) in H. rewrite length_app in H.
  destruct x; [done|]. cbn in H. lia.
Qed.

(** Once the guard has let the run pass, it either spawns a further
    child or leaves with status 0. *)
Lemma past_guard_spec cfg env diff_out args st :
  exists r st' invs rs,
    (sync_stage cfg env (classify diff_out) args;;
     run_after_sync cfg env args) st = (r, st')
    /\ continues st st' invs rs
    /\ (r = Raise (SystemExit 1) -> invs <> []).
Proof.
  destruct (sync_stage_spec cfg env diff_out args st) as (st1 & rs1 & E1 & C1 & _).
  cbv zeta in E1, C1. rewrite bind_unfold, E1.
  set (P := spawn_in_order cfg env (length (st_spawned st)) _) in *.
  destruct P.2 eqn:Ok1.
  - destruct (run_after_sync_spec cfg env args st1) as (st2 & rs2 & E2 & C2).
    cbv zeta in E2, C2. rewrite E2.
    set (Q := spawn_in_order cfg env (length (st_spawned st1)) _) in *.
    eexists _, _, _, _. split; [reflexivity|].
    split; [eapply continues_trans; eauto|].
    destruct Q.2 eqn:Ok2; [done|]. intros _ Hnil.
    apply app_eq_nil in Hnil as [_ Hnil].
    apply spawn_in_order_failed in Ok2. fold Q in Ok2.
    rewrite Hnil in Ok2. by inversion Ok2.
  - eexists _, _, _, _. split; [reflexivity|]. split; [exact C1|].
    intros _ Hnil. apply spawn_in_order_failed in Ok1. fold P in Ok1.
    rewrite Hnil in Ok1. by inversion Ok1.
Qed.

(** ** C2: the delete-threshold guard *)

(** C2.  On a run that has got its diff result, the run ends in
    failure (exit status 1) with no child spawned after the diff, exactly
    when the configured delete threshold is at least 0 and the number of
    removed files is strictly above it; so a negative threshold never
    makes the run abort on deletes, whatever the number of removals. *)
Theorem delete_threshold_guard cfg env st diff_out args st1 :
  run_to_diff cfg env st = (Ok (diff_out, args), st1) ->
  let removed := count_lines (starts_field "remove") diff_out in
  let threshold := snapraid_deletethreshold cfg in
  let aborted_before_sync :=
    fst (run cfg env st) = Raise (SystemExit 1)
    /\ st_spawned (snd (run cfg env st)) = st_spawned st1 in
  (aborted_before_sync <-> 0 <= threshold /\ threshold < removed)
  /\ (threshold < 0 -> ~ aborted_before_sync).
Proof.
  intros Hdiff. cbv zeta.
  rewrite (run_unfold _ _ _ _ _ _ Hdiff).
  rewrite <- (count_kind_starts _ _ kind_remove).
  destruct (threshold_check_spec cfg env diff_out st1)
    as (st2 & rs2 & E & [C1 C2] & Hsame).
  rewrite bind_unfold, E. unfold guard_trips in *.
  destruct (Z.leb_spec 0 (snapraid_deletethreshold cfg)) as [H0|H0];
    destruct (Z.ltb_spec (snapraid_deletethreshold cfg) (count_kind "remove" diff_out))
      as [H1|H1]; cbn [andb fst snd] in *.
  - rewrite app_nil_r in C1. split; [|lia]. split; [lia|by split].
  - rewrite (Hsame eq_refl).
    destruct (past_guard_spec cfg env diff_out args st1)
      as (r & st' & invs & rs & E' & [C3 _] & Hne).
    rewrite E'. cbn [fst snd]. split; [|lia]. split; [|lia].
    intros [Hr Hs]. rewrite C3 in Hs. apply app_eq_self in Hs. by apply Hne in Hr.
  - rewrite (Hsame eq_refl).
    destruct (past_guard_spec cfg env diff_out args st1)
      as (r & st' & invs & rs & E' & [C3 _] & Hne).
    rewrite E'. cbn [fst snd].
    assert (~ (r = Raise (SystemExit 1) /\ st_spawned st' = st_spawned st1)) as Hno.
    { intros [Hr Hs]. rewrite C3 in Hs. apply app_eq_self in Hs. by apply Hne in Hr. }
    split; [|done]. split; [done|lia].
  - rewrite (Hsame eq_refl).
    destruct (past_guard_spec cfg env diff_out args st1)
      as (r & st' & invs & rs & E' & [C3 _] & Hne).
    rewrite E'. cbn [fst snd].
    assert (~ (r = Raise (SystemExit 1) /\ st_spawned st' = st_spawned st1)) as Hno.
    { intros [Hr Hs]. rewrite C3 in Hs. apply app_eq_self in Hs. by apply Hne in Hr. }
    split; [|done]. split; [done|lia].
Qed.

(** ** C4: the no-op guard *)

(** C4.  On a run whose diff result has all four counts at zero, the
    threshold guard lets the run pass, no [sync] child is spawned, the
    line that no sync is required is logged, and the run goes on with the
    enabled steps among Pool, Cleanup and Scrub in that order: the
    children spawned after the diff are a leading part of them, all of
    them when every child succeeds, in which case the run ends with
    status 0; the run fails only if one of those children failed. *)
Theorem no_change_skips_sync cfg env st diff_out args st1 :
  run_to_diff cfg env st = (Ok (diff_out, args), st1) ->
  (forall k, k ∈ change_kinds -> classify diff_out !! k = Some 0) ->
  exists r st2 invs,
    run cfg env st = (r, st2)
    /\ st_spawned st2 = st_spawned st1 ++ invs
    /\ ~ In "sync" (map inv_command invs)
    /\ In {| rec_level := INFO; rec_msg := "No changes detected, no sync required";
             rec_exc := None |} (st_log st2)
    /\ (exists rest, enabled_steps cfg = map inv_command invs ++ rest)
    /\ (Forall (fun i => inv_ret i = 0) invs ->
        r = Raise (SystemExit 0) /\ map inv_command invs = enabled_steps cfg)
    /\ (r = Raise (SystemExit 1) -> Exists (fun i => inv_ret i <> 0) invs)
    /\ (r = Raise (SystemExit 0) \/ r = Raise (SystemExit 1)).
Proof.
  intros Hdiff Hzero.
  assert (forall k, k ∈ change_kinds -> count_kind k diff_out = 0) as Hcount.
  { intros k Hk. specialize (Hzero k Hk).
    rewrite (classify_lookup _ _ Hk) in Hzero. by injection Hzero. }
  rewrite (run_unfold _ _ _ _ _ _ Hdiff).
  destruct (threshold_check_spec cfg env diff_out st1)
    as (st2 & rs2 & E & _ & Hsame).
  assert (guard_trips cfg diff_out = false) as Hguard.
  { unfold guard_trips. rewrite (Hcount _ kind_remove).
    destruct (Z.leb_spec 0 (snapraid_deletethreshold cfg));
      destruct (Z.ltb_spec (snapraid_deletethreshold cfg) 0); cbn; lia. }
  rewrite Hguard in E. rewrite (Hsame Hguard) in E. clear Hsame st2.
  rewrite bind_unfold, E.
  unfold sync_stage. rewrite bind_unfold.
  rewrite bind_unfold, (getitem_classify _ _ _ kind_remove).
  rewrite bind_unfold, (getitem_classify _ _ _ kind_add).
  rewrite bind_unfold, (getitem_classify _ _ _ kind_move).
  rewrite bind_unfold, (getitem_classify _ _ _ kind_update).
  rewrite (Hcount _ kind_remove), (Hcount _ kind_add), (Hcount _ kind_move),
    (Hcount _ kind_update).
  change (0 + 0 + 0 + 0 =? 0) with true. cbv iota. rewrite logging_log_unfold.
  match goal with |- context [run_after_sync cfg env args ?s] =>
    destruct (run_after_sync_spec cfg env args s) as (st3 & rs3 & E3 & [C1 C2])
  end.
  cbv zeta in E3, C1. cbn [with_log st_spawned st_log] in E3, C1, C2.
  set (P := spawn_in_order cfg env (length (st_spawned st1)) _) in *.
  rewrite E3. exists (Raise (SystemExit (if P.2 then 0 else 1))), st3, P.1.
  split; [done|]. split; [done|].
  pose proof (spawn_in_order_prefix cfg env (later_steps cfg env args)
                (length (st_spawned st1))) as [rest Hrest].
  rewrite later_steps_commands in Hrest. fold P in Hrest.
  split.
  { intros Hin.
    assert (In "sync" (enabled_steps cfg)) as Hin'.
    { rewrite Hrest. apply in_or_app. by left. }
    unfold enabled_steps in Hin'.
    destruct (btrfs_pool cfg), (btrfs_cleanup cfg), (scrub_enabled cfg);
      cbn in Hin'; intuition discriminate. }
  split.
  { rewrite C2, <- app_assoc. apply in_or_app. right. by left. }
  split; [by exists rest|].
  split.
  { intros Hall. apply spawn_in_order_all_zero in Hall. fold P in Hall.
    rewrite Hall. split; [done|].
    rewrite <- (later_steps_commands cfg env args).
    by apply spawn_in_order_ok. }
  split.
  - destruct P.2 eqn:HP; [done|]. intros _. by apply spawn_in_order_failed.
  - destruct P.2; auto.
Qed.

(** ** C5: the scrub step *)

Lemma not_in_no_warning cfg rs : no_warning rs -> ~ In (older_than_warning cfg) rs.
Proof.
  unfold no_warning. rewrite Forall_forall. intros H Hin.
  apply list_elem_of_In in Hin. by apply (H _ Hin).
Qed.

(** C5.  With scrub enabled the step spawns one [scrub] child.  When the
    plan text parses as an integer the child gets, after the command
    name and [--quiet], the plan flag and the older-than flag, and the
    older-than warning is not logged.  When it does not parse, the child
    gets the plan flag only, and the warning that older-than is ignored
    is logged exactly when the older-than option is above 0. *)
Theorem scrub_plan_flags cfg env args st :
  scrub_enabled cfg = true ->
  let front :=
    [btrfs_executable cfg; "--quiet"] ++ connection_flags cfg
    ++ extend_flags args in
  exists r st' i rs,
    scrub_stage cfg env args st = (r, st')
    /\ st_spawned st' = st_spawned st ++ [i]
    /\ st_log st' = st_log st ++ rs
    /\ inv_command i = "scrub"
    /\ match py_int env (scrub_plan cfg) with
       | Some _ =>
           inv_argv i
           = front ++ ["scrub"; "--quiet"; "--plan"; scrub_plan cfg;
                       "--older-than"; pretty (scrub_older_than cfg)]
           /\ ~ In (older_than_warning cfg) rs
       | None =>
           inv_argv i = front ++ ["scrub"; "--quiet"; "--plan"; scrub_plan cfg]
           /\ (In (older_than_warning cfg) rs <-> 0 < scrub_older_than cfg)
       end.
Proof.
  intros En. cbv zeta.
  destruct (scrub_stage_enabled cfg env args st En)
    as (st' & rs1 & rs2 & E & [C1 C2] & Q1 & Q2).
  cbv zeta in E, C1. eexists _, st', _, _. split; [exact E|].
  split; [exact C1|]. split; [exact C2|]. split; [done|].
  cbn [invocation_at inv_argv fst snd]. unfold scrub_sargs.
  unfold command_argv, snapraid_btrfs_arguments, snapraid_arguments.
  destruct (py_int env (scrub_plan cfg)) as [n|].
  - split; [by rewrite <- !app_assoc|].
    cbn [app]. intros Hin. apply in_app_or in Hin as [Hin|Hin];
      [by apply (not_in_no_warning cfg rs1)|by apply (not_in_no_warning cfg rs2)].
  - split; [by rewrite <- !app_assoc|].
    destruct (Z.ltb_spec 0 (scrub_older_than cfg)) as [Hlt|Hge].
    + split; [done|]. intros _. apply in_or_app. right. by left.
    + split; [|lia]. cbn [app]. intros Hin. exfalso.
      apply in_app_or in Hin as [Hin|Hin];
        [by apply (not_in_no_warning cfg rs1)|by apply (not_in_no_warning cfg rs2)].
Qed.

(** ** C10: the shared argument dictionary *)

Lemma check_spec cfg env (found : bool) msg st :
  (if negb found then logging_log ERROR msg;; finish cfg env false else mret tt) st
  = (Ok tt, st)
  \/ exists st' rs,
      (if negb found then logging_log ERROR msg;; finish cfg env false
       else mret tt) st = (Raise (SystemExit 1), st')
      /\ continues st st' [] rs.
Proof.
  destruct found; cbn [negb]; [by left|right].
  rewrite bind_unfold, logging_log_unfold.
  match goal with |- context [finish cfg env false ?s] =>
    destruct (finish_continues cfg env false s) as (st' & rs & E & [C1 C2] & _)
  end.
  rewrite E. eexists _, _. split; [reflexivity|].
  cbn [with_log st_log st_spawned] in C1, C2. unfold continues.
  rewrite C1, C2, <- ?app_assoc. split; reflexivity.
Qed.

Lemma preflight_spec cfg env st :
  exists r st' rs, preflight cfg env st = (r, st') /\ continues st st' [] rs.
Proof.
  unfold preflight.
  rewrite bind_unfold.
  destruct (check_spec cfg env (env_which env (snapraid_executable cfg))
              ("The configured snapraid executable " +:+ dq +:+ snapraid_executable cfg
               +:+ dq +:+ " does not exist or is not a file") st)
    as [->|(st' & rs & -> & C)]; [|by eauto].
  rewrite bind_unfold.
  destruct (check_spec cfg env (env_isfile env (snapraid_config cfg))
              ("Snapraid config does not exist at " +:+ snapraid_config cfg) st)
    as [->|(st' & rs & -> & C)]; [|by eauto].
  rewrite bind_unfold.
  destruct (check_spec cfg env (env_which env (btrfs_executable cfg))
              ("Snapraid-btrfs executable does not exist at " +:+ btrfs_executable cfg) st)
    as [->|(st' & rs & -> & C)]; [|by eauto].
  destruct (check_spec cfg env (env_which env (snapper_executable cfg))
              ("Snapper executable does not exist at " +:+ snapper_executable cfg) st)
    as [->|(st' & rs & -> & C)]; [|by eauto].
  exists (Ok tt), st, []. split; [done|apply continues_refl].
Qed.

Lemma command_continues cfg env c sa ba allow st :
  exists r st' rs,
    snapraid_btrfs_command cfg env c sa ba allow st = (r, st')
    /\ continues st st' [invocation_at cfg env (length (st_spawned st)) (c, sa, ba)] rs.
Proof.
  rewrite command_unfold. eexists _, _, _. split; [reflexivity|].
  by unfold continues.
Qed.

Lemma report_diff_spec lines st :
  exists rs, report_diff (classify lines) st = (Ok tt, with_log st rs).
Proof.
  unfold report_diff.
  rewrite bind_unfold, (getitem_classify _ _ _ kind_add).
  rewrite bind_unfold, (getitem_classify _ _ _ kind_remove).
  rewrite bind_unfold, (getitem_classify _ _ _ kind_move).
  rewrite bind_unfold, (getitem_classify _ _ _ kind_update).
  rewrite logging_log_unfold. by eexists.
Qed.

Lemma from_step_here cfg env plan k s :
  In s plan -> from_step cfg env plan (invocation_at cfg env k s).
Proof. intros H. by exists k, s. Qed.

Ltac chain :=
  repeat first
    [ eassumption
    | apply continues_with_log
    | eapply continues_trans; [first [eassumption | apply continues_with_log]|] ].

Ltac all_from_steps :=
  rewrite ?app_nil_r; cbn [app];
  repeat first
    [ assumption
    | match goal with |- Forall _ [] => constructor end
    | match goal with |- Forall _ (_ :: _) =>
        constructor; [apply from_step_here; cbn [In]; tauto|]
      end
    | match goal with |- Forall _ (_ ++ _) => apply Forall_app; split end ].

(** Up to the diff report, [run] spawns at most the touch and the diff
    child, both with the dictionary as first filled. *)
Lemma run_to_diff_spec cfg env st :
  exists r st' invs rs,
    run_to_diff cfg env st = (r, st')
    /\ continues st st' invs rs
    /\ Forall (from_step cfg env
                 [("touch", [], initial_args cfg); ("diff", [], initial_args cfg)])
         invs
    /\ (forall d a, r = Ok (d, a) -> a = initial_args cfg).
Proof.
  unfold run_to_diff.
  rewrite bind_unfold, logging_log_unfold.
  rewrite bind_unfold, logging_log_unfold.
  rewrite bind_unfold, logging_log_unfold. rewrite bind_unfold.
  match goal with |- context [preflight cfg env ?s] =>
    destruct (preflight_spec cfg env s) as (r0 & st1 & rs1 & E1 & C1);
    set (st0 := s) in *
  end.
  assert (exists rs0, continues st st0 [] rs0) as [rs0 C0].
  { eexists. unfold continues, st0. cbn. rewrite app_nil_r, <- !app_assoc.
    split; reflexivity. }
  rewrite E1.
  destruct r0 as [[]|e].
  2:{ eexists _, _, _, _. split; [reflexivity|].
      split; [chain|]. split; [all_from_steps|done]. }
  assert (exists r2 st2 invs2 rs2,
            touch_stage cfg env (initial_args cfg) st1 = (r2, st2)
            /\ continues st1 st2 invs2 rs2
            /\ Forall (from_step cfg env
                  [("touch", [], initial_args cfg); ("diff", [], initial_args cfg)])
                 invs2) as (r2 & st2 & invs2 & rs2 & E2 & C2 & F2).
  { unfold touch_stage. destruct (snapraid_touch cfg).
    2:{ exists (Ok tt), st1, [], []. split; [done|].
        split; [apply continues_refl|constructor]. }
    rewrite bind_unfold, logging_log_unfold. rewrite bind_unfold.
    match goal with |- context [snapraid_btrfs_command cfg env "touch" [] ?a [] ?s] =>
      destruct (command_continues cfg env "touch" [] a [] s) as (r & st' & rs & E & C)
    end.
    rewrite E. cbn [with_log st_spawned] in C.
    destruct r as [out|e].
    - rewrite logging_log_unfold. eexists _, _, _, _. split; [reflexivity|].
      split; [chain|all_from_steps].
    - eexists _, _, _, _. split; [reflexivity|].
      split; [chain|all_from_steps]. }
  rewrite bind_unfold, E2. destruct r2 as [[]|e].
  2:{ eexists _, _, _, _. split; [reflexivity|].
      split; [chain|]. split; [all_from_steps|done]. }
  unfold diff_stage. rewrite bind_unfold.
  rewrite bind_unfold, logging_log_unfold. rewrite bind_unfold.
  match goal with |- context [snapraid_btrfs_command cfg env "diff" [] ?a [2] ?s] =>
    destruct (command_continues cfg env "diff" [] a [2] s) as (r & st' & rs & E & C)
  end.
  rewrite E. cbn [with_log st_spawned] in C.
  destruct r as [out|e].
  - rewrite bind_unfold, logging_log_unfold. unfold mret at 1, M_ret at 1.
    rewrite bind_unfold.
    match goal with |- context [report_diff (classify out) ?s] =>
      destruct (report_diff_spec out s) as [rs' Er]
    end.
    rewrite Er. unfold_m.
    eexists _, _, _, _. split; [reflexivity|].
    split; [chain|]. split; [all_from_steps|by intros d a [= _ <-]].
  - eexists _, _, _, _. split; [reflexivity|].
    split; [chain|]. split; [all_from_steps|done].
Qed.

Lemma from_step_weaken cfg env plan1 plan2 invs :
  Forall (from_step cfg env plan1) invs ->
  (forall s, In s plan1 -> In s plan2) ->
  Forall (from_step cfg env plan2) invs.
Proof.
  intros H Hsub. eapply Forall_impl; [exact H|].
  intros i (k & s & Hin & ->). exists k, s. auto.
Qed.

(** Every child of a run was spawned for one of the steps of [all_steps]. *)
Lemma run_invocations cfg env st :
  exists r st' invs rs,
    run cfg env st = (r, st')
    /\ continues st st' invs rs
    /\ Forall (from_step cfg env (all_steps cfg env)) invs.
Proof.
  destruct (run_to_diff_spec cfg env st) as (r1 & st1 & invs1 & rs1 & E1 & C1 & F1 & Ha).
  assert (Forall (from_step cfg env (all_steps cfg env)) invs1) as F1'.
  { eapply from_step_weaken; [exact F1|]. unfold all_steps. cbn [In app]. tauto. }
  destruct r1 as [[diff_out args]|e].
  2:{ unfold run. rewrite bind_unfold, E1. by eexists _, _, _, _. }
  rewrite (Ha _ _ eq_refl) in E1. clear Ha args.
  rewrite (run_unfold _ _ _ _ _ _ E1).
  destruct (threshold_check_spec cfg env diff_out st1) as (st2 & rs2 & E2 & C2 & _).
  rewrite bind_unfold, E2.
  destruct (guard_trips cfg diff_out).
  { eexists _, _, _, _. split; [reflexivity|]. split; [chain|].
    all_from_steps. }
  destruct (sync_stage_spec cfg env diff_out (initial_args cfg) st2)
    as (st3 & rs3 & E3 & C3 & _).
  cbv zeta in E3, C3. rewrite bind_unfold, E3.
  set (P := spawn_in_order cfg env (length (st_spawned st2)) _) in *.
  assert (Forall (from_step cfg env (all_steps cfg env)) P.1) as F3.
  { eapply from_step_weaken; [apply spawn_in_order_members|].
    intros s. unfold all_steps. destruct (total_changes diff_out =? 0);
      cbn [In app]; tauto. }
  destruct P.2.
  2:{ eexists _, _, _, _. split; [reflexivity|]. split; [chain|].
      all_from_steps. }
  destruct (run_after_sync_spec cfg env (initial_args cfg) st3)
    as (st4 & rs4 & E4 & C4).
  cbv zeta in E4, C4. rewrite E4.
  set (Q := spawn_in_order cfg env (length (st_spawned st3)) _) in *.
  assert (Forall (from_step cfg env (all_steps cfg env)) Q.1) as F4.
  { eapply from_step_weaken; [apply spawn_in_order_members|].
    intros s Hs. unfold all_steps. apply in_or_app. by right. }
  eexists _, _, _, _. split; [reflexivity|]. split; [chain|].
  all_from_steps.
Qed.

Lemma len_pos s : s <> "" -> (0 <? PyStr.len s) = true.
Proof.
  intros H. destruct s; [done|]. unfold PyStr.len. cbn [String.length].
  apply Z.ltb_lt. lia.
Qed.

Lemma initial_args_no_pool_dir cfg : ~ In "pool-dir" (map fst (initial_args cfg)).
Proof.
  unfold initial_args.
  destruct (0 <? PyStr.len (btrfs_snapper_configs cfg)),
    (0 <? PyStr.len (btrfs_snapper_configs_file cfg));
    cbn; intuition discriminate.
Qed.

Lemma guard_passes cfg diff_out :
  ~ (0 <= snapraid_deletethreshold cfg
     /\ snapraid_deletethreshold cfg
        < count_lines (starts_field "remove") diff_out) ->
  guard_trips cfg diff_out = false.
Proof.
  intros H. unfold guard_trips. rewrite (count_kind_starts _ _ kind_remove).
  destruct (Z.leb_spec 0 (snapraid_deletethreshold cfg));
    destruct (Z.ltb_spec (snapraid_deletethreshold cfg)
                (count_lines (starts_field "remove") diff_out)); cbn; tauto.
Qed.

Lemma pool_argv cfg c sa :
  btrfs_pool cfg = true ->
  btrfs_pool_dir cfg <> "" ->
  command_argv cfg c sa (pool_args cfg (initial_args cfg))
  = ([btrfs_executable cfg; "--quiet"] ++ connection_flags cfg
     ++ extend_flags (initial_args cfg))
    ++ ["--pool-dir"; btrfs_pool_dir cfg] ++ [c] ++ snapraid_arguments c sa.
Proof.
  intros Hpool Hdir.
  unfold command_argv, snapraid_btrfs_arguments, pool_args.
  rewrite Hpool, (len_pos _ Hdir). cbn [andb].
  rewrite extend_flags_dict_set_fresh by apply initial_args_no_pool_dir.
  by rewrite <- !app_assoc.
Qed.

(** The children of the steps after Sync, with the pool step enabled:
    the pool child, then, if it succeeds, the cleanup child when that
    step is enabled, then, if all went well, the scrub child when that
    step is enabled. *)
Lemma later_children cfg env m args :
  btrfs_pool cfg = true ->
  exists rest,
    (spawn_in_order cfg env m (later_steps cfg env args)).1
    = invocation_at cfg env m ("pool", [], pool_args cfg args) :: rest
    /\ (inv_ret (invocation_at cfg env m ("pool", [], pool_args cfg args)) <> 0 ->
        rest = [])
    /\ (inv_ret (invocation_at cfg env m ("pool", [], pool_args cfg args)) = 0 ->
        btrfs_cleanup cfg = true ->
        exists rest',
          rest = invocation_at cfg env (S m) ("cleanup", [], pool_args cfg args)
                 :: rest')
    /\ (inv_ret (invocation_at cfg env m ("pool", [], pool_args cfg args)) = 0 ->
        scrub_enabled cfg = true ->
        Forall (fun i => inv_command i = "cleanup" -> inv_ret i = 0) rest ->
        exists k,
          last rest
          = Some (invocation_at cfg env k
                    ("scrub", scrub_sargs cfg env, pool_args cfg args))).
Proof.
  intros Hpool. unfold later_steps. rewrite Hpool. cbn [app spawn_in_order].
  set (p := invocation_at cfg env m ("pool", [], pool_args cfg args)).
  destruct (Z.eqb_spec (inv_ret p) 0) as [Hp|Hp].
  2:{ exists []. split; [done|]. split; [done|]. split; intros; done. }
  destruct (btrfs_cleanup cfg); cbn [app spawn_in_order].
  - set (c := invocation_at cfg env (S m) ("cleanup", [], pool_args cfg args)).
    destruct (Z.eqb_spec (inv_ret c) 0) as [Hc|Hc].
    + destruct (scrub_enabled cfg); cbn [app spawn_in_order].
      * set (sc := invocation_at cfg env (S (S m))
                     ("scrub", scrub_sargs cfg env, pool_args cfg args)).
        exists [c; sc]. split; [by destruct (inv_ret sc =? 0)|].
        split; [done|]. split; [by eexists|]. intros _ _ _. by exists (S (S m)).
      * exists [c]. split; [done|]. split; [done|]. split; [by eexists|]. done.
    + exists [c]. split; [done|]. split; [done|]. split; [by eexists|].
      intros _ _ Hall. apply Forall_cons in Hall as [Hall _]. by specialize (Hall eq_refl).
  - destruct (scrub_enabled cfg); cbn [app spawn_in_order].
    + set (sc := invocation_at cfg env (S m)
                   ("scrub", scrub_sargs cfg env, pool_args cfg args)).
      exists [sc]. split; [by destruct (inv_ret sc =? 0)|].
      split; [done|]. split; [done|]. intros _ _ _. by exists (S m).
    + exists []. split; [done|]. split; [done|]. split; done.
Qed.

(** C10.  With the pool step enabled and a pool directory configured,
    the pool step writes [pool-dir] into the dictionary that all the
    calls of the run share.  On a run that gets to the pool step (it has
    its diff result, the delete threshold is not exceeded, and the sync,
    if one is needed, succeeds) the pool child is spawned with
    [--pool-dir <dir>] right before the command name; when it succeeds
    and the cleanup step is enabled, the cleanup child is spawned next,
    with the same flag; and when all went well so far and the scrub step
    is enabled, the scrub child is spawned last, with the same flag.  On
    every run, each pool, cleanup or scrub child carries the flag, while
    the touch, diff and sync children, spawned before, do not. *)
Theorem pool_dir_reaches_later_commands cfg env st :
  btrfs_pool cfg = true ->
  btrfs_pool_dir cfg <> "" ->
  let front :=
    [btrfs_executable cfg; "--quiet"] ++ connection_flags cfg
    ++ extend_flags (initial_args cfg) in
  let flag := ["--pool-dir"; btrfs_pool_dir cfg] in
  exists r st' invs,
    run cfg env st = (r, st')
    /\ st_spawned st' = st_spawned st ++ invs
    /\ (forall i, In i invs ->
          (inv_command i = "pool" \/ inv_command i = "cleanup"
           \/ inv_command i = "scrub" ->
           exists rest,
             inv_argv i = front ++ flag ++ [inv_command i] ++ rest)
          /\ (inv_command i = "touch" \/ inv_command i = "diff"
              \/ inv_command i = "sync" ->
              inv_argv i = front ++ [inv_command i; "--quiet"]))
    /\ (forall diff_out args st1,
          run_to_diff cfg env st = (Ok (diff_out, args), st1) ->
          ~ (0 <= snapraid_deletethreshold cfg
             /\ snapraid_deletethreshold cfg
                < count_lines (starts_field "remove") diff_out) ->
          (total_changes diff_out = 0
           \/ inv_ret (invocation_at cfg env (length (st_spawned st1))
                         ("sync", [], args)) = 0) ->
          exists sy p rest,
            st_spawned st' = st_spawned st1 ++ sy ++ p :: rest
            /\ Forall (fun i => inv_command i = "sync") sy
            /\ inv_command p = "pool"
            /\ inv_argv p = front ++ flag ++ ["pool"; "--quiet"]
            /\ (inv_ret p <> 0 -> rest = [])
            /\ (inv_ret p = 0 -> btrfs_cleanup cfg = true ->
                exists c rest',
                  rest = c :: rest'
                  /\ inv_command c = "cleanup"
                  /\ inv_argv c = front ++ flag ++ ["cleanup"])
            /\ (inv_ret p = 0 -> scrub_enabled cfg = true ->
                Forall (fun i => inv_command i = "cleanup" -> inv_ret i = 0) rest ->
                exists s,
                  last rest = Some s
                  /\ inv_command s = "scrub"
                  /\ inv_argv s
                     = front ++ flag ++ ["scrub"; "--quiet"]
                       ++ extend_flags (scrub_sargs cfg env))).
Proof.
  intros Hpool Hdir. cbv zeta.
  destruct (run_invocations cfg env st) as (r & st' & invs & rs & E & [C _] & F).
  exists r, st', invs. split; [exact E|]. split; [exact C|]. split.
  { intros i Hi. rewrite Forall_forall in F.
    apply list_elem_of_In in Hi. destruct (F i Hi) as (k & s & Hs & ->).
    assert (extend_flags (pool_args cfg (initial_args cfg))
            = extend_flags (initial_args cfg) ++ ["--pool-dir"; btrfs_pool_dir cfg])
      as Hflags.
    { unfold pool_args. rewrite Hpool, (len_pos _ Hdir). cbn [andb].
      rewrite extend_flags_dict_set_fresh by apply initial_args_no_pool_dir. done. }
    unfold all_steps, later_steps in Hs. rewrite Hpool in Hs.
    cbn [invocation_at inv_command inv_argv fst snd].
    unfold command_argv, snapraid_btrfs_arguments, snapraid_arguments.
    cbn [In app] in Hs.
    destruct Hs as [<-|[<-|[<-|[<-|Hs]]]]; cbn [fst snd String.eqb Ascii.eqb Bool.eqb].
    - split; [intuition discriminate|]. intros _. by rewrite <- !app_assoc.
    - split; [intuition discriminate|]. intros _. by rewrite <- !app_assoc.
    - split; [intuition discriminate|]. intros _. by rewrite <- !app_assoc.
    - split; [|intuition discriminate]. intros _. rewrite Hflags.
      eexists. rewrite <- !app_assoc. reflexivity.
    - destruct (btrfs_cleanup cfg), (scrub_enabled cfg); cbn [In app] in Hs;
        repeat match goal with
               | H : _ \/ _ |- _ => destruct H as [<-|H]
               | H : False |- _ => destruct H
               end;
        cbn [fst snd String.eqb Ascii.eqb Bool.eqb];
        (split; [|intuition discriminate]); intros _; rewrite Hflags;
        eexists; rewrite <- !app_assoc; reflexivity. }
  intros diff_out args st1 Hdiff Hguard Hsync.
  assert (args = initial_args cfg) as ->.
  { destruct (run_to_diff_spec cfg env st) as (r1 & st1' & ? & ? & E1 & _ & _ & Ha).
    rewrite Hdiff in E1. injection E1 as <- <-. by apply (Ha diff_out). }
  rewrite (run_unfold _ _ _ _ _ _ Hdiff) in E.
  destruct (threshold_check_spec cfg env diff_out st1) as (st2 & rs2 & E2 & _ & Hsame).
  rewrite (guard_passes _ _ Hguard) in E2.
  rewrite (Hsame (guard_passes _ _ Hguard)) in E2. clear Hsame st2.
  rewrite bind_unfold, E2 in E.
  destruct (sync_stage_spec cfg env diff_out (initial_args cfg) st1)
    as (st3 & rs3 & E3 & [C3 _] & _).
  cbv zeta in E3, C3.
  set (P := spawn_in_order cfg env (length (st_spawned st1)) _) in *.
  assert (P.2 = true /\ Forall (fun i => inv_command i = "sync") P.1) as [HP2 HP1].
  { subst P. destruct (Z.eqb_spec (total_changes diff_out) 0) as [Hz|Hz].
    - split; [done|constructor].
    - destruct Hsync as [?|Hret]; [done|]. rewrite spawn_one. cbn [fst snd].
      split; [by apply Z.eqb_eq|]. by repeat constructor. }
  rewrite bind_unfold, E3, HP2 in E.
  destruct (run_after_sync_spec cfg env (initial_args cfg) st3)
    as (st4 & rs4 & E4 & [C4 _]).
  cbv zeta in E4, C4. rewrite E4 in E. injection E as <- <-.
  destruct (later_children cfg env (length (st_spawned st3)) (initial_args cfg) Hpool)
    as (rest & Hl & Hfail & Hclean & Hscrub).
  rewrite Hl in C4.
  set (p := invocation_at cfg env (length (st_spawned st3))
              ("pool", [], pool_args cfg (initial_args cfg))) in *.
  exists P.1, p, rest. split; [by rewrite C4, C3, <- app_assoc|].
  split; [exact HP1|]. split; [done|]. split.
  { subst p. cbn [invocation_at inv_argv fst snd].
    by rewrite (pool_argv _ _ _ Hpool Hdir). }
  split; [exact Hfail|]. split.
  - intros Hp Hc. destruct (Hclean Hp Hc) as [rest' ->]. eexists _, rest'.
    split; [reflexivity|]. split; [done|].
    cbn [invocation_at inv_argv fst snd].
    by rewrite (pool_argv _ _ _ Hpool Hdir).
  - intros Hp Hs Hall. destruct (Hscrub Hp Hs Hall) as [k ->]. eexists.
    split; [reflexivity|]. split; [done|].
    cbn [invocation_at inv_argv fst snd].
    by rewrite (pool_argv _ _ _ Hpool Hdir).
Qed.

(** ** C3: the diff classifier *)

(** C3 as stated fails: the code cuts a line at the first space
    character only.  A line whose kind is followed by a tab has the
    leading white-space-delimited token [add], yet it is not counted. *)
Lemma classify_ignores_tab_separated_kind :
  let lines := ["add" +:+ PyStr.tab +:+ "photo.jpg" +:+ PyStr.nl] in
  Forall (fun l => leading_ws_token l = Some "add") lines
  /\ count_lines (fun l => bool_decide (leading_ws_token l = Some "add")) lines = 1
  /\ classify lines !! "add" = Some 0.
Proof.
  cbv zeta. split; [|split].
  - repeat constructor.
  - reflexivity.
  - rewrite (classify_lookup _ _ kind_add). reflexivity.
Qed.

(** C3, amended.  [classify] is a total function of the lines; its
    result has exactly the four keys add, remove, move and update; the
    count of a kind is the number of lines that are that kind alone or
    that kind followed by a space character (a line starting otherwise,
    also with the kind followed by a tab or a line end, is not counted
    and is no error); no count is negative; and the four counts sum to at
    most the number of lines. *)
Theorem classify_counts (lines : list string) :
  dom (classify lines) = list_to_set change_kinds
  /\ (forall k, k ∈ change_kinds ->
        classify lines !! k = Some (count_lines (starts_field k) lines))
  /\ (forall k n, classify lines !! k = Some n -> 0 <= n)
  /\ (exists a r m u,
        classify lines !! "add" = Some a
        /\ classify lines !! "remove" = Some r
        /\ classify lines !! "move" = Some m
        /\ classify lines !! "update" = Some u
        /\ a + r + m + u <= Z.of_nat (length lines)).
Proof.
  split; [|split; [|split]].
  - apply set_eq. intros k. rewrite elem_of_dom, elem_of_list_to_set. split.
    + intros [n Hn]. by apply classify_lookup_inv in Hn.
    + intros Hk. rewrite (classify_lookup _ _ Hk). by eexists.
  - intros k Hk. rewrite (classify_lookup _ _ Hk).
    f_equal. by apply count_kind_starts.
  - intros k n Hn. pose proof (classify_lookup_inv _ _ _ Hn) as Hk.
    rewrite (classify_lookup _ _ Hk) in Hn. injection Hn as <-.
    apply count_lines_bounds.
  - eexists _, _, _, _.
    rewrite (classify_lookup _ _ kind_add), (classify_lookup _ _ kind_remove),
      (classify_lookup _ _ kind_move), (classify_lookup _ _ kind_update).
    repeat (split; [reflexivity|]). apply classify_total_le.
Qed.

(** ** C7: the order of the argument vector, as the spec words it *)

(** C7 as stated fails: the arguments that follow the executable do not
    start with the connection flags but with a global [--quiet], which
    the spec's order leaves out. *)
Lemma argument_vector_starts_with_quiet :
  let cfg := demo_cfg 5 "80" in
  let argv := command_argv cfg "sync" [] (initial_args cfg) in
  argv !! 1%nat = Some "--quiet"
  /\ spec_order_vector cfg "sync" [] (initial_args cfg) !! 0%nat = Some "--conf"
  /\ tail argv <> spec_order_vector cfg "sync" [] (initial_args cfg)
  /\ argv <> spec_order_vector cfg "sync" [] (initial_args cfg).
Proof.
  cbv zeta. split; [reflexivity|]. split; [reflexivity|].
  split; intros H; vm_compute in H; discriminate.
Qed.

(** ** The scenarios of the spec, run on the model *)

(** Scenario A: two additions and one removal under a threshold of 5:
    Sync runs and the run succeeds. *)
Example scenario_A :
  let out := main (demo_cfg 5 "80") (demo_env demo_diff "" None PostOk) init_state in
  process_exit_code (fst out) = 0
  /\ map inv_command (st_spawned (snd out))
     = ["touch"; "diff"; "sync"; "pool"; "cleanup"; "scrub"].
Proof. cbv zeta. split; vm_compute; reflexivity. Qed.

(** Scenario B: the same diff under a threshold of 0: the run aborts
    before Sync. *)
Example scenario_B :
  let out := main (demo_cfg 0 "80") (demo_env demo_diff "" None PostOk) init_state in
  process_exit_code (fst out) = 1
  /\ map inv_command (st_spawned (snd out)) = ["touch"; "diff"].
Proof. cbv zeta. split; vm_compute; reflexivity. Qed.

(** Scenario C: a numeric plan passes older-than, a symbolic plan does not. *)
Example scenario_C :
  let env := demo_env demo_diff "" None PostOk in
  (inv_argv <$> last (st_spawned (snd (main (demo_cfg 5 "80") env init_state))))
  = Some ["/usr/bin/snapraid-btrfs"; "--quiet"; "--conf"; "/etc/snapraid.conf";
          "--snapper-path"; "/usr/bin/snapper"; "--snapraid-path";
          "/usr/bin/snapraid"; "--snapper-configs"; "data1,data2";
          "--pool-dir"; "/mnt/pool"; "scrub"; "--quiet"; "--plan"; "80";
          "--older-than"; "30"]
  /\ (inv_argv <$> last (st_spawned (snd (main (demo_cfg 5 "full") env init_state))))
     = Some ["/usr/bin/snapraid-btrfs"; "--quiet"; "--conf"; "/etc/snapraid.conf";
             "--snapper-path"; "/usr/bin/snapper"; "--snapraid-path";
             "/usr/bin/snapraid"; "--snapper-configs"; "data1,data2";
             "--pool-dir"; "/mnt/pool"; "scrub"; "--quiet"; "--plan"; "full"].
Proof. cbv zeta. split; vm_compute; reflexivity. Qed.

(** A failing pool child stops the run before Cleanup and Scrub. *)
Example failing_pool_aborts :
  let out := main (demo_cfg 5 "80") (demo_env demo_diff "pool" None PostOk) init_state in
  process_exit_code (fst out) = 1
  /\ map inv_command (st_spawned (snd out)) = ["touch"; "diff"; "sync"; "pool"].
Proof. cbv zeta. split; vm_compute; reflexivity. Qed.

(** ** Instances of the theorems on the scenarios *)

Lemma command_status_classification_witness :
  let cfg := demo_cfg 5 "80" in
  let env := demo_env demo_diff "sync" None PostOk in
  fst (snapraid_btrfs_command cfg env "diff" [] (initial_args cfg) [2] init_state)
  = Ok demo_diff
  /\ fst (snapraid_btrfs_command cfg env "sync" [] (initial_args cfg) [] init_state)
     = Raise (CalledProcessError 1 "snapraid-btrfs sync").
Proof.
  cbv zeta. split.
  - apply (proj1 (command_status_classification (demo_cfg 5 "80")
                    (demo_env demo_diff "sync" None PostOk) "diff" []
                    (initial_args (demo_cfg 5 "80")) [2] init_state)).
    right. vm_compute. left. reflexivity.
  - apply (proj2 (command_status_classification (demo_cfg 5 "80")
                    (demo_env demo_diff "sync" None PostOk) "sync" []
                    (initial_args (demo_cfg 5 "80")) [] init_state)).
    vm_compute. intros [H|[]]. discriminate H.
Defined.

Lemma delete_threshold_guard_witness :
  let cfg := demo_cfg 0 "80" in
  let env := demo_env demo_diff "" None PostOk in
  let st1 := snd (run_to_diff cfg env init_state) in
  run_to_diff cfg env init_state = (Ok (demo_diff, initial_args cfg), st1)
  /\ fst (run cfg env init_state) = Raise (SystemExit 1)
  /\ st_spawned (snd (run cfg env init_state)) = st_spawned st1.
Proof.
  cbv zeta.
  assert (run_to_diff (demo_cfg 0 "80") (demo_env demo_diff "" None PostOk) init_state
          = (Ok (demo_diff, initial_args (demo_cfg 0 "80")),
             snd (run_to_diff (demo_cfg 0 "80")
                    (demo_env demo_diff "" None PostOk) init_state))) as H.
  { vm_compute. reflexivity. }
  split; [exact H|].
  apply (proj1 (delete_threshold_guard _ _ _ _ _ _ H)).
  split; vm_compute; [discriminate|reflexivity].
Defined.

Lemma no_change_skips_sync_witness :
  let cfg := demo_cfg 5 "80" in
  let env := demo_env [] "" None PostOk in
  let st1 := snd (run_to_diff cfg env init_state) in
  run_to_diff cfg env init_state = (Ok ([], initial_args cfg), st1)
  /\ (forall k, k ∈ change_kinds -> classify [] !! k = Some 0)
  /\ exists st2 invs,
       run cfg env init_state = (Raise (SystemExit 0), st2)
       /\ st_spawned st2 = st_spawned st1 ++ invs
       /\ map inv_command invs = ["pool"; "cleanup"; "scrub"].
Proof.
  cbv zeta.
  assert (run_to_diff (demo_cfg 5 "80") (demo_env [] "" None PostOk) init_state
          = (Ok ([], initial_args (demo_cfg 5 "80")),
             snd (run_to_diff (demo_cfg 5 "80")
                    (demo_env [] "" None PostOk) init_state))) as H.
  { vm_compute. reflexivity. }
  assert (forall k, k ∈ change_kinds -> classify [] !! k = Some 0) as Hzero.
  { intros k Hk. rewrite (classify_lookup _ _ Hk). reflexivity. }
  split; [exact H|]. split; [exact Hzero|].
  destruct (no_change_skips_sync _ _ _ _ _ _ H Hzero)
    as (r & st2 & invs & E & Hs & _ & _ & _ & Hall & _).
  exists st2, invs.
  assert (st2 = snd (run (demo_cfg 5 "80") (demo_env [] "" None PostOk) init_state))
    as Est by (rewrite E; reflexivity).
  assert (Forall (fun i => inv_ret i = 0) invs) as Hzeroes.
  { rewrite Est in Hs. vm_compute in Hs. injection Hs as <-.
    repeat constructor. }
  destruct (Hall Hzeroes) as [-> Hcmds].
  split; [exact E|]. split; [exact Hs|]. exact Hcmds.
Defined.

Lemma scrub_plan_flags_witness :
  let cfg := demo_cfg 5 "full" in
  let env := demo_env demo_diff "" None PostOk in
  scrub_enabled cfg = true
  /\ exists r st' i rs,
       scrub_stage cfg env (initial_args cfg) init_state = (r, st')
       /\ st_log st' = rs
       /\ In (older_than_warning cfg) rs
       /\ inv_argv i
          = ([btrfs_executable cfg; "--quiet"] ++ connection_flags cfg
             ++ extend_flags (initial_args cfg))
            ++ ["scrub"; "--quiet"; "--plan"; "full"].
Proof.
  cbv zeta. split; [reflexivity|].
  destruct (scrub_plan_flags (demo_cfg 5 "full")
              (demo_env demo_diff "" None PostOk)
              (initial_args (demo_cfg 5 "full")) init_state eq_refl)
    as (r & st' & i & rs & E & _ & L & _ & H).
  change (py_int (demo_env demo_diff "" None PostOk) (scrub_plan (demo_cfg 5 "full")))
    with (@None Z) in H.
  destruct H as [Hargv Hwarn].
  exists r, st', i, rs. split; [exact E|]. split; [exact L|].
  split; [|exact Hargv]. apply Hwarn. vm_compute. reflexivity.
Defined.

Lemma pool_dir_reaches_later_commands_witness :
  let cfg := demo_cfg 5 "80" in
  let env := demo_env demo_diff "" None PostOk in
  let st1 := snd (run_to_diff cfg env init_state) in
  let front :=
    ["/usr/bin/snapraid-btrfs"; "--quiet"; "--conf"; "/etc/snapraid.conf";
     "--snapper-path"; "/usr/bin/snapper"; "--snapraid-path"; "/usr/bin/snapraid";
     "--snapper-configs"; "data1,data2"] in
  btrfs_pool cfg = true
  /\ btrfs_pool_dir cfg <> ""
  /\ run_to_diff cfg env init_state = (Ok (demo_diff, initial_args cfg), st1)
  /\ exists st' sy p c s,
       run cfg env init_state = (Raise (SystemExit 0), st')
       /\ st_spawned st' = st_spawned st1 ++ sy ++ [p; c; s]
       /\ inv_argv p = front ++ ["--pool-dir"; "/mnt/pool"; "pool"; "--quiet"]
       /\ inv_argv c = front ++ ["--pool-dir"; "/mnt/pool"; "cleanup"]
       /\ inv_argv s
          = front ++ ["--pool-dir"; "/mnt/pool"; "scrub"; "--quiet";
                      "--plan"; "80"; "--older-than"; "30"].
Proof.
  cbv zeta.
  set (cfg := demo_cfg 5 "80"). set (env := demo_env demo_diff "" None PostOk).
  set (st1 := snd (run_to_diff cfg env init_state)).
  assert (btrfs_pool_dir cfg <> "") as Hdir.
  { vm_compute. discriminate. }
  assert (run_to_diff cfg env init_state = (Ok (demo_diff, initial_args cfg), st1))
    as Hdiff.
  { vm_compute. reflexivity. }
  split; [reflexivity|]. split; [exact Hdir|]. split; [exact Hdiff|].
  destruct (pool_dir_reaches_later_commands cfg env init_state eq_refl Hdir)
    as (r & st' & invs & E & _ & _ & Hreach).
  destruct (Hreach demo_diff (initial_args cfg) st1 Hdiff)
    as (sy & p & rest & Hsp & Hsy & Hpc & Hpa & _ & Hclean & Hscrub).
  { intros [_ Hlt]. vm_compute in Hlt. discriminate. }
  { right. vm_compute. reflexivity. }
  assert (r = Raise (SystemExit 0)) as ->.
  { apply (f_equal fst) in E. cbn [fst] in E. rewrite <- E.
    vm_compute. reflexivity. }
  assert (st_spawned st'
          = st_spawned st1
            ++ [invocation_at cfg env 2 ("sync", [], initial_args cfg);
                invocation_at cfg env 3
                  ("pool", [], pool_args cfg (initial_args cfg));
                invocation_at cfg env 4
                  ("cleanup", [], pool_args cfg (initial_args cfg));
                invocation_at cfg env 5
                  ("scrub", scrub_sargs cfg env, pool_args cfg (initial_args cfg))])
    as Hall.
  { apply (f_equal snd) in E. cbn [snd] in E. rewrite <- E.
    vm_compute. reflexivity. }
  remember (invocation_at cfg env 2 ("sync", [], initial_args cfg)) as i3 eqn:E3.
  remember (invocation_at cfg env 3 ("pool", [], pool_args cfg (initial_args cfg)))
    as i4 eqn:E4.
  remember (invocation_at cfg env 4 ("cleanup", [], pool_args cfg (initial_args cfg)))
    as i5 eqn:E5.
  remember (invocation_at cfg env 5
              ("scrub", scrub_sargs cfg env, pool_args cfg (initial_args cfg)))
    as i6 eqn:E6.
  assert (inv_command i3 = "sync") as C3 by (by rewrite E3).
  assert (inv_command i4 = "pool") as C4 by (by rewrite E4).
  assert (inv_command i6 = "scrub") as C6 by (by rewrite E6).
  assert (inv_ret i4 = 0) as R4 by (rewrite E4; vm_compute; reflexivity).
  assert (inv_ret i5 = 0) as R5 by (rewrite E5; vm_compute; reflexivity).
  rewrite Hall in Hsp. apply app_inv_head in Hsp.
  assert (sy = [i3] /\ p = i4 /\ rest = [i5; i6]) as (-> & -> & ->).
  { destruct sy as [|x [|y sy]]; cbn [app] in Hsp.
    - injection Hsp as Hp _. rewrite <- Hp, C3 in Hpc. discriminate Hpc.
    - injection Hsp as Hx Hp Hr. subst x p rest.
      split; [reflexivity|]. split; reflexivity.
    - injection Hsp as _ Hy _.
      apply Forall_cons in Hsy as [_ Hsy]. apply Forall_cons in Hsy as [Hsy _].
      rewrite <- Hy, C4 in Hsy. discriminate Hsy. }
  destruct (Hclean R4 eq_refl) as (c & rest' & Hrest & _ & Hca).
  injection Hrest as Hr' Hc'. subst c rest'.
  destruct (Hscrub R4 eq_refl) as (sc & Hlast & _ & Hsa).
  { constructor; [intros _; exact R5|].
    constructor; [intros Hc; rewrite C6 in Hc; discriminate Hc|constructor]. }
  cbn [last] in Hlast. injection Hlast as Hs'. subst sc.
  exists st', [i3], i4, i5, i6. split; [exact E|]. split; [exact Hall|].
  subst i4 i5 i6.
  split; [etrans; [exact Hpa|vm_compute; reflexivity]|].
  split; [etrans; [exact Hca|vm_compute; reflexivity]|].
  etrans; [exact Hsa|vm_compute; reflexivity].
Defined.

(** ** C9: the stream tees *)

Section tee_facts.
Import Tee.

Lemma at_level_app l k1 k2 :
  at_level l (k1 ++ k2) = at_level l k1 ++ at_level l k2.
Proof. unfold at_level. apply filter_app. Qed.

Lemma at_level_own l line : at_level l [tee_record l line] = [tee_record l line].
Proof. unfold at_level. by rewrite filter_cons_True. Qed.

Lemma at_level_other l l' line : l' <> l -> at_level l [tee_record l' line] = [].
Proof. intros H. unfold at_level. by rewrite filter_cons_False. Qed.

Lemma tee_init_inv outs errs ret : tee_inv outs errs ret (init outs errs ret).
Proof.
  assert (forall l lines,
            stream_inv l lines
              {| unwritten := lines; buffered := []; closed := false |}
              AtReadline [] []) as Hstream.
  { intros l lines. unfold stream_inv. cbn.
    split; [done|]. split; [done|]. split; [done|]. intros [?|?]; done. }
  unfold tee_inv, init, past_joins. cbn.
  split; [apply Hstream|]. split; [apply Hstream|].
  split; [constructor|]. split; [done|]. split; [done|].
  split; [|done]. intros [?|[? ?]]; done.
Qed.

Lemma child_write_inv l lines p p' t acc k :
  child_write p = Some p' ->
  stream_inv l lines p t acc k -> stream_inv l lines p' t acc k.
Proof.
  unfold child_write, stream_inv.
  destruct (closed p) eqn:Ec; [done|].
  destruct (unwritten p) as [|line rest] eqn:Eu; [done|].
  intros [= <-] (H1 & H2 & H3 & H4). cbn.
  split; [by rewrite <- app_assoc|]. split; [done|]. split; [done|].
  intros Ht. by destruct (H4 Ht).
Qed.

Lemma child_close_inv l lines p p' t acc k :
  child_close p = Some p' ->
  stream_inv l lines p t acc k -> stream_inv l lines p' t acc k.
Proof.
  unfold child_close, stream_inv.
  destruct (closed p) eqn:Ec; [done|].
  destruct (unwritten p) as [|line rest] eqn:Eu; [|done].
  intros [= <-] (H1 & H2 & H3 & H4). cbn.
  split; [done|]. split; [done|]. split; [done|].
  intros Ht. by destruct (H4 Ht).
Qed.

(** A statement of a thread keeps the invariant of its own stream. *)
Lemma thread_step_own l lines p t k acc p' t' k' acc' :
  Forall (fun line => line <> "") lines ->
  thread_step l p t k acc = Some (p', t', k', acc') ->
  stream_inv l lines p t acc k -> stream_inv l lines p' t' acc' k'.
Proof.
  intros Hne Hstep (H1 & H2 & H3 & H4). unfold stream_inv.
  destruct t as [|line|line| |]; cbn in Hstep.
  - destruct (buffered p) as [|line rest] eqn:Eb.
    + destruct (closed p) eqn:Ec; [|done]. injection Hstep as <- <- <- <-.
      rewrite Eb. split; [done|]. split; [done|]. split; [by auto|].
      intros _. split; [done|]. by apply H3.
    + assert (line <> "") as Hline.
      { rewrite Forall_forall in Hne. apply Hne. rewrite H1.
        cbn [in_flight app]. rewrite elem_of_app. right. apply list_elem_of_here. }
      destruct (String.eqb_spec line "") as [?|_]; [done|].
      injection Hstep as <- <- <- <-. cbn.
      split; [done|]. split; [done|]. split; [done|].
      intros [?|?]; done.
  - injection Hstep as <- <- <- <-. cbn [in_flight logged_only] in *.
    split; [done|]. split.
    + rewrite at_level_app, at_level_own, H2, app_nil_r, map_app. done.
    + split; [done|]. intros [?|?]; done.
  - injection Hstep as <- <- <- <-. cbn [in_flight logged_only app] in *.
    split; [by rewrite <- app_assoc|]. split; [by rewrite app_nil_r|].
    split; [done|]. intros [?|?]; done.
  - injection Hstep as <- <- <- <-. cbn [in_flight logged_only app] in *.
    split; [done|]. split; [done|]. split; [done|].
    intros _. apply H4. by left.
  - done.
Qed.

(** What a statement of a thread does to the sink. *)
Lemma thread_step_sink l p t k acc p' t' k' acc' :
  thread_step l p t k acc = Some (p', t', k', acc') ->
  k' = k \/ exists line, k' = k ++ [tee_record l line].
Proof.
  destruct t as [|line|line| |]; cbn; intros Hstep.
  - destruct (buffered p) as [|line rest].
    + destruct (closed p); [|done]. injection Hstep as <- <- <- <-. by left.
    + destruct (String.eqb line ""); injection Hstep as <- <- <- <-; by left.
  - injection Hstep as <- <- <- <-. right. by exists line.
  - injection Hstep as <- <- <- <-. by left.
  - injection Hstep as <- <- <- <-. by left.
  - done.
Qed.

(** A statement of the other thread leaves a stream's invariant alone. *)
Lemma thread_step_other l l' lines p t acc k k' :
  l' <> l ->
  (k' = k \/ exists line, k' = k ++ [tee_record l' line]) ->
  stream_inv l lines p t acc k -> stream_inv l lines p t acc k'.
Proof.
  intros Hl [->|[line ->]]; [done|].
  unfold stream_inv. intros (H1 & H2 & H3 & H4).
  split; [done|]. split; [|done].
  by rewrite at_level_app, (at_level_other _ _ _ Hl), app_nil_r.
Qed.

Lemma thread_step_from_joinable l p k acc :
  thread_step l p Joinable k acc = None.
Proof. reflexivity. Qed.

Lemma sink_levels l (k k' : list LogRecord) :
  l = OUTPUT \/ l = OUTERR ->
  (k' = k \/ exists line, k' = k ++ [tee_record l line]) ->
  Forall (fun r => rec_level r = OUTPUT \/ rec_level r = OUTERR) k ->
  Forall (fun r => rec_level r = OUTPUT \/ rec_level r = OUTERR) k'.
Proof.
  intros Hl [->|[line ->]] H; [done|].
  apply Forall_app. split; [done|]. constructor; [exact Hl|constructor].
Qed.

(** Every step keeps the invariant. *)
Lemma tee_step_inv outs errs ret a s s' :
  Forall (fun line => line <> "") outs ->
  Forall (fun line => line <> "") errs ->
  step a s = Some s' -> tee_inv outs errs ret s -> tee_inv outs errs ret s'.
Proof.
  intros Ho He Hstep (Io & Ie & Hk & Hs & Hj1 & Hj2 & Hr).
  unfold tee_inv, past_joins in *.
  destruct a; cbn [step] in Hstep.
  - destruct (child_write (out_pipe s)) as [p|] eqn:E; [|done].
    injection Hstep as <-. cbn.
    split; [by eapply child_write_inv|]. done.
  - destruct (child_write (err_pipe s)) as [p|] eqn:E; [|done].
    injection Hstep as <-. cbn.
    split; [done|]. split; [by eapply child_write_inv|]. done.
  - destruct (child_close (out_pipe s)) as [p|] eqn:E; [|done].
    injection Hstep as <-. cbn.
    split; [by eapply child_close_inv|]. done.
  - destruct (child_close (err_pipe s)) as [p|] eqn:E; [|done].
    injection Hstep as <-. cbn.
    split; [done|]. split; [by eapply child_close_inv|]. done.
  - destruct (_ && _); [|done]. injection Hstep as <-. by cbn.
  - destruct (thread_step OUTPUT _ _ _ _) as [[[[p t] k] acc]|] eqn:E; [|done].
    injection Hstep as <-. cbn.
    pose proof (thread_step_sink _ _ _ _ _ _ _ _ _ E) as Hsink.
    split; [by eapply thread_step_own|].
    split; [by eapply (thread_step_other OUTERR OUTPUT)|].
    split; [eapply sink_levels; [|exact Hsink|exact Hk]; by left|].
    split; [done|]. split; [|done].
    intros Hp. rewrite (Hj1 Hp) in E. by rewrite thread_step_from_joinable in E.
  - destruct (thread_step OUTERR _ _ _ _) as [[[[p t] k] acc]|] eqn:E; [|done].
    injection Hstep as <-. cbn.
    pose proof (thread_step_sink _ _ _ _ _ _ _ _ _ E) as Hsink.
    split; [by eapply (thread_step_other OUTPUT OUTERR)|].
    split; [by eapply thread_step_own|].
    split; [eapply sink_levels; [|exact Hsink|exact Hk]; by right|].
    split; [done|]. split; [done|]. split; [|done].
    intros Hp. rewrite (Hj2 Hp) in E. by rewrite thread_step_from_joinable in E.
  - destruct (parent_step s) as [q|] eqn:E; [|done].
    injection Hstep as <-. cbn. unfold parent_step in E.
    split; [done|]. split; [done|]. split; [done|]. split; [done|].
    destruct (parent s) eqn:Ep.
    + destruct (t_out s) eqn:Et; try done. injection E as <-.
      split; [done|]. split; [|done]. intros [?|[? ?]]; done.
    + destruct (t_err s) eqn:Et; try done. injection E as <-.
      split; [intros _; by apply Hj1|]. split; [done|done].
    + destruct (exited s); [|done]. injection E as <-.
      split; [intros _; by apply Hj1|].
      split; [intros _; apply Hj2; by left|].
      by intros r [= <-].
    + done.
Qed.

Lemma tee_exec_inv outs errs ret sched : forall s s',
  Forall (fun line => line <> "") outs ->
  Forall (fun line => line <> "") errs ->
  exec sched s = Some s' -> tee_inv outs errs ret s -> tee_inv outs errs ret s'.
Proof.
  induction sched as [|a sched IH]; intros s s' Ho He; cbn [exec].
  { by intros [= <-]. }
  destruct (step a s) as [s1|] eqn:E; [|done]. cbn.
  intros Hexec Hinv. eapply IH; [done|done|exact Hexec|].
  by eapply tee_step_inv.
Qed.

Lemma levels_length (k : list LogRecord) :
  Forall (fun r => rec_level r = OUTPUT \/ rec_level r = OUTERR) k ->
  length k = (length (at_level OUTPUT k) + length (at_level OUTERR k))%nat.
Proof.
  unfold at_level. induction 1 as [|r k [Hr|Hr] _ IH]; [done| |].
  - rewrite filter_cons_True by done.
    rewrite (filter_cons_False (fun r => rec_level r = OUTERR)) by (rewrite Hr; done).
    cbn [length]. lia.
  - rewrite filter_cons_False by (rewrite Hr; done).
    rewrite (filter_cons_True (fun r => rec_level r = OUTERR)) by done.
    cbn [length]. lia.
Qed.

(** Past the joins nothing is left in the pipes or in the threads. *)
Lemma tee_inv_past_joins outs errs ret s :
  tee_inv outs errs ret s -> past_joins s ->
  t_out s = Joinable /\ t_err s = Joinable
  /\ at_level OUTPUT (sink s) = map (tee_record OUTPUT) outs
  /\ at_level OUTERR (sink s) = map (tee_record OUTERR) errs
  /\ length (sink s) = (length outs + length errs)%nat
  /\ out s = outs
  /\ (forall r, parent s = GotStatus r -> r = ret).
Proof.
  intros (Io & Ie & Hk & Hs & Hj1 & Hj2 & Hr) Hp.
  assert (t_out s = Joinable) as To.
  { apply Hj1. destruct Hp as [->|[r ->]]; done. }
  assert (t_err s = Joinable) as Te by auto.
  destruct Io as (O1 & O2 & _ & O4). destruct Ie as (E1 & E2 & _ & E4).
  rewrite To in *. rewrite Te in *.
  destruct O4 as [Ob Ou]; [by right|]. destruct E4 as [Eb Eu]; [by right|].
  rewrite Ob, Ou in O1. rewrite Eb, Eu in E1.
  cbn [in_flight logged_only app] in *. rewrite !app_nil_r in *.
  split; [done|]. split; [done|].
  split; [by rewrite O2, O1|]. split; [by rewrite E2, E1|].
  split; [|by split].
  rewrite (levels_length _ Hk), O2, E2, !length_map. by subst.
Qed.

(** *** Termination under every schedule *)

Lemma child_write_fuel p p' :
  child_write p = Some p' -> (pipe_fuel p' < pipe_fuel p)%nat.
Proof.
  unfold child_write, pipe_fuel. destruct (closed p); [done|].
  destruct (unwritten p) as [|line rest]; [done|].
  intros [= <-]. cbn. rewrite length_app. cbn. lia.
Qed.

Lemma child_close_fuel p p' :
  child_close p = Some p' -> (pipe_fuel p' < pipe_fuel p)%nat.
Proof.
  unfold child_close, pipe_fuel. destruct (closed p); [done|].
  destruct (unwritten p) as [|line rest]; [|done].
  intros [= <-]. cbn. lia.
Qed.

Lemma thread_step_fuel l p t k acc p' t' k' acc' :
  thread_step l p t k acc = Some (p', t', k', acc') ->
  (pipe_fuel p' + thread_fuel t' < pipe_fuel p + thread_fuel t)%nat.
Proof.
  unfold pipe_fuel. destruct t as [|line|line| |]; cbn; intros Hstep.
  - destruct (buffered p) as [|line rest] eqn:Eb.
    + destruct (closed p) eqn:Ec; [|done]. injection Hstep as <- <- <- <-.
      rewrite Eb, Ec. cbn. lia.
    + destruct (String.eqb line ""); injection Hstep as <- <- <- <-;
        cbn; destruct (closed p); lia.
  - injection Hstep as <- <- <- <-. cbn [thread_fuel]. lia.
  - injection Hstep as <- <- <- <-. cbn [thread_fuel]. lia.
  - injection Hstep as <- <- <- <-. cbn [thread_fuel]. lia.
  - done.
Qed.

Lemma tee_step_fuel a s s' :
  step a s = Some s' -> (fuel s' < fuel s)%nat.
Proof.
  unfold fuel. destruct a; cbn [step]; intros Hstep.
  - destruct (child_write (out_pipe s)) as [p|] eqn:E; [|done].
    injection Hstep as <-. cbn [out_pipe err_pipe exited t_out t_err parent].
    apply child_write_fuel in E. lia.
  - destruct (child_write (err_pipe s)) as [p|] eqn:E; [|done].
    injection Hstep as <-. cbn [out_pipe err_pipe exited t_out t_err parent].
    apply child_write_fuel in E. lia.
  - destruct (child_close (out_pipe s)) as [p|] eqn:E; [|done].
    injection Hstep as <-. cbn [out_pipe err_pipe exited t_out t_err parent].
    apply child_close_fuel in E. lia.
  - destruct (child_close (err_pipe s)) as [p|] eqn:E; [|done].
    injection Hstep as <-. cbn [out_pipe err_pipe exited t_out t_err parent].
    apply child_close_fuel in E. lia.
  - destruct (exited s) eqn:Ex.
    { rewrite andb_false_r in Hstep. done. }
    destruct (_ && _); [|done]. injection Hstep as <-.
    cbn [out_pipe err_pipe exited t_out t_err parent]. lia.
  - destruct (thread_step OUTPUT _ _ _ _) as [[[[p t] k] acc]|] eqn:E; [|done].
    injection Hstep as <-. cbn [out_pipe err_pipe exited t_out t_err parent].
    apply thread_step_fuel in E. lia.
  - destruct (thread_step OUTERR _ _ _ _) as [[[[p t] k] acc]|] eqn:E; [|done].
    injection Hstep as <-. cbn [out_pipe err_pipe exited t_out t_err parent].
    apply thread_step_fuel in E. lia.
  - destruct (parent_step s) as [q|] eqn:E; [|done].
    injection Hstep as <-. cbn [out_pipe err_pipe exited t_out t_err parent].
    unfold parent_step in E.
    destruct (parent s); cbn [parent_fuel].
    + destruct (is_joinable _); [|done]. injection E as <-. cbn [parent_fuel]. lia.
    + destruct (is_joinable _); [|done]. injection E as <-. cbn [parent_fuel]. lia.
    + destruct (exited s); [|done]. injection E as <-. cbn [parent_fuel]. lia.
    + done.
Qed.

Lemma tee_exec_length sched : forall s s',
  exec sched s = Some s' -> (length sched + fuel s' <= fuel s)%nat.
Proof.
  induction sched as [|a sched IH]; intros s s'; cbn [exec length].
  { intros [= <-]. lia. }
  destruct (step a s) as [s1|] eqn:E; [|done]. cbn [mbind option_bind].
  intros Hexec. apply IH in Hexec. apply tee_step_fuel in E. lia.
Qed.

(** No deadlock: while the parent has not got the status, some step is
    enabled. *)
Lemma tee_progress s :
  (forall r, parent s <> GotStatus r) -> exists a s', step a s = Some s'.
Proof.
  intros Hp.
  destruct (closed (out_pipe s)) eqn:Co.
  2:{ destruct (unwritten (out_pipe s)) as [|line rest] eqn:Eu.
      - exists CloseOut. cbn [step]. unfold child_close. rewrite Co, Eu. by eexists.
      - exists WriteOut. cbn [step]. unfold child_write. rewrite Co, Eu. by eexists. }
  destruct (closed (err_pipe s)) eqn:Ce.
  2:{ destruct (unwritten (err_pipe s)) as [|line rest] eqn:Eu.
      - exists CloseErr. cbn [step]. unfold child_close. rewrite Ce, Eu. by eexists.
      - exists WriteErr. cbn [step]. unfold child_write. rewrite Ce, Eu. by eexists. }
  destruct (exited s) eqn:Ex.
  2:{ exists Exit. cbn [step]. rewrite Co, Ce, Ex. by eexists. }
  assert (forall l p t k acc, closed p = true -> t <> Joinable ->
            exists x, thread_step l p t k acc = Some x) as Hthread.
  { intros l p t k acc Hc Ht.
    destruct t as [|line|line| |]; cbn; [| | | |by destruct Ht];
      [|eexists; reflexivity..].
    destruct (buffered p) as [|line rest].
    - rewrite Hc. eexists; reflexivity.
    - destruct (String.eqb line ""); eexists; reflexivity. }
  assert (t_out s = Joinable \/ t_out s <> Joinable) as [To|To]
    by (destruct (t_out s); (by left) || (by right)).
  2:{ destruct (Hthread OUTPUT (out_pipe s) (t_out s) (sink s) (out s) Co To)
        as [[[[p t] k] acc] E].
      exists TeeOut. cbn [step]. rewrite E. by eexists. }
  assert (t_err s = Joinable \/ t_err s <> Joinable) as [Te|Te]
    by (destruct (t_err s); (by left) || (by right)).
  2:{ destruct (Hthread OUTERR (err_pipe s) (t_err s) (sink s) (err_lines s) Ce Te)
        as [[[[p t] k] acc] E].
      exists TeeErr. cbn [step]. rewrite E. by eexists. }
  exists ParentStep. cbn [step]. unfold parent_step. rewrite To, Te, Ex.
  destruct (parent s) eqn:Ep; cbn; [eexists; reflexivity..|].
  by destruct (Hp ret).
Qed.

(** From every state some schedule brings the parent to the status. *)
Lemma tee_terminates n : forall s,
  (fuel s <= n)%nat ->
  exists sched s' r, exec sched s = Some s' /\ parent s' = GotStatus r.
Proof.
  induction n as [|n IH]; intros s Hn.
  - destruct (parent s) eqn:Ep; try (unfold fuel in Hn; rewrite Ep in Hn; cbn in Hn; lia).
    by exists [], s, ret.
  - destruct (parent s) eqn:Ep.
    4:{ by exists [], s, ret. }
    all: destruct (tee_progress s) as (a & s1 & E); [by rewrite Ep|];
      pose proof (tee_step_fuel _ _ _ E) as Hlt;
      destruct (IH s1) as (sched & s' & r & Hexec & Hr); [lia|];
      exists (a :: sched), s', r; cbn [exec]; rewrite E; by split.
Qed.

(** *** The sink of a finished command is an interleaving *)

Lemma only_output (k : list LogRecord) :
  Forall (fun r => rec_level r = OUTPUT \/ rec_level r = OUTERR) k ->
  at_level OUTERR k = [] -> at_level OUTPUT k = k.
Proof.
  unfold at_level. induction 1 as [|r k [Hr|Hr] _ IH]; [done| |].
  - rewrite (filter_cons_False (fun r => rec_level r = OUTERR)) by (rewrite Hr; done).
    intros E. by rewrite filter_cons_True, IH.
  - by rewrite filter_cons_True.
Qed.

Lemma only_outerr (k : list LogRecord) :
  Forall (fun r => rec_level r = OUTPUT \/ rec_level r = OUTERR) k ->
  at_level OUTPUT k = [] -> at_level OUTERR k = k.
Proof.
  unfold at_level. induction 1 as [|r k [Hr|Hr] _ IH]; [done| |].
  - by rewrite filter_cons_True.
  - rewrite (filter_cons_False (fun r => rec_level r = OUTPUT)) by (rewrite Hr; done).
    intros E. by rewrite filter_cons_True, IH.
Qed.

(** A sink made of OUTPUT and OUTERR records is the interleaving of
    its two projections that the command runner's [tee_interleave]
    yields for the schedule read off the sink. *)
Lemma sink_is_interleaving (k : list LogRecord) :
  Forall (fun r => rec_level r = OUTPUT \/ rec_level r = OUTERR) k ->
  tee_interleave (map (fun r => bool_decide (rec_level r = OUTPUT)) k)
    (at_level OUTPUT k) (at_level OUTERR k) = k.
Proof.
  induction 1 as [|r k Hr Hk IH]; [done|].
  cbn [map tee_interleave]. unfold at_level in *.
  destruct Hr as [Hr|Hr].
  - rewrite (filter_cons_True (fun r => rec_level r = OUTPUT)) by done.
    rewrite (filter_cons_False (fun r => rec_level r = OUTERR)) by (rewrite Hr; done).
    rewrite bool_decide_eq_true_2 by done.
    destruct (filter (fun r => rec_level r = OUTERR) k) as [|e errs] eqn:Ee.
    + f_equal. by apply only_output.
    + by rewrite IH.
  - rewrite (filter_cons_False (fun r => rec_level r = OUTPUT)) by (rewrite Hr; done).
    rewrite (filter_cons_True (fun r => rec_level r = OUTERR)) by done.
    rewrite bool_decide_eq_false_2 by (rewrite Hr; done).
    destruct (filter (fun r => rec_level r = OUTPUT) k) as [|o outs] eqn:Eo.
    + f_equal. by apply only_outerr.
    + by rewrite IH.
Qed.

(** The log the sequential model of the command runner assumes,
    [tee_records], covers every finished run of the two threads. *)
Lemma finished_sink_is_tee_records outs errs ret sched s :
  Forall (fun line => line <> "") outs ->
  Forall (fun line => line <> "") errs ->
  exec sched (init outs errs ret) = Some s -> past_joins s ->
  exists order,
    sink s = tee_records {| proc_ret := ret; proc_stdout := outs;
                            proc_stderr := errs; proc_tee := order |}
    /\ out s = outs.
Proof.
  intros Ho He Hexec Hp.
  pose proof (tee_exec_inv outs errs ret sched _ _ Ho He Hexec
                (tee_init_inv outs errs ret)) as Hinv.
  destruct (tee_inv_past_joins _ _ _ _ Hinv Hp) as (_ & _ & Eo & Ee & _ & Eacc & _).
  destruct Hinv as (_ & _ & Hk & _).
  exists (map (fun r => bool_decide (rec_level r = OUTPUT)) (sink s)).
  split; [|done]. unfold tee_records. cbn [proc_tee proc_stdout proc_stderr].
  rewrite <- Eo, <- Ee. symmetry. by apply sink_is_interleaving.
Qed.
End tee_facts.

(** C9.  Take a child that writes the lines [outs] to stdout and [errs]
    to stderr (lines as [readline] yields them, so none is empty) and
    exits with [ret].  Under every interleaving of the child, the two tee
    threads and the parent: once the parent is past both joins, both
    threads have seen end of file and returned, the log sink holds
    exactly the stdout lines at OUTPUT and the stderr lines at OUTERR,
    each once and in the order of its stream, [N + M] records in all,
    the accumulator holds exactly the stdout lines in order, and the
    status the parent reads is the child's.  No interleaving runs for
    ever, none gets stuck before the parent has the status, and some
    interleaving gives the parent the status. *)
Theorem tee_delivers_every_line outs errs ret :
  Forall (fun line => line <> "") outs ->
  Forall (fun line => line <> "") errs ->
  (forall sched s,
     Tee.exec sched (Tee.init outs errs ret) = Some s -> Tee.past_joins s ->
     Tee.t_out s = Tee.Joinable /\ Tee.t_err s = Tee.Joinable
     /\ Tee.at_level OUTPUT (Tee.sink s) = map (tee_record OUTPUT) outs
     /\ Tee.at_level OUTERR (Tee.sink s) = map (tee_record OUTERR) errs
     /\ length (Tee.sink s) = (length outs + length errs)%nat
     /\ Tee.out s = outs
     /\ (forall r, Tee.parent s = Tee.GotStatus r -> r = ret))
  /\ (forall sched s,
        Tee.exec sched (Tee.init outs errs ret) = Some s ->
        (length sched <= Tee.fuel (Tee.init outs errs ret))%nat)
  /\ (forall sched s,
        Tee.exec sched (Tee.init outs errs ret) = Some s ->
        (forall r, Tee.parent s <> Tee.GotStatus r) ->
        exists a s', Tee.step a s = Some s')
  /\ (exists sched s,
        Tee.exec sched (Tee.init outs errs ret) = Some s
        /\ Tee.parent s = Tee.GotStatus ret).
Proof.
  intros Ho He.
  assert (forall sched s,
            Tee.exec sched (Tee.init outs errs ret) = Some s ->
            Tee.tee_inv outs errs ret s) as Hinv.
  { intros sched s Hexec.
    exact (tee_exec_inv outs errs ret sched _ _ Ho He Hexec
             (tee_init_inv outs errs ret)). }
  split; [|split; [|split]].
  - intros sched s Hexec Hp. apply tee_inv_past_joins; [by eapply Hinv|done].
  - intros sched s Hexec. apply tee_exec_length in Hexec. lia.
  - intros sched s _ Hp. by apply tee_progress.
  - destruct (tee_terminates (Tee.fuel (Tee.init outs errs ret))
                (Tee.init outs errs ret) (le_n _)) as (sched & s & r & Hexec & Hr).
    exists sched, s. split; [done|].
    destruct (Hinv _ _ Hexec) as (_ & _ & _ & _ & _ & _ & Hret).
    by rewrite Hr, (Hret r Hr).
Qed.

Lemma tee_delivers_every_line_witness :
  let outs := demo_diff in
  let errs := ["WARNING! UUID is unsupported" +:+ PyStr.nl] in
  Forall (fun line => line <> "") outs
  /\ Forall (fun line => line <> "") errs
  /\ exists sched s,
       Tee.exec sched (Tee.init outs errs 2) = Some s
       /\ Tee.parent s = Tee.GotStatus 2.
Proof.
  cbv zeta.
  assert (Forall (fun line => line <> "") demo_diff) as Ho.
  { repeat constructor; discriminate. }
  assert (Forall (fun line => line <> "")
            ["WARNING! UUID is unsupported" +:+ PyStr.nl]) as He.
  { repeat constructor; discriminate. }
  split; [exact Ho|]. split; [exact He|].
  exact (proj2 (proj2 (proj2 (tee_delivers_every_line demo_diff
                                ["WARNING! UUID is unsupported" +:+ PyStr.nl] 2
                                Ho He)))).
Defined.

(** * Further properties of the script *)

(** ** How a run can end *)

Lemma check_cases cfg env (found : bool) msg st :
  if found then
    (if negb found then logging_log ERROR msg;; finish cfg env false
     else mret tt) st = (Ok tt, st)
  else
    exists st' rs,
      (if negb found then logging_log ERROR msg;; finish cfg env false
       else mret tt) st = (Raise (SystemExit 1), st')
      /\ continues st st' [] (error_record msg :: rs).
Proof.
  destruct found; cbn [negb]; [done|].
  rewrite bind_unfold, logging_log_unfold.
  match goal with |- context [finish cfg env false ?s] =>
    destruct (finish_continues cfg env false s) as (st' & rs & E & [C1 C2] & _)
  end.
  rewrite E. exists st', rs. split; [reflexivity|].
  cbn [with_log st_log st_spawned] in C1, C2. unfold continues.
  rewrite C1, C2, <- app_assoc. split; reflexivity.
Qed.

Lemma preflight_cases cfg env st :
  if preflight_ok cfg env then preflight cfg env st = (Ok tt, st)
  else exists st' msg rs,
         preflight cfg env st = (Raise (SystemExit 1), st')
         /\ continues st st' [] (error_record msg :: rs).
Proof.
  unfold preflight, preflight_ok.
  pose proof (check_cases cfg env (env_which env (snapraid_executable cfg))
                ("The configured snapraid executable " +:+ dq +:+ snapraid_executable cfg
                 +:+ dq +:+ " does not exist or is not a file") st) as H1.
  pose proof (check_cases cfg env (env_isfile env (snapraid_config cfg))
                ("Snapraid config does not exist at " +:+ snapraid_config cfg) st) as H2.
  pose proof (check_cases cfg env (env_which env (btrfs_executable cfg))
                ("Snapraid-btrfs executable does not exist at " +:+ btrfs_executable cfg) st)
    as H3.
  pose proof (check_cases cfg env (env_which env (snapper_executable cfg))
                ("Snapper executable does not exist at " +:+ snapper_executable cfg) st)
    as H4.
  rewrite bind_unfold.
  destruct (env_which env (snapraid_executable cfg)); cbn [andb].
  2:{ destruct H1 as (st' & rs & -> & C). by eexists _, _, _. }
  rewrite H1, bind_unfold.
  destruct (env_isfile env (snapraid_config cfg)); cbn [andb].
  2:{ destruct H2 as (st' & rs & -> & C). by eexists _, _, _. }
  rewrite H2, bind_unfold.
  destruct (env_which env (btrfs_executable cfg)); cbn [andb].
  2:{ destruct H3 as (st' & rs & -> & C). by eexists _, _, _. }
  rewrite H3.
  destruct (env_which env (snapper_executable cfg)); cbn [andb].
  2:{ destruct H4 as (st' & rs & -> & C). by eexists _, _, _. }
  exact H4.
Qed.

Lemma touch_stage_exact cfg env args st :
  let i := invocation_at cfg env (length (st_spawned st)) ("touch", [], args) in
  if snapraid_touch cfg then
    exists st' rs,
      touch_stage cfg env args st
      = (if inv_ret i =? 0 then Ok tt
         else Raise (CalledProcessError (inv_ret i) "snapraid-btrfs touch"), st')
      /\ continues st st' [i] rs
  else touch_stage cfg env args st = (Ok tt, st).
Proof.
  cbv zeta. unfold touch_stage. destruct (snapraid_touch cfg); [|done].
  rewrite bind_unfold, logging_log_unfold. rewrite bind_unfold, command_unfold.
  unfold child_of, invocation_of, status_allowed.
  cbn [with_log st_spawned existsb invocation_at inv_ret fst snd].
  rewrite orb_false_r.
  destruct (_ =? 0).
  - rewrite logging_log_unfold. eexists _, _. split; [reflexivity|].
    unfold continues. cbn. rewrite <- !app_assoc. split; reflexivity.
  - eexists _, _. split; [reflexivity|].
    unfold continues. cbn. rewrite <- !app_assoc. split; reflexivity.
Qed.

Lemma diff_stage_exact cfg env args st :
  let n := length (st_spawned st) in
  let p := env_popen env n (command_argv cfg "diff" [] args) in
  exists st' rs,
    diff_stage cfg env args st
    = (if status_allowed (proc_ret p) [2] then Ok (proc_stdout p)
       else Raise (CalledProcessError (proc_ret p) "snapraid-btrfs diff"), st')
    /\ continues st st' [invocation_at cfg env n ("diff", [], args)] rs.
Proof.
  cbv zeta. unfold diff_stage.
  rewrite bind_unfold, logging_log_unfold. rewrite bind_unfold, command_unfold.
  unfold child_of, invocation_of.
  cbn [with_log st_spawned invocation_at inv_ret fst snd].
  destruct (status_allowed _ _).
  - rewrite bind_unfold, logging_log_unfold. unfold_m.
    eexists _, _. split; [reflexivity|].
    unfold continues. cbn. rewrite <- !app_assoc. split; reflexivity.
  - eexists _, _. split; [reflexivity|].
    unfold continues. cbn. rewrite <- !app_assoc. split; reflexivity.
Qed.

Lemma spawn_touch_steps cfg env n :
  spawn_in_order cfg env n (touch_steps cfg)
  = if snapraid_touch cfg then
      ([invocation_at cfg env n ("touch", [], initial_args cfg)],
       inv_ret (invocation_at cfg env n ("touch", [], initial_args cfg)) =? 0)
    else ([], true).
Proof.
  unfold touch_steps. destruct (snapraid_touch cfg); [apply spawn_one|done].
Qed.

(** The touch step either succeeds, having spawned what [touch_steps]
    plans, or fails on its child. *)
Lemma touch_stage_outcome cfg env st :
  let n := length (st_spawned st) in
  (exists st' pre rs,
     touch_stage cfg env (initial_args cfg) st = (Ok tt, st')
     /\ continues st st' pre rs
     /\ spawn_in_order cfg env n (touch_steps cfg) = (pre, true))
  \/ (exists st' rs,
        let ti := invocation_at cfg env n ("touch", [], initial_args cfg) in
        touch_stage cfg env (initial_args cfg) st
        = (Raise (CalledProcessError (inv_ret ti) "snapraid-btrfs touch"), st')
        /\ continues st st' [ti] rs
        /\ snapraid_touch cfg = true /\ inv_ret ti <> 0).
Proof.
  cbv zeta. pose proof (touch_stage_exact cfg env (initial_args cfg) st) as H.
  cbv zeta in H. rewrite spawn_touch_steps.
  destruct (snapraid_touch cfg).
  - destruct H as (st' & rs & E & C).
    destruct (Z.eqb_spec (inv_ret (invocation_at cfg env (length (st_spawned st))
                                     ("touch", [], initial_args cfg))) 0) as [Hz|Hz].
    + left. by eexists _, _, _.
    + right. by eexists _, _.
  - left. exists st, [], []. split; [done|]. split; [apply continues_refl|done].
Qed.

(** [run] ends in one of the five ways of [RunShape]. *)
Lemma run_shape cfg env st :
  exists r st' invs rs,
    run cfg env st = (r, st')
    /\ continues st st' invs rs
    /\ RunShape cfg env (length (st_spawned st)) r invs.
Proof.
  unfold run, run_to_diff. rewrite bind_unfold.
  rewrite bind_unfold, logging_log_unfold.
  rewrite bind_unfold, logging_log_unfold.
  rewrite bind_unfold, logging_log_unfold. rewrite bind_unfold.
  match goal with |- context [preflight cfg env ?s] =>
    pose proof (preflight_cases cfg env s) as Hpre; set (st0 := s) in *
  end.
  assert (exists rs0, continues st st0 [] rs0) as [rs0 C0].
  { eexists. unfold continues, st0. cbn. rewrite app_nil_r, <- !app_assoc.
    split; reflexivity. }
  assert (length (st_spawned st0) = length (st_spawned st)) as Hn0 by done.
  destruct (preflight_ok cfg env) eqn:Hok.
  2:{ destruct Hpre as (st' & msg & rs & E & C). rewrite E.
      eexists _, _, _, _. split; [reflexivity|]. split; [chain|].
      by apply shape_preflight. }
  rewrite Hpre. rewrite bind_unfold.
  destruct (touch_stage_outcome cfg env st0)
    as [(st1 & pre & rs1 & E1 & C1 & Hpre1)|(st1 & rs1 & E1 & C1 & Ht & Hret)];
    cbv zeta in *; rewrite Hn0 in *; rewrite E1.
  2:{ eexists _, _, _, _. split; [reflexivity|]. split; [chain|].
      cbn [app]. by eapply shape_touch_failed. }
  rewrite bind_unfold.
  destruct (diff_stage_exact cfg env (initial_args cfg) st1) as (st2 & rs2 & E2 & C2).
  cbv zeta in E2, C2.
  assert (length (st_spawned st1) = (length (st_spawned st) + length pre)%nat) as Hn1.
  { rewrite (continues_length _ _ _ _ C1). by rewrite Hn0. }
  rewrite Hn1 in E2, C2. rewrite E2.
  fold (diff_child cfg env (length (st_spawned st) + length pre)) in *.
  set (di := invocation_at cfg env (length (st_spawned st) + length pre)
               ("diff", [], initial_args cfg)) in *.
  destruct (status_allowed (proc_ret (diff_child cfg env _)) [2]) eqn:Hallow.
  2:{ eexists _, _, _, _. split; [reflexivity|]. split; [chain|].
      cbn [app]. by apply (shape_diff_failed cfg env _ pre di). }
  set (diff_out := proc_stdout (diff_child cfg env _)) in *.
  rewrite bind_unfold.
  destruct (report_diff_spec diff_out st2) as [rs3 E3]. rewrite E3.
  unfold mret at 1, M_ret at 1. unfold run_from_guard.
  rewrite bind_unfold.
  destruct (threshold_check_spec cfg env diff_out (with_log st2 rs3))
    as (st4 & rs4 & E4 & C4 & Hsame).
  rewrite E4.
  destruct (guard_trips cfg diff_out) eqn:Hguard.
  { eexists _, _, _, _. split; [reflexivity|]. split; [chain|].
    rewrite ?app_nil_r. cbn [app]. rewrite ?app_nil_r. by apply (shape_guard_tripped cfg env _ pre di). }
  rewrite (Hsame eq_refl) in *. clear Hsame.
  rewrite bind_unfold.
  destruct (sync_stage_spec cfg env diff_out (initial_args cfg) (with_log st2 rs3))
    as (st5 & rs5 & E5 & C5 & _).
  cbv zeta in E5, C5. cbn [with_log st_spawned] in E5, C5.
  assert (length (st_spawned st2)
          = (length (st_spawned st) + length pre + 1)%nat) as Hn2.
  { rewrite (continues_length _ _ _ _ C2), Hn1. done. }
  rewrite Hn2 in E5, C5. fold (sync_steps cfg diff_out) in E5, C5.
  rewrite E5.
  pose proof (spawn_in_order_app cfg env (sync_steps cfg diff_out)
                (length (st_spawned st) + length pre + 1)
                (later_steps cfg env (initial_args cfg))) as Happ.
  set (P := spawn_in_order cfg env _ (sync_steps cfg diff_out)) in *.
  destruct P.2 eqn:HP.
  2:{ eexists _, _, _, _. split; [reflexivity|]. split; [chain|].
      rewrite ?app_nil_r. cbn [app]. rewrite ?app_nil_r.
      apply (shape_steps cfg env _ pre di P.1 false);
        first [done | rewrite Happ; by rewrite ?HP]. }
  destruct (run_after_sync_spec cfg env (initial_args cfg) st5) as (st6 & rs6 & E6 & C6).
  cbv zeta in E6, C6.
  assert (length (st_spawned st5)
          = (length (st_spawned st) + length pre + 1 + length P.1)%nat) as Hn5.
  { rewrite (continues_length _ _ _ _ C5). cbn [with_log st_spawned]. by rewrite Hn2. }
  rewrite Hn5 in E6, C6.
  set (Q := spawn_in_order cfg env _ (later_steps cfg env (initial_args cfg))) in *.
  fold (run_after_sync cfg env (initial_args cfg)). rewrite E6.
  eexists _, _, _, _. split; [reflexivity|]. split; [chain|].
  rewrite ?app_nil_r. cbn [app]. rewrite ?app_nil_r.
  apply (shape_steps cfg env _ pre di (P.1 ++ Q.1) Q.2);
    first [done | rewrite Happ; by rewrite ?HP].
Qed.

(** [main] turns every end of [run] into an exit status: an error that
    [run] lets escape is logged with its traceback before [finish]. *)
Lemma main_shape cfg env st :
  exists r st' invs rs,
    fst (run cfg env st) = r
    /\ main cfg env st = (Raise (SystemExit (main_status r)), st')
    /\ continues st st' invs rs
    /\ RunShape cfg env (length (st_spawned st)) r invs
    /\ (forall ret cmd, r = Raise (CalledProcessError ret cmd) ->
          In (caught_record "Run failed due to unexpected exception:"
                (CalledProcessError ret cmd)) rs).
Proof.
  destruct (run_shape cfg env st) as (r & st1 & invs & rs & E & C & S).
  unfold main, try_except. rewrite E. cbn [fst].
  inversion S; subst; cbn [is_Exception main_status].
  - exists (Raise (SystemExit 1)), st1, [], rs.
    split; [done|]. split; [done|]. split; [exact C|]. split; [exact S|done].
  - rewrite bind_unfold. unfold logging_exception at 1, emit at 1.
    match goal with |- context [finish cfg env false ?s] =>
      destruct (finish_continues cfg env false s) as (st2 & rs2 & Ef & [C1 C2] & _)
    end.
    rewrite Ef. cbn [st_log st_spawned] in C1, C2. destruct C as [C3 C4].
    eexists _, st2, _, _. split; [reflexivity|]. split; [reflexivity|].
    split; [|split; [exact S|]].
    + unfold continues. rewrite C1, C2, C3, C4, app_nil_r, <- !app_assoc.
      split; reflexivity.
    + intros ret cmd [= <- <-]. apply in_or_app. right. by left.
  - rewrite bind_unfold. unfold logging_exception at 1, emit at 1.
    match goal with |- context [finish cfg env false ?s] =>
      destruct (finish_continues cfg env false s) as (st2 & rs2 & Ef & [C1 C2] & _)
    end.
    rewrite Ef. cbn [st_log st_spawned] in C1, C2. destruct C as [C3 C4].
    eexists _, st2, _, _. split; [reflexivity|]. split; [reflexivity|].
    split; [|split; [exact S|]].
    + unfold continues. rewrite C1, C2, C3, C4, app_nil_r, <- !app_assoc.
      split; reflexivity.
    + intros ret cmd [= <- <-]. apply in_or_app. right. by left.
  - eexists _, st1, _, rs.
    split; [done|]. split; [done|]. split; [exact C|]. split; [exact S|done].
  - eexists _, st1, _, rs.
    split; [done|]. split; [done|]. split; [exact C|]. split; [exact S|done].
Qed.

(** X1.  Whatever the configuration and the outside world, [main] ends
    by [SystemExit] with status 0 or 1: no error of a child escapes it,
    and it never returns normally. *)
Theorem main_exits_zero_or_one cfg env st :
  exists code st',
    main cfg env st = (Raise (SystemExit code), st')
    /\ (code = 0 \/ code = 1)
    /\ process_exit_code (fst (main cfg env st)) = code.
Proof.
  destruct (main_shape cfg env st) as (r & st' & invs & rs & _ & E & _ & S & _).
  exists (main_status r), st'. rewrite E. split; [done|]. split; [|done].
  inversion S; subst; cbn [main_status]; auto.
  destruct ok; auto.
Qed.

(** X2.  When one of the four existence checks fails (snapraid
    executable, snapraid config file, snapraid-btrfs executable, snapper
    executable), the run logs an error, spawns no child and ends with
    status 1. *)
Theorem failed_preflight_spawns_nothing cfg env st :
  preflight_ok cfg env = false ->
  exists st' msg,
    main cfg env st = (Raise (SystemExit 1), st')
    /\ st_spawned st' = st_spawned st
    /\ In (error_record msg) (st_log st').
Proof.
  intros Hok.
  unfold main, try_except, run, run_to_diff. rewrite bind_unfold.
  rewrite bind_unfold, logging_log_unfold.
  rewrite bind_unfold, logging_log_unfold.
  rewrite bind_unfold, logging_log_unfold. rewrite bind_unfold.
  match goal with |- context [preflight cfg env ?s] =>
    pose proof (preflight_cases cfg env s) as Hpre
  end.
  rewrite Hok in Hpre. destruct Hpre as (st' & msg & rs & E & [C1 C2]).
  rewrite E. cbn [is_Exception]. exists st', msg. split; [done|].
  cbn [with_log st_spawned st_log] in C1, C2.
  split; [by rewrite C1, app_nil_r|].
  rewrite C2. apply in_or_app. right. by left.
Qed.

Lemma failed_preflight_spawns_nothing_witness :
  let cfg := demo_cfg 5 "80" in
  let env := demo_world ["/usr/bin/snapper"] 2 demo_diff "" in
  preflight_ok cfg env = false
  /\ exists st' msg,
       main cfg env init_state = (Raise (SystemExit 1), st')
       /\ st_spawned st' = []
       /\ In (error_record msg) (st_log st').
Proof.
  cbv zeta. split; [reflexivity|].
  exact (failed_preflight_spawns_nothing (demo_cfg 5 "80")
           (demo_world ["/usr/bin/snapper"] 2 demo_diff "") init_state eq_refl).
Defined.

Lemma touch_steps_true cfg env n pre :
  snapraid_touch cfg = true ->
  spawn_in_order cfg env n (touch_steps cfg) = (pre, true) ->
  inv_ret (invocation_at cfg env n ("touch", [], initial_args cfg)) = 0.
Proof.
  intros Ht. rewrite spawn_touch_steps, Ht. intros [= _ H]. by apply Z.eqb_eq.
Qed.

(** X3.  A touch child that leaves with a non-zero status is not handled
    at the step: the error reaches the handler of [main], which logs it
    as an unexpected exception; the run ends with status 1 and the touch
    child is the only child of the run. *)
Theorem failed_touch_reaches_main_handler cfg env st :
  preflight_ok cfg env = true ->
  snapraid_touch cfg = true ->
  let ti := invocation_at cfg env (length (st_spawned st))
              ("touch", [], initial_args cfg) in
  inv_ret ti <> 0 ->
  exists st',
    main cfg env st = (Raise (SystemExit 1), st')
    /\ st_spawned st' = st_spawned st ++ [ti]
    /\ In (caught_record "Run failed due to unexpected exception:"
             (CalledProcessError (inv_ret ti) "snapraid-btrfs touch"))
         (st_log st').
Proof.
  intros Hok Ht ti Hret.
  destruct (main_shape cfg env st) as (r & st' & invs & rs & _ & E & [C1 C2] & S & Hlog).
  inversion S as [Hno|ti' _ _ -> _|pre di _ Hpre _ _|pre di _ Hpre _ _ _
                 |pre di post ok _ Hpre _ _ _ _]; subst.
  - congruence.
  - exists st'. split; [exact E|]. split; [exact C1|].
    rewrite C2. apply in_or_app. right. by apply Hlog.
  - by apply (touch_steps_true _ _ _ _ Ht) in Hpre.
  - by apply (touch_steps_true _ _ _ _ Ht) in Hpre.
  - by apply (touch_steps_true _ _ _ _ Ht) in Hpre.
Qed.

Lemma failed_touch_reaches_main_handler_witness :
  let cfg := demo_cfg 5 "80" in
  let env := demo_world [] 2 demo_diff "touch" in
  preflight_ok cfg env = true
  /\ snapraid_touch cfg = true
  /\ exists st',
       main cfg env init_state = (Raise (SystemExit 1), st')
       /\ map inv_command (st_spawned st') = ["touch"]
       /\ In (caught_record "Run failed due to unexpected exception:"
                (CalledProcessError 1 "snapraid-btrfs touch")) (st_log st').
Proof.
  cbv zeta. split; [reflexivity|]. split; [reflexivity|].
  assert (inv_ret (invocation_at (demo_cfg 5 "80")
                     (demo_world [] 2 demo_diff "touch")
                     (length (st_spawned init_state))
                     ("touch", [], initial_args (demo_cfg 5 "80"))) <> 0) as Hret.
  { vm_compute. discriminate. }
  destruct (failed_touch_reaches_main_handler (demo_cfg 5 "80")
              (demo_world [] 2 demo_diff "touch") init_state eq_refl eq_refl Hret)
    as (st' & E & Hs & Hlog).
  exists st'. split; [exact E|]. split; [by rewrite Hs|exact Hlog].
Defined.

(** X4.  A diff child that leaves with a status other than 0 and 2 is
    not handled at the step either: after the touch step has succeeded
    (or is disabled), the error reaches the handler of [main] and is
    logged as an unexpected exception; the run ends with status 1 and no
    child is spawned after the diff. *)
Theorem failed_diff_reaches_main_handler cfg env st pre :
  preflight_ok cfg env = true ->
  spawn_in_order cfg env (length (st_spawned st)) (touch_steps cfg) = (pre, true) ->
  let di := invocation_at cfg env (length (st_spawned st) + length pre)
              ("diff", [], initial_args cfg) in
  inv_ret di <> 0 -> inv_ret di <> 2 ->
  exists st',
    main cfg env st = (Raise (SystemExit 1), st')
    /\ st_spawned st' = st_spawned st ++ pre ++ [di]
    /\ In (caught_record "Run failed due to unexpected exception:"
             (CalledProcessError (inv_ret di) "snapraid-btrfs diff"))
         (st_log st').
Proof.
  intros Hok Hpre di H0 H2.
  assert (status_allowed (inv_ret di) [2] = false) as Hallow.
  { apply not_true_is_false. rewrite status_allowed_spec. cbn [In].
    intros [?|[?|[]]]; congruence. }
  destruct (main_shape cfg env st) as (r & st' & invs & rs & _ & E & [C1 C2] & S & Hlog).
  inversion S as [Hno|ti' _ Ht -> Hti|pre' di' _ Hpre' -> _|pre' di' _ Hpre' -> Ha _
                 |pre' di' post ok _ Hpre' -> Ha _ _]; subst.
  - congruence.
  - pose proof (touch_steps_true _ _ _ _ Ht Hpre). done.
  - rewrite Hpre in Hpre'. injection Hpre' as <-.
    exists st'. split; [exact E|]. split; [exact C1|].
    rewrite C2. apply in_or_app. right. by apply Hlog.
  - rewrite Hpre in Hpre'. injection Hpre' as <-. fold di in Ha. congruence.
  - rewrite Hpre in Hpre'. injection Hpre' as <-. fold di in Ha. congruence.
Qed.

Lemma failed_diff_reaches_main_handler_witness :
  let cfg := demo_cfg 5 "80" in
  let env := demo_world [] 1 [] "" in
  exists pre st',
    preflight_ok cfg env = true
    /\ spawn_in_order cfg env 0 (touch_steps cfg) = (pre, true)
    /\ main cfg env init_state = (Raise (SystemExit 1), st')
    /\ map inv_command (st_spawned st') = ["touch"; "diff"].
Proof.
  cbv zeta.
  exists (spawn_in_order (demo_cfg 5 "80") (demo_world [] 1 [] "") 0
            (touch_steps (demo_cfg 5 "80"))).1.
  assert (spawn_in_order (demo_cfg 5 "80") (demo_world [] 1 [] "")
            (length (st_spawned init_state)) (touch_steps (demo_cfg 5 "80"))
          = ((spawn_in_order (demo_cfg 5 "80") (demo_world [] 1 [] "") 0
                (touch_steps (demo_cfg 5 "80"))).1, true)) as Hpre.
  { vm_compute. reflexivity. }
  destruct (failed_diff_reaches_main_handler (demo_cfg 5 "80")
              (demo_world [] 1 [] "") init_state _ eq_refl Hpre)
    as (st' & E & Hs & _).
  { vm_compute. discriminate. }
  { vm_compute. discriminate. }
  exists st'. split; [reflexivity|]. split; [exact Hpre|]. split; [exact E|].
  rewrite Hs. vm_compute. reflexivity.
Defined.

Lemma sync_steps_commands cfg diff_out :
  map (fun s : Step => s.1.1) (sync_steps cfg diff_out)
  = if total_changes diff_out =? 0 then [] else ["sync"].
Proof. unfold sync_steps. by destruct (_ =? 0). Qed.

Lemma touch_steps_commands cfg :
  map (fun s : Step => s.1.1) (touch_steps cfg)
  = if snapraid_touch cfg then ["touch"] else [].
Proof. unfold touch_steps. by destruct (snapraid_touch cfg). Qed.

Lemma guard_trips_false cfg diff_out :
  guard_trips cfg diff_out = false ->
  ~ (0 <= snapraid_deletethreshold cfg
     /\ snapraid_deletethreshold cfg < count_lines (starts_field "remove") diff_out).
Proof.
  unfold guard_trips. rewrite <- (count_kind_starts _ _ kind_remove).
  intros H [H0 H1]. apply Z.leb_le in H0. apply Z.ltb_lt in H1.
  by rewrite H0, H1 in H.
Qed.

Lemma guard_trips_true cfg diff_out :
  guard_trips cfg diff_out = true ->
  0 <= snapraid_deletethreshold cfg
  /\ snapraid_deletethreshold cfg < count_lines (starts_field "remove") diff_out.
Proof.
  unfold guard_trips. rewrite <- (count_kind_starts _ _ kind_remove).
  intros H. apply andb_true_iff in H as [H0 H1].
  apply Z.leb_le in H0. apply Z.ltb_lt in H1. done.
Qed.

(** X5.  A run that ends with status 0 has passed the four existence
    checks and has spawned, in this order and each with success: touch
    when enabled, diff (status 0 or 2), sync when the diff shows a
    change, and every enabled step among pool, cleanup and scrub; and
    the delete threshold was not exceeded. *)
Theorem success_means_every_step_ran cfg env st :
  fst (main cfg env st) = Raise (SystemExit 0) ->
  exists pre di post,
    st_spawned (snd (main cfg env st)) = st_spawned st ++ pre ++ [di] ++ post
    /\ preflight_ok cfg env = true
    /\ map inv_command pre = (if snapraid_touch cfg then ["touch"] else [])
    /\ inv_command di = "diff"
    /\ (inv_ret di = 0 \/ inv_ret di = 2)
    /\ Forall (fun i => inv_ret i = 0) (pre ++ post)
    /\ let diff_out :=
         proc_stdout (diff_child cfg env (length (st_spawned st) + length pre)) in
       ~ (0 <= snapraid_deletethreshold cfg
          /\ snapraid_deletethreshold cfg
             < count_lines (starts_field "remove") diff_out)
       /\ map inv_command post
          = (if total_changes diff_out =? 0 then [] else ["sync"])
            ++ enabled_steps cfg.
Proof.
  intros Hzero.
  destruct (main_shape cfg env st) as (r & st' & invs & rs & _ & E & [C1 _] & S & _).
  rewrite E in Hzero. rewrite E. cbn [fst snd] in *.
  inversion S as [Hno|ti' _ Ht -> Hti|pre di _ Hpre -> _|pre di _ Hpre -> Ha _
                 |pre di post ok Hok Hpre -> Ha Hg Hpost]; subst;
    cbn [main_status] in Hzero; try discriminate Hzero.
  destruct ok; [|discriminate Hzero].
  exists pre, (invocation_at cfg env (length (st_spawned st) + length pre)
                 ("diff", [], initial_args cfg)), post.
  split; [exact C1|]. split; [exact Hok|].
  pose proof (spawn_in_order_ok cfg env (touch_steps cfg) (length (st_spawned st)))
    as Htouch.
  rewrite Hpre in Htouch. destruct (Htouch eq_refl) as [Tc Tz].
  pose proof (spawn_in_order_ok cfg env
                (sync_steps cfg (proc_stdout
                   (diff_child cfg env (length (st_spawned st) + length pre)))
                 ++ later_steps cfg env (initial_args cfg))
                (length (st_spawned st) + length pre + 1)) as Hlater.
  rewrite Hpost in Hlater. destruct (Hlater eq_refl) as [Lc Lz].
  cbn [fst] in *.
  split; [by rewrite Tc, touch_steps_commands|]. split; [done|].
  split.
  { apply status_allowed_spec in Ha. cbn [In] in Ha.
    destruct Ha as [?|[?|[]]]; [by left|by right]. }
  split; [by apply Forall_app|].
  cbv zeta. split; [by apply guard_trips_false|].
  by rewrite Lc, map_app, sync_steps_commands, later_steps_commands.
Qed.

Lemma success_means_every_step_ran_witness :
  let cfg := demo_cfg 5 "80" in
  let env := demo_world [] 2 demo_diff "" in
  fst (main cfg env init_state) = Raise (SystemExit 0)
  /\ exists pre di post,
       st_spawned (snd (main cfg env init_state)) = pre ++ [di] ++ post
       /\ map inv_command (pre ++ [di] ++ post)
          = ["touch"; "diff"; "sync"; "pool"; "cleanup"; "scrub"].
Proof.
  cbv zeta.
  assert (fst (main (demo_cfg 5 "80") (demo_world [] 2 demo_diff "") init_state)
          = Raise (SystemExit 0)) as H.
  { vm_compute. reflexivity. }
  split; [exact H|].
  destruct (success_means_every_step_ran _ _ _ H)
    as (pre & di & post & Hs & _).
  exists pre, di, post. split; [exact Hs|].
  change (pre ++ [di] ++ post)
    with (st_spawned init_state ++ pre ++ [di] ++ post).
  rewrite <- Hs. vm_compute. reflexivity.
Defined.

(** *** The order of the commands *)

Lemma enabled_steps_sublist cfg :
  enabled_steps cfg `sublist_of` ["pool"; "cleanup"; "scrub"].
Proof.
  unfold enabled_steps.
  destruct (btrfs_pool cfg), (btrfs_cleanup cfg), (scrub_enabled cfg);
    cbn [app]; eauto 8 using sublist.
Qed.

Lemma shape_commands_in_order cfg env n r invs :
  RunShape cfg env n r invs ->
  map inv_command invs `sublist_of` command_order.
Proof.
  assert (forall pre, spawn_in_order cfg env n (touch_steps cfg) = (pre, true) ->
            map inv_command pre `sublist_of` ["touch"]) as Htouch.
  { intros pre Hpre.
    pose proof (spawn_in_order_ok cfg env (touch_steps cfg) n) as H.
    rewrite Hpre in H. destruct (H eq_refl) as [E _]. cbn [fst] in E.
    rewrite E, touch_steps_commands. destruct (snapraid_touch cfg); eauto using sublist. }
  unfold command_order.
  intros S. inversion S as [Hno|ti' _ Ht -> Hti|pre di _ Hpre -> _|pre di _ Hpre -> Ha _
                           |pre di post ok Hok Hpre -> Ha Hg Hpost]; subst.
  - apply sublist_nil_l.
  - cbn. eauto 8 using sublist.
  - rewrite map_app.
    apply (sublist_app _ ["touch"] _ ["diff"; "sync"; "pool"; "cleanup"; "scrub"]);
      [by apply Htouch|]. cbn. eauto 8 using sublist.
  - rewrite map_app.
    apply (sublist_app _ ["touch"] _ ["diff"; "sync"; "pool"; "cleanup"; "scrub"]);
      [by apply Htouch|]. cbn. eauto 8 using sublist.
  - rewrite map_app.
    apply (sublist_app _ ["touch"] _ ["diff"; "sync"; "pool"; "cleanup"; "scrub"]);
      [by apply Htouch|].
    cbn [map app inv_command invocation_at fst]. apply sublist_skip || constructor.
    pose proof (spawn_in_order_prefix cfg env
                  (sync_steps cfg (proc_stdout (diff_child cfg env (n + length pre)))
                   ++ later_steps cfg env (initial_args cfg))
                  (n + length pre + 1)) as [rest Hrest].
    rewrite Hpost in Hrest. cbn [fst] in Hrest.
    rewrite map_app, sync_steps_commands, later_steps_commands in Hrest.
    trans (map inv_command post ++ rest); [by apply sublist_inserts_r|].
    rewrite <- Hrest.
    apply (sublist_app _ ["sync"] _ ["pool"; "cleanup"; "scrub"]);
      [|apply enabled_steps_sublist].
    destruct (_ =? 0); eauto using sublist.
Qed.

(** X6.  Whatever happens, the commands of a run are spawned in the
    order touch, diff, sync, pool, cleanup, scrub, each at most once:
    the commands of the children of a run form a sublist of that
    sequence. *)
Theorem commands_run_in_fixed_order cfg env st :
  exists invs,
    st_spawned (snd (main cfg env st)) = st_spawned st ++ invs
    /\ map inv_command invs `sublist_of` command_order
    /\ NoDup (map inv_command invs).
Proof.
  destruct (main_shape cfg env st) as (r & st' & invs & rs & _ & E & [C1 _] & S & _).
  rewrite E. cbn [snd]. exists invs. split; [exact C1|].
  pose proof (shape_commands_in_order _ _ _ _ _ S) as Hsub.
  split; [exact Hsub|].
  refine (sublist_NoDup _ _ _ Hsub).
  apply (bool_decide_unpack _). by vm_compute.
Qed.

(** *** When the sync runs *)

Lemma spawn_in_order_commands_in cfg env plan n c :
  In c (map inv_command (spawn_in_order cfg env n plan).1) ->
  In c (map (fun s : Step => s.1.1) plan).
Proof.
  intros H. destruct (spawn_in_order_prefix cfg env plan n) as [rest ->].
  apply in_or_app. by left.
Qed.

Lemma sync_not_in_touch cfg env n :
  ~ In "sync" (map inv_command (spawn_in_order cfg env n (touch_steps cfg)).1).
Proof.
  intros H. apply spawn_in_order_commands_in in H.
  rewrite touch_steps_commands in H.
  destruct (snapraid_touch cfg); cbn [In] in H; intuition discriminate.
Qed.

Lemma sync_not_enabled_step cfg : ~ In "sync" (enabled_steps cfg).
Proof.
  unfold enabled_steps.
  destruct (btrfs_pool cfg), (btrfs_cleanup cfg), (scrub_enabled cfg);
    cbn [app In]; intuition discriminate.
Qed.

(** X7.  The sync is spawned in a run exactly when the four existence
    checks pass, the touch (if enabled) succeeds, the diff leaves with
    status 0 or 2, the number of removals does not exceed a non-negative
    delete threshold, and the diff shows at least one change. *)
Theorem sync_runs_exactly_when_due cfg env st :
  let n := length (st_spawned st) in
  let pre := (spawn_in_order cfg env n (touch_steps cfg)).1 in
  let d := diff_child cfg env (n + length pre) in
  exists invs,
    st_spawned (snd (main cfg env st)) = st_spawned st ++ invs
    /\ (In "sync" (map inv_command invs) <->
        preflight_ok cfg env = true
        /\ Forall (fun i => inv_ret i = 0) pre
        /\ (proc_ret d = 0 \/ proc_ret d = 2)
        /\ ~ (0 <= snapraid_deletethreshold cfg
              /\ snapraid_deletethreshold cfg
                 < count_lines (starts_field "remove") (proc_stdout d))
        /\ total_changes (proc_stdout d) <> 0).
Proof.
  cbv zeta.
  destruct (main_shape cfg env st) as (r & st' & invs & rs & _ & E & [C1 _] & S & _).
  rewrite E. cbn [snd]. exists invs. split; [exact C1|].
  set (n := length (st_spawned st)) in *.
  pose proof (sync_not_in_touch cfg env n) as Hnt.
  assert (forall v : Z, status_allowed v [2] = true <-> v = 0 \/ v = 2) as Hallow.
  { intros v. rewrite status_allowed_spec. cbn [In]. intuition congruence. }
  inversion S as [Hno|ti' _ Ht -> Hti|pre di _ Hpre -> Hna|pre di _ Hpre -> Ha Hg
                 |pre di post ok Hok Hpre -> Ha Hg Hpost]; subst.
  - split; [intros []|]. intros (H & _). congruence.
  - split.
    { cbn [map In inv_command invocation_at fst]. intuition discriminate. }
    intros (_ & Hz & _). exfalso. unfold touch_steps in Hz. rewrite Ht in Hz.
    cbn [spawn_in_order] in Hz.
    destruct (_ =? 0) in Hz; cbn [fst] in Hz;
      apply Forall_cons in Hz as [Hz _]; by apply Hti.
  - rewrite Hpre in *. cbn [fst] in *. split.
    { rewrite map_app, in_app_iff. cbn [map In inv_command invocation_at fst].
      intuition discriminate. }
    intros (_ & _ & Hd & _). exfalso. apply Hallow in Hd.
    unfold diff_child in Hd. cbn [inv_ret invocation_at fst snd] in Hna.
    by rewrite Hd in Hna.
  - rewrite Hpre in *. cbn [fst] in *. split.
    { rewrite map_app, in_app_iff. cbn [map In inv_command invocation_at fst].
      intuition discriminate. }
    intros (_ & _ & _ & Hng & _). exfalso. apply Hng. by apply guard_trips_true.
  - rewrite Hpre in *. cbn [fst] in *.
    set (d := diff_child cfg env (n + length pre)) in *.
    pose proof (spawn_in_order_commands_in cfg env
                  (sync_steps cfg (proc_stdout d)
                   ++ later_steps cfg env (initial_args cfg))
                  (n + length pre + 1) "sync") as Hin.
    rewrite Hpost in Hin. cbn [fst] in Hin.
    rewrite map_app, sync_steps_commands, later_steps_commands in Hin.
    split.
    + rewrite !map_app, !in_app_iff. cbn [map In inv_command invocation_at fst].
      intros [H|[[H|[]]|H]]; [done|discriminate|].
      specialize (Hin H). split; [done|].
      pose proof (spawn_in_order_ok cfg env (touch_steps cfg) n) as Hz.
      rewrite Hpre in Hz. destruct (Hz eq_refl) as [_ Hz'].
      split; [exact Hz'|]. split; [by apply Hallow|].
      split; [by apply guard_trips_false|].
      intros Hzero. apply Z.eqb_eq in Hzero. rewrite Hzero in Hin.
      by apply (sync_not_enabled_step cfg).
    + intros (_ & _ & _ & _ & Hch). apply Z.eqb_neq in Hch.
      unfold sync_steps in Hpost. rewrite Hch in Hpost. cbn [app] in Hpost.
      cbn [spawn_in_order] in Hpost.
      rewrite !map_app, !in_app_iff. right. right.
      destruct (_ =? 0) in Hpost;
        [destruct (spawn_in_order _ _ _ _) in Hpost|];
        injection Hpost as <- _; by left.
Qed.

(** *** The shared dictionary without the pool step *)

(** X8.  With the pool step disabled, the dictionary shared by the calls
    of a run is never extended: every child of the run is spawned with
    the dictionary as first filled, which has no [pool-dir] key, whatever
    pool directory the configuration names. *)
Theorem disabled_pool_passes_no_pool_dir cfg env st :
  btrfs_pool cfg = false ->
  exists invs,
    st_spawned (snd (run cfg env st)) = st_spawned st ++ invs
    /\ Forall (fun i => exists sa,
                 inv_argv i
                 = command_argv cfg (inv_command i) sa (initial_args cfg)) invs
    /\ ~ In "pool-dir" (map fst (initial_args cfg)).
Proof.
  intros Hpool.
  destruct (run_invocations cfg env st) as (r & st' & invs & rs & E & [C1 _] & F).
  rewrite E. cbn [snd]. exists invs. split; [exact C1|].
  split; [|apply initial_args_no_pool_dir].
  eapply Forall_impl; [exact F|].
  intros i (k & s & Hin & ->).
  assert (s.2 = initial_args cfg) as Hs.
  { unfold all_steps, later_steps, pool_args in Hin. rewrite Hpool in Hin.
    cbn [andb app In] in Hin.
    destruct (btrfs_cleanup cfg), (scrub_enabled cfg); cbn [app In] in Hin;
      repeat (destruct Hin as [<-|Hin]; [done|]); destruct Hin. }
  exists s.1.2. cbn [invocation_at inv_argv inv_command]. by rewrite Hs.
Qed.

Lemma disabled_pool_passes_no_pool_dir_witness :
  let cfg := with_pool false (demo_cfg 5 "80") in
  btrfs_pool_dir cfg = "/mnt/pool"
  /\ exists invs,
       st_spawned (snd (run cfg (demo_world [] 2 demo_diff "") init_state))
       = st_spawned init_state ++ invs
       /\ Forall (fun i => exists sa,
                    inv_argv i
                    = command_argv cfg (inv_command i) sa (initial_args cfg)) invs
       /\ ~ In "pool-dir" (map fst (initial_args cfg)).
Proof.
  cbv zeta. split; [reflexivity|].
  apply (disabled_pool_passes_no_pool_dir (with_pool false (demo_cfg 5 "80"))).
  reflexivity.
Defined.

(** *** A failing step *)

Lemma append_assoc s1 s2 s3 : (s1 +:+ s2) +:+ s3 = s1 +:+ s2 +:+ s3.
Proof.
  induction s1 as [|a s1 IH]; [done|]. by rewrite !append_cons, IH.
Qed.

(** X9.  The handler around the sync, pool, cleanup and scrub commands:
    when the child leaves with a non-zero status, the error is logged as
    [str(e)] (for a positive status, the command name and the status),
    [finish(False)] runs, so that the last line logged is the status line
    of a failed run, and the step ends the program with status 1. *)
Theorem guarded_failure_is_logged cfg env c sa ba st :
  let i := invocation_at cfg env (length (st_spawned st)) (c, sa, ba) in
  inv_ret i <> 0 ->
  exists st' rs,
    try_except_cpe
      (snapraid_btrfs_command cfg env c sa ba [];; mret tt)
      (abort_on_error cfg env) st
    = (Raise (SystemExit 1), st')
    /\ continues st st' [i] rs
    /\ In (error_record
             (exn_str env (CalledProcessError (inv_ret i) ("snapraid-btrfs " +:+ c))))
          rs
    /\ (0 < inv_ret i ->
        exn_str env (CalledProcessError (inv_ret i) ("snapraid-btrfs " +:+ c))
        = "Command 'snapraid-btrfs " +:+ c +:+ "' returned non-zero exit status "
          +:+ pretty (inv_ret i) +:+ ".")
    /\ last rs = Some (status_record false).
Proof.
  cbv zeta. intros Hret.
  unfold try_except_cpe. rewrite bind_unfold, command_unfold.
  rewrite invocation_of_at. unfold child_of, status_allowed.
  cbn [existsb orb]. rewrite orb_false_r.
  change (proc_ret (env_popen env (length (st_spawned st)) (command_argv cfg c sa ba)))
    with (inv_ret (invocation_at cfg env (length (st_spawned st)) (c, sa, ba))).
  set (i := invocation_at cfg env (length (st_spawned st)) (c, sa, ba)) in *.
  destruct (Z.eqb_spec (inv_ret i) 0) as [?|_]; [done|].
  unfold abort_on_error. rewrite bind_unfold, logging_log_unfold.
  match goal with |- context [finish cfg env false ?s] =>
    destruct (finish_spec cfg env false s) as (rs1 & ms & rs2 & ps & Ef & _)
  end.
  rewrite Ef. eexists _, _. split; [reflexivity|].
  split; [|split; [|split]].
  - unfold continues.
    cbn [with_log with_posts with_mails after_command st_log st_spawned].
    split; [reflexivity|]. rewrite <- !app_assoc. reflexivity.
  - apply in_or_app. right. by left.
  - intros Hpos. unfold exn_str.
    destruct (Z.ltb_spec (inv_ret i) 0) as [?|_]; [lia|].
    by rewrite append_assoc.
  - by rewrite !app_assoc, last_snoc.
Qed.

Lemma guarded_failure_is_logged_witness :
  let cfg := demo_cfg 5 "80" in
  let env := demo_world [] 2 demo_diff "cleanup" in
  exists st' rs,
    try_except_cpe
      (snapraid_btrfs_command cfg env "cleanup" [] (initial_args cfg) [];; mret tt)
      (abort_on_error cfg env) init_state
    = (Raise (SystemExit 1), st')
    /\ In (error_record
             "Command 'snapraid-btrfs cleanup' returned non-zero exit status 1.") rs
    /\ st_log st' = rs.
Proof.
  cbv zeta.
  destruct (guarded_failure_is_logged (demo_cfg 5 "80")
              (demo_world [] 2 demo_diff "cleanup") "cleanup" []
              (initial_args (demo_cfg 5 "80")) init_state)
    as (st' & rs & E & [_ C] & Hin & _).
  { vm_compute. discriminate. }
  exists st', rs. split; [exact E|]. split; [exact Hin|exact C].
Defined.

(** ** The notifiers *)

Lemma outcome_word_not_in_empty b : PyStr.contains (outcome_word b) "" = false.
Proof. by destruct b. Qed.

(** The email block of [finish], exactly. *)
Lemma notify_email_exact cfg env b st :
  exists rs,
    notify_email cfg env b st
    = (Ok tt,
       with_mails (with_log st rs)
         (if mail_due cfg b && session_opens cfg env
          then [email_message cfg b (email_log_text cfg env (st_log st))]
          else []))
    /\ (PyStr.contains (outcome_word b) (email_sendon cfg) = true ->
        PyStr.len (smtp_host cfg) = 0 ->
        rs = [error_record "Failed to send email because smtp host is not set"])
    /\ (PyStr.contains (outcome_word b) (email_sendon cfg) = false -> rs = [])
    /\ (forall err,
          mail_due cfg b = true ->
          env_smtp_open env (smtp_host cfg) = Some err ->
          rs = [caught_record "Failed to send email" (TransportError err)]).
Proof.
  unfold notify_email, mail_due, session_opens.
  destruct (PyStr.contains _ _) eqn:Ec; cbn [andb].
  2:{ exists []. rewrite with_log_nil, with_mails_nil. by unfold_m. }
  unfold send_email.
  destruct (Z.eqb_spec (PyStr.len (smtp_host cfg)) 0) as [E0|E0]; cbn [negb andb].
  { eexists [_]. rewrite with_mails_nil. unfold_m. split; [reflexivity|done]. }
  unfold_m. destruct (String.eqb_spec (email_sendon cfg) "") as [E|_].
  { rewrite E, outcome_word_not_in_empty in Ec. discriminate. }
  destruct (env_smtp_open env _) as [oerr|].
  { eexists [_]. rewrite with_mails_nil. split; [reflexivity|].
    split; [done|]. split; [done|]. by intros err _ [= <-]. }
  destruct (env_smtp env _) as [err|].
  - eexists [_]. split; [reflexivity|done].
  - exists []. split; [by rewrite with_log_nil|done].
Qed.

(** The webhook block of [finish], exactly. *)
Lemma notify_discord_exact cfg env b st :
  exists rs,
    notify_discord cfg env b st
    = (Ok tt,
       with_posts (with_log st rs)
         (if post_due cfg b
          then [discord_payload b (email_log_text cfg env (st_log st))]
          else []))
    /\ (discord_enabled cfg <> "" ->
        PyStr.contains (outcome_word b) (discord_sendon cfg) = true ->
        email_sendon cfg = "" ->
        rs = [caught_record "Failed to send Discord notification"
                (AttributeError "'NoneType' object has no attribute 'getvalue'")]).
Proof.
  unfold notify_discord, post_due.
  destruct (String.eqb_spec (discord_enabled cfg) "") as [Ee|Ee]; cbn [negb andb].
  { exists []. rewrite with_log_nil, with_posts_nil. by unfold_m. }
  destruct (PyStr.contains _ _); cbn [andb].
  2:{ exists []. rewrite with_log_nil, with_posts_nil. by unfold_m. }
  unfold send_discord_notification. unfold_m.
  destruct (String.eqb_spec (email_sendon cfg) "") as [E|E]; cbn [negb].
  { eexists [_]. rewrite with_posts_nil. split; [reflexivity|done]. }
  destruct (env_post env _ _);
    (eexists [_]; split; [reflexivity|done]).
Qed.

(** [finish], with the messages it hands over stated exactly. *)
Lemma finish_exact cfg env b st :
  exists rs1 rs2,
    finish cfg env b st
    = (Raise (SystemExit (exit_status b)),
       with_log
         (with_posts
            (with_log
               (with_mails (with_log st rs1)
                  (if mail_due cfg b && session_opens cfg env
                   then [email_message cfg b (email_log_text cfg env (st_log st))]
                   else []))
               rs2)
            (if post_due cfg b
             then [discord_payload b (email_log_text cfg env (st_log st ++ rs1))]
             else []))
         [status_record b])
    /\ (PyStr.contains (outcome_word b) (email_sendon cfg) = true ->
        PyStr.len (smtp_host cfg) = 0 ->
        rs1 = [error_record "Failed to send email because smtp host is not set"])
    /\ (PyStr.contains (outcome_word b) (email_sendon cfg) = false -> rs1 = [])
    /\ (discord_enabled cfg <> "" ->
        PyStr.contains (outcome_word b) (discord_sendon cfg) = true ->
        email_sendon cfg = "" ->
        rs2 = [caught_record "Failed to send Discord notification"
                 (AttributeError "'NoneType' object has no attribute 'getvalue'")])
    /\ (forall err,
          mail_due cfg b = true ->
          env_smtp_open env (smtp_host cfg) = Some err ->
          rs1 = [caught_record "Failed to send email" (TransportError err)]).
Proof.
  destruct (notify_email_exact cfg env b st) as (rs1 & E1 & H1 & H1' & H1'').
  match type of E1 with _ = (_, ?s) =>
    destruct (notify_discord_exact cfg env b s) as (rs2 & E2 & H2)
  end.
  exists rs1, rs2. split; [|by repeat split].
  unfold finish. rewrite (bind_ok _ _ _ _ _ E1), (bind_ok _ _ _ _ _ E2).
  unfold_m. unfold status_record. by destruct b.
Qed.

(** X10.  [finish] hands exactly one message to [sendmail] when the
    word of the outcome occurs in the [sendon] option of the email
    section, an smtp host is set and the session with the server opens
    (the client, [starttls] and [login] raise nothing), and none
    otherwise; an error raised while the session opens is logged and no
    message is handed over.  [finish] hands exactly one payload to the
    webhook when the [enabled] option of the discord section is not
    empty, the word of the outcome occurs in its [sendon] option and the
    [sendon] option of the email section is not empty, and none
    otherwise.  The payload carries the log as it stands after the email
    block. *)
Theorem notifications_sent_exactly_when_due cfg env is_success st :
  let st' := snd (finish cfg env is_success st) in
  st_mails st'
  = st_mails st
    ++ (if mail_due cfg is_success && session_opens cfg env
        then [email_message cfg is_success (email_log_text cfg env (st_log st))]
        else [])
  /\ (forall err,
        mail_due cfg is_success = true ->
        env_smtp_open env (smtp_host cfg) = Some err ->
        In (caught_record "Failed to send email" (TransportError err)) (st_log st'))
  /\ exists rs rs',
       st_log st' = st_log st ++ rs ++ rs'
       /\ st_posts st'
          = st_posts st
            ++ (if post_due cfg is_success
                then [discord_payload is_success
                        (email_log_text cfg env (st_log st ++ rs))]
                else []).
Proof.
  cbv zeta.
  destruct (finish_exact cfg env is_success st) as (rs1 & rs2 & E & _ & _ & _ & Ho).
  rewrite E. cbn [snd with_log with_posts with_mails st_log st_mails st_posts].
  split; [done|]. split.
  - intros err Hd He. rewrite (Ho err Hd He), <- !app_assoc.
    apply in_or_app. right. by left.
  - exists rs1, (rs2 ++ [status_record is_success]).
    split; [by rewrite <- !app_assoc|done].
Qed.

(** X11.  The webhook depends on the email section: with the [sendon]
    option of the email section empty, [setup_logger] creates no buffer,
    so when the webhook is enabled and due, reading the buffer fails;
    [finish] logs the error, posts nothing, sends no mail, and leaves
    with the status of the outcome all the same. *)
Theorem webhook_needs_email_sendon cfg env is_success st :
  email_sendon cfg = "" ->
  discord_enabled cfg <> "" ->
  PyStr.contains (outcome_word is_success) (discord_sendon cfg) = true ->
  exists st',
    finish cfg env is_success st
    = (Raise (SystemExit (if is_success then 0 else 1)), st')
    /\ st_posts st' = st_posts st
    /\ st_mails st' = st_mails st
    /\ st_log st'
       = st_log st
         ++ [caught_record "Failed to send Discord notification"
               (AttributeError "'NoneType' object has no attribute 'getvalue'");
             status_record is_success].
Proof.
  intros Hs He Hd.
  destruct (finish_exact cfg env is_success st)
    as (rs1 & rs2 & E & _ & H1 & H2 & _).
  specialize (H2 He Hd Hs). subst rs2.
  rewrite Hs, outcome_word_not_in_empty in H1. specialize (H1 eq_refl). subst rs1.
  assert (mail_due cfg is_success = false) as Hm.
  { unfold mail_due. by rewrite Hs, outcome_word_not_in_empty. }
  assert (post_due cfg is_success = false) as Hp.
  { unfold post_due. rewrite Hs. cbn. by rewrite andb_false_r. }
  rewrite E, Hm, Hp. eexists. split; [by destruct is_success|].
  cbn [with_log with_posts with_mails st_log st_mails st_posts].
  rewrite !app_nil_r, <- !app_assoc. done.
Qed.

Lemma webhook_needs_email_sendon_witness :
  let cfg := notify_cfg "" "localhost" false 0 "true" "error" in
  let env := demo_env demo_diff "" None PostOk in
  exists st',
    finish cfg env false init_state = (Raise (SystemExit 1), st')
    /\ st_posts st' = []
    /\ st_mails st' = []
    /\ st_log st'
       = [caught_record "Failed to send Discord notification"
            (AttributeError "'NoneType' object has no attribute 'getvalue'");
          status_record false].
Proof.
  cbv zeta.
  apply (webhook_needs_email_sendon
           (notify_cfg "" "localhost" false 0 "true" "error")
           (demo_env demo_diff "" None PostOk) false init_state);
    [reflexivity|discriminate|reflexivity].
Defined.

(** X12.  When the outcome calls for a mail but no smtp host is set,
    [finish] sends none and logs that as an error, once; the exit status
    is that of the outcome. *)
Theorem missing_smtp_host_is_logged cfg env is_success st :
  PyStr.contains (outcome_word is_success) (email_sendon cfg) = true ->
  smtp_host cfg = "" ->
  exists st' rs,
    finish cfg env is_success st
    = (Raise (SystemExit (if is_success then 0 else 1)), st')
    /\ st_mails st' = st_mails st
    /\ st_log st'
       = st_log st
         ++ [error_record "Failed to send email because smtp host is not set"]
         ++ rs.
Proof.
  intros Hc Hh.
  destruct (finish_exact cfg env is_success st) as (rs1 & rs2 & E & H1 & _).
  rewrite Hh in H1. specialize (H1 Hc eq_refl). subst rs1.
  assert (mail_due cfg is_success = false) as Hm.
  { unfold mail_due. rewrite Hh. cbn. by rewrite andb_false_r. }
  rewrite E, Hm. eexists _, (rs2 ++ [status_record is_success]).
  split; [by destruct is_success|].
  cbn [with_log with_posts with_mails st_log st_mails st_posts].
  split; [by rewrite app_nil_r|]. by rewrite <- !app_assoc.
Qed.

Lemma missing_smtp_host_is_logged_witness :
  let cfg := notify_cfg "error" "" false 0 "" "" in
  let env := demo_env demo_diff "" None PostOk in
  exists st' rs,
    finish cfg env false init_state = (Raise (SystemExit 1), st')
    /\ st_mails st' = []
    /\ st_log st'
       = [error_record "Failed to send email because smtp host is not set"] ++ rs.
Proof.
  cbv zeta.
  apply (missing_smtp_host_is_logged (notify_cfg "error" "" false 0 "" "")
           (demo_env demo_diff "" None PostOk) false init_state);
    reflexivity.
Defined.

(** *** The text of the log *)

(** X13.  The text read from the in-memory buffer: every record of the
    root logger in the format of the handlers, except that with the
    [short] option the lines a child wrote to its stdout are left out,
    while those it wrote to its stderr stay. *)
Theorem short_log_leaves_out_child_stdout cfg env log :
  email_log_text cfg env log
  = PyStr.concat
      (imap (fun i r =>
               if email_short cfg && bool_decide (rec_level r = OUTPUT)
               then EmptyString else format_record env i r) log).
Proof.
  unfold email_log_text, email_handler_level. f_equal. apply imap_ext.
  intros i r _. by destruct (email_short cfg), (rec_level r).
Qed.

(** *** A negative size budget *)

Lemma append_nil_r s : s +:+ "" = s.
Proof. induction s as [|a s IH]; [done|]. by rewrite append_cons, IH. Qed.

Lemma substring_none n s : String.substring n 0 s = "".
Proof.
  pose proof (substring_length s n 0) as H.
  by destruct (String.substring n 0 s).
Qed.

(** X14.  With a negative [maxsize] option the log always counts as too
    big; when it is no longer than [512 * |maxsize|] characters, both
    slices are empty: the mail carries the note and the marker, which
    reports every line of the log as removed, and nothing of the log. *)
Theorem negative_budget_drops_the_log cfg is_success log :
  email_maxsize cfg < 0 ->
  PyStr.len log <= 512 * - email_maxsize cfg ->
  mail_body (email_message cfg is_success log)
  = email_greeting is_success +:+ too_big_note
    +:+ too_big_marker (PyStr.count_char "010" log).
Proof.
  intros Hneg Hlen. cbn [email_message mail_body]. f_equal.
  unfold shorten_log. set (k := email_maxsize cfg) in *.
  assert (0 <= PyStr.len log) as Hl by (unfold PyStr.len; lia).
  destruct (Z.eqb_spec (k * 1024) 0) as [?|_]; [lia|].
  destruct (Z.ltb_spec (k * 1024) (PyStr.len log)) as [_|?]; [|lia].
  cbn [negb andb].
  assert (k * 1024 / 2 = 512 * k) as ->.
  { replace (k * 1024) with ((512 * k) * 2) by lia. by rewrite Z.div_mul. }
  assert (- (k * 1024) / 2 = 512 * - k) as ->.
  { replace (- (k * 1024)) with ((512 * - k) * 2) by lia. by rewrite Z.div_mul. }
  unfold PyStr.slice_to, PyStr.slice_from, PyStr.count, PyStr.slice, PyStr.bound.
  destruct (Z.ltb_spec 0 0) as [?|_]; [lia|].
  destruct (Z.ltb_spec (512 * k) 0) as [_|?]; [|lia].
  destruct (Z.ltb_spec (512 * - k) 0) as [?|_]; [lia|].
  destruct (Z.ltb_spec (PyStr.len log) 0) as [?|_]; [lia|].
  replace (Z.min (PyStr.len log) 0) with 0 by lia.
  replace (Z.max 0 (PyStr.len log + 512 * k)) with 0 by lia.
  replace (Z.min (PyStr.len log) (512 * - k)) with (PyStr.len log) by lia.
  replace (Z.min (PyStr.len log) (PyStr.len log)) with (PyStr.len log) by lia.
  rewrite !Z.sub_0_r, ?Z.sub_diag. cbn [Z.to_nat].
  rewrite !substring_none. unfold PyStr.len. rewrite Nat2Z.id, substring_all.
  by rewrite append_nil_r.
Qed.

Lemma negative_budget_drops_the_log_witness :
  let cfg := notify_cfg "error" "localhost" false (-1) "" "" in
  let log := "09:41:00 [ERROR ] Run failed" +:+ PyStr.nl in
  mail_body (email_message cfg false log)
  = email_greeting false +:+ too_big_note +:+ too_big_marker 1.
Proof.
  cbv zeta.
  apply (negative_budget_drops_the_log
           (notify_cfg "error" "localhost" false (-1) "" "") false
           ("09:41:00 [ERROR ] Run failed" +:+ PyStr.nl));
    vm_compute; [reflexivity|discriminate].
Defined.

(** ** Loading the configuration *)

Lemma option_text_insert (c : RawConfig) s d k v s' k' :
  c !! s = Some d ->
  option_text (<[s := <[k := v]> d]> c) s' k'
  = if decide (s' = s) then (if decide (k' = k) then v else option_text c s' k')
    else option_text c s' k'.
Proof.
  intros Hd. unfold option_text. destruct (decide (s' = s)) as [->|Hs].
  - rewrite lookup_insert_eq, Hd. cbn.
    destruct (decide (k' = k)) as [->|Hk].
    + by rewrite lookup_insert_eq.
    + by rewrite lookup_insert_ne.
  - by rewrite lookup_insert_ne.
Qed.

Lemma set_items_known section items : forall c,
  is_Some (c !! section) ->
  exists c',
    set_items section items c = Ok c'
    /\ (forall s, is_Some (c' !! s) <-> is_Some (c !! s))
    /\ forall s k,
         option_text c' s k
         = if decide (s = section)
           then from_option py_strip (option_text c s k) (last_value k items)
           else option_text c s k.
Proof.
  induction items as [|[k0 v0] items IH]; intros c [d Hd]; cbn [set_items].
  { exists c. split; [done|]. split; [done|]. intros s k. cbn.
    by destruct (decide (s = section)). }
  rewrite Hd.
  destruct (IH (<[section := <[k0 := py_strip v0]> d]> c)) as (c' & E & Hdom & Htext).
  { rewrite lookup_insert_eq. by eexists. }
  exists c'. split; [exact E|]. split.
  - intros s. rewrite Hdom, lookup_insert_is_Some.
    destruct (decide (section = s)) as [<-|?]; [|tauto].
    split; [by eexists|by left].
  - intros s k. rewrite Htext, (option_text_insert _ _ _ _ _ _ _ Hd).
    destruct (decide (s = section)) as [->|?]; [|done].
    cbn [last_value]. destruct (last_value k items); [done|].
    destruct (decide (k = k0)) as [->|?].
    + by rewrite decide_True.
    + by rewrite decide_False by congruence.
Qed.

Lemma set_items_unknown section items c :
  c !! section = None ->
  set_items section items c
  = match items with [] => Ok c | _ => Raise (KeyError section) end.
Proof. intros H. destruct items as [|[k v] items]; cbn [set_items]; by rewrite ?H. Qed.

Lemma last_value_app k l1 l2 :
  last_value k (l1 ++ l2)
  = match last_value k l2 with
    | Some w => Some w
    | None => last_value k l1
    end.
Proof.
  induction l1 as [|[k0 v0] l1 IH]; cbn [app last_value].
  { by destruct (last_value k l2). }
  rewrite IH. by destruct (last_value k l2).
Qed.

(** Each section of the dictionary is one of [sections]. *)
Lemma empty_config_sections s : is_Some (empty_config !! s) <-> In s sections.
Proof.
  unfold empty_config. rewrite <- not_eq_None_Some, <- not_elem_of_list_to_map.
  rewrite <- list_fmap_compose.
  replace (fst ∘ (fun x : string => (x, (∅ : gmap string string)))) with (@id string) by done.
  rewrite list_fmap_id. rewrite <- list_elem_of_In.
  split; [apply dec_stable|tauto].
Qed.

Lemma empty_config_text s k : option_text empty_config s k = "".
Proof.
  unfold option_text. destruct (empty_config !! s) as [d|] eqn:E; [|done].
  apply elem_of_list_to_map_2, list_elem_of_fmap in E as (x & [= _ ->] & _).
  done.
Qed.

Lemma read_sections_known file : forall c,
  (forall s, is_Some (c !! s) <-> In s sections) ->
  known_sections file ->
  exists c',
    read_sections file c = Ok c'
    /\ forall s k,
         option_text c' s k
         = from_option py_strip (option_text c s k)
             (last_value k (file_items file s)).
Proof.
  induction file as [|[s0 items] file IH]; intros c Hc Hk; cbn [read_sections].
  { by exists c. }
  apply Forall_cons in Hk as [Hhd Hk]. cbn [fst snd] in Hhd.
  assert (exists c1,
            set_items s0 items c = Ok c1
            /\ (forall s, is_Some (c1 !! s) <-> In s sections)
            /\ forall s k,
                 option_text c1 s k
                 = if decide (s = s0)
                   then from_option py_strip (option_text c s k) (last_value k items)
                   else option_text c s k) as (c1 & E1 & Hc1 & T1).
  { destruct (c !! s0) as [d|] eqn:Hd.
    - destruct (set_items_known s0 items c) as (c1 & E1 & D1 & T1); [by eexists|].
      exists c1. split; [done|]. split; [|done]. intros s. by rewrite D1.
    - destruct Hhd as [->|Hin].
      + exists c. split; [done|]. split; [done|]. intros s k. cbn.
        by destruct (decide (s = s0)).
      + apply Hc in Hin. rewrite Hd in Hin. by destruct Hin. }
  rewrite E1. destruct (IH c1 Hc1 Hk) as (c' & E' & T').
  exists c'. split; [exact E'|]. intros s k. rewrite T', T1.
  unfold file_items. cbn [flat_map fst snd]. fold (file_items file s).
  rewrite last_value_app.
  destruct (last_value k (file_items file s)); [done|]. cbn [from_option].
  destruct (decide (s = s0)) as [->|?].
  - by rewrite decide_True.
  - by rewrite decide_False by congruence.
Qed.

Lemma read_sections_ok file : forall c c',
  (forall s, is_Some (c !! s) <-> In s sections) ->
  read_sections file c = Ok c' -> known_sections file.
Proof.
  induction file as [|[s0 items] file IH]; intros c c' Hc E; cbn [read_sections] in E.
  { constructor. }
  destruct (c !! s0) as [d|] eqn:Hd.
  - destruct (set_items_known s0 items c) as (c1 & E1 & D1 & _); [by eexists|].
    rewrite E1 in E. constructor.
    + right. cbn. apply Hc. by eexists.
    + apply (IH c1 c'); [|done]. intros s. by rewrite D1.
  - rewrite (set_items_unknown _ _ _ Hd) in E. destruct items; [|done].
    constructor; [by left|]. by apply (IH c c').
Qed.

Lemma read_sections_raise file : forall c e,
  (forall s, is_Some (c !! s) <-> In s sections) ->
  read_sections file c = Raise e ->
  exists s items,
    e = KeyError s /\ In (s, items) file /\ items <> [] /\ ~ In s sections.
Proof.
  induction file as [|[s0 items] file IH]; intros c e Hc E; cbn [read_sections] in E.
  { done. }
  destruct (c !! s0) as [d|] eqn:Hd.
  - destruct (set_items_known s0 items c) as (c1 & E1 & D1 & _); [by eexists|].
    rewrite E1 in E. destruct (IH c1 e) as (s & its & ? & ? & ? & ?); [|done|].
    { intros s. by rewrite D1. }
    exists s, its. split; [done|]. split; [by right|done].
  - rewrite (set_items_unknown _ _ _ Hd) in E. destruct items as [|it items].
    + destruct (IH c e Hc E) as (s & its & ? & ? & ? & ?).
      exists s, its. split; [done|]. split; [by right|done].
    + injection E as <-. exists s0, (it :: items).
      split; [done|]. split; [by left|]. split; [done|].
      intros Hin. apply Hc in Hin. rewrite Hd in Hin. by destruct Hin.
Qed.

(** After a successful read, every option has the text the file gives it. *)
Lemma read_text file c s k :
  read_sections file empty_config = Ok c ->
  option_text c s k = file_option file s k.
Proof.
  intros E.
  pose proof (read_sections_ok _ _ _ empty_config_sections E) as Hk.
  destruct (read_sections_known file empty_config empty_config_sections Hk)
    as (c' & E' & T).
  rewrite E in E'. injection E' as <-. rewrite T, empty_config_text. done.
Qed.

(** X15.  [load_config] succeeds exactly on the files all of whose
    sections that have an item are among the eight the script knows; on
    every other file it raises [KeyError] for a section of the file that
    has an item and is not one of the eight.  A section without items is
    never an error. *)
Theorem load_config_fails_exactly_on_unknown_section env args file :
  ((exists ld, load_config env args file = Ok ld) <-> known_sections file)
  /\ (forall e, load_config env args file = Raise e ->
        exists s items,
          e = KeyError s /\ In (s, items) file /\ items <> []
          /\ ~ In s sections).
Proof.
  unfold load_config. split; [split|].
  - intros [ld E]. destruct (read_sections file empty_config) as [c|e] eqn:Er; [|done].
    by apply (read_sections_ok _ _ _ empty_config_sections Er).
  - intros Hk.
    destruct (read_sections_known file empty_config empty_config_sections Hk)
      as (c & -> & _).
    by eexists.
  - intros e E. destruct (read_sections file empty_config) as [c|e'] eqn:Er; [done|].
    injection E as ->. by apply (read_sections_raise _ _ _ empty_config_sections Er).
Qed.

Lemma load_config_known env args file :
  (known_sections file -> exists ld, load_config env args file = Ok ld)
  /\ (forall ld, load_config env args file = Ok ld -> known_sections file).
Proof.
  unfold load_config. split.
  - intros Hk.
    destruct (read_sections_known file empty_config empty_config_sections Hk)
      as (c & -> & _).
    by eexists.
  - intros ld E. destruct (read_sections file empty_config) as [c|e] eqn:Er; [|done].
    by apply (read_sections_ok _ _ _ empty_config_sections Er).
Qed.

(** What [load_config] computes, in terms of the text of the file. *)
Lemma load_config_fields env args file ld :
  load_config env args file = Ok ld ->
  let text := file_option file in
  let cfg := loaded_config ld in
  snapraid_deletethreshold cfg
  = (if args_ignore_deletethreshold args then -1
     else match args_deletethreshold args with
          | Some n => n
          | None => int_option env (text "snapraid" "deletethreshold")
          end)
  /\ snapraid_touch cfg = bool_option (text "snapraid" "touch")
  /\ btrfs_pool cfg
     = match args_pool args with
       | Some b => b
       | None => bool_option (text "snapraid-btrfs" "pool")
       end
  /\ btrfs_cleanup cfg
     = match args_cleanup args with
       | Some b => b
       | None => bool_option (text "snapraid-btrfs" "cleanup")
       end
  /\ scrub_enabled cfg
     = match args_scrub args with
       | Some b => b
       | None => bool_option (text "scrub" "enabled")
       end
  /\ email_maxsize cfg = int_option env (text "email" "maxsize")
  /\ email_sendon cfg = text "email" "sendon"
  /\ discord_enabled cfg = text "discord" "enabled"
  /\ discord_sendon cfg = text "discord" "sendon"
  /\ logging_file ld = text "logging" "file".
Proof.
  unfold load_config.
  destruct (read_sections file empty_config) as [c|e] eqn:Er; [|done].
  intros [= <-]. cbv zeta. cbn [loaded_config logging_file snapraid_deletethreshold
    snapraid_touch btrfs_pool btrfs_cleanup scrub_enabled email_maxsize
    email_sendon discord_enabled discord_sendon].
  by rewrite !(read_text _ _ _ _ Er).
Qed.

(** *** The exit status of the program *)

(** X16.  From the parsed command line on, the program always ends by
    [SystemExit] with status 0, 1 or 2.  The status is 2 exactly when the
    start fails: the configuration file does not exist, the parser
    raises, the file has an item in a section the script does not know,
    or the log file cannot be opened; in that case nothing has been
    logged, no child spawned and no notification sent. *)
Theorem exit_status_two_means_setup_failed boot flags env st :
  exists code st',
    main_entry boot flags env st = (Raise (SystemExit code), st')
    /\ (code = 0 \/ code = 1 \/ code = 2)
    /\ (code = 2 <-> setup_fails boot flags env)
    /\ (code = 2 -> st' = st).
Proof.
  unfold main_entry, setup_fails. cbv zeta.
  set (args := parse_args flags).
  destruct (boot_exists boot (args_conf args)) eqn:Ex; cbn [negb].
  2:{ exists 2, st. split; [done|]. split; [auto|]. split; [|done].
      split; [by left|done]. }
  destruct (boot_read boot (args_conf args)) as [file|] eqn:Er.
  2:{ exists 2, st. split; [done|]. split; [auto|]. split; [|done].
      split; [by right; left|done]. }
  destruct (load_config_known env args file) as [Hok Hknown].
  destruct (load_config env args file) as [ld|e] eqn:El.
  2:{ exists 2, st. split; [done|]. split; [auto|]. split; [|done].
      split; [|done]. intros _. right. right. exists file. split; [done|]. left.
      intros Hk. apply Hok in Hk as [ld ?]. done. }
  assert (known_sections file) as Hk by (by apply (Hknown ld)).
  unfold setup_logger.
  destruct (Z.ltb_spec 0 (PyStr.len (logging_file ld))) as [Hlen|Hlen].
  - assert (logging_file ld <> "") as Hne.
    { intros E. rewrite E in Hlen. by vm_compute in Hlen. }
    destruct (boot_log_opens boot (logging_file ld)) eqn:Eo.
    + destruct (main_shape (loaded_config ld) env st)
        as (r & st' & invs & rs & _ & E & _ & S & _).
      exists (main_status r), st'. split; [exact E|].
      assert (main_status r = 0 \/ main_status r = 1) as Hc.
      { inversion S; subst; cbn [main_status]; auto. destruct ok; auto. }
      split; [tauto|]. split; [|lia].
      split; [lia|].
      intros [?|[?|(f & Hf & [Hnk|(ld' & Hl & _ & Ho)])]];
        first [congruence | assert (f = file) as -> by congruence; done].
    + exists 2, st. split; [done|]. split; [auto|]. split; [|done].
      split; [|done]. intros _. right. right. exists file. split; [done|]. right.
      by exists ld.
  - destruct (main_shape (loaded_config ld) env st)
      as (r & st' & invs & rs & _ & E & _ & S & _).
    exists (main_status r), st'. split; [exact E|].
    assert (main_status r = 0 \/ main_status r = 1) as Hc.
    { inversion S; subst; cbn [main_status]; auto. destruct ok; auto. }
    split; [tauto|]. split; [|lia].
    split; [lia|].
    assert (logging_file ld = "") as Hnil.
    { destruct (logging_file ld); [done|]. unfold PyStr.len in Hlen.
      cbn [String.length] in Hlen. lia. }
    intros [?|[?|(f & Hf & [Hnk|(ld' & Hl & Hne & _)])]];
      first [congruence | assert (f = file) as -> by congruence; done].
Qed.

(** *** The delete threshold of the loaded configuration *)

(** X17.  With [--ignore-deletethreshold] on the command line the
    threshold of the loaded configuration is -1, whatever the file and a
    [-d] option say, and the delete-threshold guard of a run never
    stops it: for every diff the guard logs nothing and lets the run go
    on. *)
Theorem ignore_deletethreshold_never_aborts env flags file ld :
  load_config env (parse_args flags) file = Ok ld ->
  flag_ignore_deletethreshold flags = true ->
  snapraid_deletethreshold (loaded_config ld) = -1
  /\ forall diff_out st,
       threshold_check (loaded_config ld) env (classify diff_out) st = (Ok tt, st).
Proof.
  intros El Hi.
  destruct (load_config_fields _ _ _ _ El) as (Ht & _). cbv zeta in Ht.
  cbn [parse_args args_ignore_deletethreshold] in Ht. rewrite Hi in Ht.
  split; [exact Ht|]. intros diff_out st.
  unfold threshold_check. rewrite Ht. done.
Qed.

Lemma ignore_deletethreshold_never_aborts_witness :
  let flags := demo_flags false true (Some 0) in
  let env := demo_world [] 2 demo_diff "" in
  exists ld,
    load_config env (parse_args flags) demo_file = Ok ld
    /\ snapraid_deletethreshold (loaded_config ld) = -1
    /\ forall diff_out st,
         threshold_check (loaded_config ld) env (classify diff_out) st = (Ok tt, st).
Proof.
  cbv zeta. eexists. split; [vm_compute; reflexivity|].
  apply (ignore_deletethreshold_never_aborts _ (demo_flags false true (Some 0)) demo_file);
    vm_compute; reflexivity.
Defined.

(** X18.  When the command line sets no threshold and the file gives
    none that [int] accepts (the option is absent, empty or malformed),
    the threshold of the loaded configuration is 0.  A run with that
    configuration which has its diff result then stops at the guard as
    soon as the diff shows one removal: it logs that the threshold of 0
    is exceeded, spawns no child after the diff and ends with status 1;
    with no removal the guard lets it pass and changes nothing. *)
Theorem unset_deletethreshold_blocks_any_removal env flags file ld :
  load_config env (parse_args flags) file = Ok ld ->
  flag_ignore_deletethreshold flags = false ->
  flag_deletethreshold flags = None ->
  py_int env (file_option file "snapraid" "deletethreshold") = None ->
  let cfg := loaded_config ld in
  snapraid_deletethreshold cfg = 0
  /\ forall st diff_out args st1,
       run_to_diff cfg env st = (Ok (diff_out, args), st1) ->
       (0 < count_lines (starts_field "remove") diff_out ->
        exists st',
          run cfg env st = (Raise (SystemExit 1), st')
          /\ st_spawned st' = st_spawned st1
          /\ In (error_record "Deleted files exceed delete threshold of 0, aborting")
                (st_log st'))
       /\ (count_lines (starts_field "remove") diff_out = 0 ->
           threshold_check cfg env (classify diff_out) st1 = (Ok tt, st1)).
Proof.
  intros El Hi Hd Hint. cbv zeta.
  destruct (load_config_fields _ _ _ _ El) as (Ht & _). cbv zeta in Ht.
  cbn [parse_args args_ignore_deletethreshold args_deletethreshold] in Ht.
  rewrite Hi, Hd in Ht. unfold int_option in Ht. rewrite Hint in Ht. cbn in Ht.
  split; [exact Ht|]. intros st diff_out args st1 Hdiff.
  assert (forall s,
            threshold_check (loaded_config ld) env (classify diff_out) s
            = (if 0 <? count_lines (starts_field "remove") diff_out
               then (logging_log ERROR
                       "Deleted files exceed delete threshold of 0, aborting";;
                     logging_log ERROR
                       "Run again with --ignore-deletethreshold to sync anyways";;
                     finish (loaded_config ld) env false) s
               else (Ok tt, s))) as Hcheck.
  { intros s. unfold threshold_check. rewrite Ht.
    change (0 <=? 0) with true. cbv iota.
    rewrite bind_unfold, (getitem_classify _ _ _ kind_remove).
    rewrite (count_kind_starts _ _ kind_remove).
    destruct (0 <? count_lines (starts_field "remove") diff_out); reflexivity. }
  split.
  - intros Hpos. apply Z.ltb_lt in Hpos.
    rewrite (run_unfold _ _ _ _ _ _ Hdiff), bind_unfold, Hcheck, Hpos.
    rewrite bind_unfold, logging_log_unfold, bind_unfold, logging_log_unfold.
    match goal with |- context [finish _ env false ?s] =>
      destruct (finish_spec (loaded_config ld) env false s)
        as (rs1 & ms & rs2 & ps & Ef & _)
    end.
    rewrite Ef. eexists. split; [reflexivity|].
    cbn [with_log with_posts with_mails st_log st_spawned].
    split; [reflexivity|].
    rewrite <- !app_assoc. apply in_or_app. right. left. reflexivity.
  - intros Hzero. rewrite Hcheck, Hzero. reflexivity.
Qed.

Lemma unset_deletethreshold_blocks_any_removal_witness :
  let flags := demo_flags false false None in
  let env := demo_world [] 2 demo_diff "" in
  exists ld st',
    load_config env (parse_args flags) demo_file = Ok ld
    /\ snapraid_deletethreshold (loaded_config ld) = 0
    /\ run (loaded_config ld) env init_state = (Raise (SystemExit 1), st')
    /\ map inv_command (st_spawned st') = ["diff"]
    /\ In (error_record "Deleted files exceed delete threshold of 0, aborting")
          (st_log st').
Proof.
  cbv zeta.
  set (env := demo_world [] 2 demo_diff "").
  set (flags := demo_flags false false None).
  assert (exists ld,
            load_config env (parse_args flags) demo_file = Ok ld
            /\ run_to_diff (loaded_config ld) env init_state
               = (Ok (demo_diff, initial_args (loaded_config ld)),
                  snd (run_to_diff (loaded_config ld) env init_state))
            /\ map inv_command
                 (st_spawned (snd (run_to_diff (loaded_config ld) env init_state)))
               = ["diff"]) as (ld & El & Hdiff & Hcmd).
  { eexists. split; [vm_compute; reflexivity|]. split; vm_compute; reflexivity. }
  assert (py_int env (file_option demo_file "snapraid" "deletethreshold") = None)
    as Hint by (vm_compute; reflexivity).
  destruct (unset_deletethreshold_blocks_any_removal env flags demo_file ld
              El eq_refl eq_refl Hint) as [H0 Hrun].
  destruct (Hrun init_state demo_diff _ _ Hdiff) as [Habort _].
  destruct Habort as (st' & E & Hs & Hlog).
  { vm_compute. reflexivity. }
  exists ld, st'. split; [exact El|]. split; [exact H0|]. split; [exact E|].
  split; [rewrite Hs; exact Hcmd|exact Hlog].
Defined.

(** *** The switches of the steps *)

(** X19.  A step is enabled in the loaded configuration only when the
    file says so: the pool, cleanup and scrub steps are enabled exactly
    when the text of their option in the file is [true] in some
    capitalisation and the matching [--no-...] flag is absent; the
    command line can switch a step off and never on.  The touch step
    follows the file alone. *)
Theorem command_line_only_disables_steps env flags file ld :
  load_config env (parse_args flags) file = Ok ld ->
  let cfg := loaded_config ld in
  btrfs_pool cfg
  = bool_option (file_option file "snapraid-btrfs" "pool") && negb (flag_no_pool flags)
  /\ btrfs_cleanup cfg
     = bool_option (file_option file "snapraid-btrfs" "cleanup")
       && negb (flag_no_cleanup flags)
  /\ scrub_enabled cfg
     = bool_option (file_option file "scrub" "enabled") && negb (flag_no_scrub flags)
  /\ snapraid_touch cfg = bool_option (file_option file "snapraid" "touch").
Proof.
  intros El.
  destruct (load_config_fields _ _ _ _ El) as (_ & Ht & Hp & Hc & Hs & _).
  cbv zeta in *. cbn [parse_args args_pool args_cleanup args_scrub] in *.
  rewrite Ht, Hp, Hc, Hs.
  destruct (flag_no_pool flags), (flag_no_cleanup flags), (flag_no_scrub flags);
    by rewrite ?andb_true_r, ?andb_false_r.
Qed.

Lemma command_line_only_disables_steps_witness :
  let flags := demo_flags true false None in
  let env := demo_world [] 2 demo_diff "" in
  exists ld,
    load_config env (parse_args flags) demo_file = Ok ld
    /\ btrfs_pool (loaded_config ld) = false
    /\ btrfs_cleanup (loaded_config ld) = true
    /\ scrub_enabled (loaded_config ld) = true
    /\ snapraid_touch (loaded_config ld) = false.
Proof.
  cbv zeta. eexists. split; [vm_compute; reflexivity|].
  destruct (command_line_only_disables_steps
              (demo_world [] 2 demo_diff "") (demo_flags true false None) demo_file _
              eq_refl) as (Hp & Hc & Hs & Ht).
  split; [etrans; [exact Hp|by vm_compute]|].
  split; [etrans; [exact Hc|by vm_compute]|].
  split; [etrans; [exact Hs|by vm_compute]|].
  etrans; [exact Ht|by vm_compute].
Defined.

(** *** The size budget of the loaded configuration *)

(** X20.  When the file gives no [maxsize] for the email that [int]
    accepts, the option is loaded as 0, so the fallback of 500 in
    [send_email] is never taken and the mail carries the whole log,
    however long. *)
Theorem unset_maxsize_never_shortens env args file ld :
  load_config env args file = Ok ld ->
  py_int env (file_option file "email" "maxsize") = None ->
  forall is_success log,
    mail_body (email_message (loaded_config ld) is_success log)
    = email_greeting is_success +:+ log.
Proof.
  intros El Hint is_success log.
  destruct (load_config_fields _ _ _ _ El) as (_ & _ & _ & _ & _ & Hm & _).
  cbv zeta in Hm. unfold int_option in Hm. rewrite Hint in Hm. cbn in Hm.
  cbn [email_message mail_body]. rewrite Hm.
  rewrite shorten_log_keeps; [done|by left].
Qed.

Lemma unset_maxsize_never_shortens_witness :
  let env := demo_world [] 2 demo_diff "" in
  let log := PyStr.replicate 2000 "x" in
  exists ld,
    load_config env (parse_args (demo_flags false false None)) demo_file = Ok ld
    /\ mail_body (email_message (loaded_config ld) false log)
       = email_greeting false +:+ log.
Proof.
  cbv zeta. eexists. split; [vm_compute; reflexivity|].
  apply (unset_maxsize_never_shortens (demo_world [] 2 demo_diff "")
           (parse_args (demo_flags false false None)) demo_file);
    vm_compute; reflexivity.
Defined.

(** *** The switch of the webhook *)

(** X21.  The [enabled] option of the discord section is not coerced to
    a boolean: any non-empty text enables the webhook, [false] included.
    With such a text, the outcome word in the [sendon] option of the
    section and a non-empty [sendon] option in the email section,
    [finish] posts one payload. *)
Theorem discord_enabled_is_read_as_text env args file ld is_success st :
  load_config env args file = Ok ld ->
  file_option file "discord" "enabled" <> "" ->
  PyStr.contains (outcome_word is_success) (file_option file "discord" "sendon")
  = true ->
  file_option file "email" "sendon" <> "" ->
  exists p,
    st_posts (snd (finish (loaded_config ld) env is_success st))
    = st_posts st ++ [p]
    /\ pay_content p = (if is_success then "SnapRAID job completed successfully."
                        else "Error during SnapRAID job:").
Proof.
  intros El He Hd Hs.
  destruct (load_config_fields _ _ _ _ El)
    as (_ & _ & _ & _ & _ & _ & Es & Ee & Ed & _).
  cbv zeta in Es, Ee, Ed.
  destruct (finish_exact (loaded_config ld) env is_success st)
    as (rs1 & rs2 & E & _).
  assert (post_due (loaded_config ld) is_success = true) as Hp.
  { unfold post_due. rewrite Es, Ee, Ed, Hd.
    destruct (String.eqb_spec (file_option file "discord" "enabled") ""); [done|].
    by destruct (String.eqb_spec (file_option file "email" "sendon") ""). }
  rewrite E, Hp. eexists. split; [reflexivity|done].
Qed.

Lemma discord_enabled_is_read_as_text_witness :
  let env := demo_world [] 2 demo_diff "" in
  file_option demo_file "discord" "enabled" = "false"
  /\ exists ld,
       load_config env (parse_args (demo_flags false false None)) demo_file = Ok ld
       /\ exists p,
            st_posts (snd (finish (loaded_config ld) env false init_state)) = [p]
            /\ pay_content p = "Error during SnapRAID job:".
Proof.
  cbv zeta. split; [vm_compute; reflexivity|].
  eexists. split; [vm_compute; reflexivity|].
  apply (discord_enabled_is_read_as_text (demo_world [] 2 demo_diff "")
           (parse_args (demo_flags false false None)) demo_file _ false init_state);
    vm_compute; first [reflexivity | discriminate].
Defined.

(** ** The tee threads while they run *)

Lemma stream_prefixes l lines p t acc k :
  Tee.stream_inv l lines p t acc k ->
  acc `prefix_of` lines
  /\ Tee.at_level l k `prefix_of` map (tee_record l) lines
  /\ (length acc <= length (Tee.at_level l k) <= S (length acc))%nat.
Proof.
  intros (Hl & Hk & _). split; [|split].
  - rewrite Hl. by eexists.
  - rewrite Hk, Hl.
    destruct t; cbn [Tee.logged_only Tee.in_flight]; rewrite ?app_nil_r;
      try (rewrite map_app; by eexists).
    rewrite (app_assoc acc [line]), (map_app _ (acc ++ [line])). by eexists.
  - rewrite Hk, length_map, length_app.
    destruct t; cbn [Tee.logged_only length]; lia.
Qed.

(** X22.  At every moment of every interleaving of the child, the two
    tee threads and the parent: the list [out] is a prefix of the lines
    the child writes to stdout, the records logged so far for each stream
    are a prefix of the records of its lines, a line is logged before it
    is appended, so that the log is at most one line ahead of [out], and
    the threads log at no other level than OUTPUT and OUTERR. *)
Theorem tee_keeps_order_at_every_moment outs errs ret sched s :
  Forall (fun line => line <> "") outs ->
  Forall (fun line => line <> "") errs ->
  Tee.exec sched (Tee.init outs errs ret) = Some s ->
  Tee.out s `prefix_of` outs
  /\ Tee.at_level OUTPUT (Tee.sink s) `prefix_of` map (tee_record OUTPUT) outs
  /\ Tee.at_level OUTERR (Tee.sink s) `prefix_of` map (tee_record OUTERR) errs
  /\ (length (Tee.out s) <= length (Tee.at_level OUTPUT (Tee.sink s))
      <= S (length (Tee.out s)))%nat
  /\ Forall (fun r => rec_level r = OUTPUT \/ rec_level r = OUTERR) (Tee.sink s).
Proof.
  intros Ho He Hexec.
  destruct (tee_exec_inv outs errs ret sched _ _ Ho He Hexec
              (tee_init_inv outs errs ret)) as (Io & Ie & Hk & _).
  destruct (stream_prefixes _ _ _ _ _ _ Io) as (P1 & P2 & P3).
  destruct (stream_prefixes _ _ _ _ _ _ Ie) as (_ & Q2 & _).
  done.
Qed.

Lemma tee_keeps_order_at_every_moment_witness :
  exists s,
    Tee.exec [Tee.WriteOut; Tee.WriteOut; Tee.TeeOut; Tee.TeeOut]
      (Tee.init demo_diff [] 2) = Some s
    /\ length (Tee.out s) = 0%nat
    /\ length (Tee.at_level OUTPUT (Tee.sink s)) = 1%nat
    /\ Tee.out s `prefix_of` demo_diff
    /\ Tee.at_level OUTPUT (Tee.sink s) `prefix_of` map (tee_record OUTPUT) demo_diff.
Proof.
  assert (exists s,
            Tee.exec [Tee.WriteOut; Tee.WriteOut; Tee.TeeOut; Tee.TeeOut]
              (Tee.init demo_diff [] 2) = Some s
            /\ length (Tee.out s) = 0%nat
            /\ length (Tee.at_level OUTPUT (Tee.sink s)) = 1%nat)
    as (s & Hexec & H0 & H1).
  { eexists. split; [vm_compute; reflexivity|]. split; vm_compute; reflexivity. }
  exists s. split; [exact Hexec|]. split; [exact H0|]. split; [exact H1|].
  assert (Forall (fun line => line <> "") demo_diff) as Ho.
  { repeat constructor; discriminate. }
  destruct (tee_keeps_order_at_every_moment demo_diff [] 2
              [Tee.WriteOut; Tee.WriteOut; Tee.TeeOut; Tee.TeeOut] s
              Ho (Forall_nil_2 _) Hexec) as (P1 & P2 & _).
  split; [exact P1|exact P2].
Defined.

(** ** The threads and the command runner *)

(** X23.  The command runner of the sequential model covers every run
    of the two threads: take any interleaving of the child of a call, of
    the tee threads and of the parent that has brought the parent to the
    exit status.  Then for some order of logging, the call appends
    exactly the records the threads have emitted, and it returns the
    list [out] of the threads when the status the parent has read is
    allowed, and raises [CalledProcessError] with that status
    otherwise. *)
Theorem threads_refine_command_runner cfg env c sa ba allow st sched s r :
  let p := child_of cfg env c sa ba st in
  Forall (fun line => line <> "") (proc_stdout p) ->
  Forall (fun line => line <> "") (proc_stderr p) ->
  Tee.exec sched (Tee.init (proc_stdout p) (proc_stderr p) (proc_ret p)) = Some s ->
  Tee.parent s = Tee.GotStatus r ->
  exists order,
    let res := snapraid_btrfs_command cfg (with_tee_order order env) c sa ba allow st in
    st_log (snd res) = st_log st ++ Tee.sink s
    /\ fst res
       = (if status_allowed r allow then Ok (Tee.out s)
          else Raise (CalledProcessError r ("snapraid-btrfs " +:+ c))).
Proof.
  cbv zeta. intros Ho He Hexec Hp.
  set (p := child_of cfg env c sa ba st) in *.
  assert (Tee.past_joins s) as Hpast by (right; by exists r).
  destruct (finished_sink_is_tee_records _ _ _ _ _ Ho He Hexec Hpast)
    as (order & Hsink & Hout).
  pose proof (tee_exec_inv _ _ _ sched _ _ Ho He Hexec (tee_init_inv _ _ _)) as Hinv.
  destruct (tee_inv_past_joins _ _ _ _ Hinv Hpast) as (_ & _ & _ & _ & _ & _ & Hr).
  specialize (Hr r Hp). subst r.
  exists order. rewrite command_unfold. cbn [fst snd after_command st_log].
  unfold child_of. cbn [with_tee_order env_popen proc_ret proc_stdout].
  fold (child_of cfg env c sa ba st). fold p.
  rewrite Hsink, Hout. done.
Qed.

Lemma threads_refine_command_runner_witness :
  let cfg := demo_cfg 5 "80" in
  let env := demo_world [] 2 ["add a" +:+ PyStr.nl] "" in
  let sched := [Tee.WriteOut; Tee.TeeOut; Tee.CloseErr; Tee.TeeErr; Tee.TeeOut;
                Tee.CloseOut; Tee.TeeOut; Tee.TeeOut; Tee.TeeOut; Tee.Exit;
                Tee.TeeErr; Tee.ParentStep; Tee.ParentStep; Tee.ParentStep] in
  exists s order,
    Tee.exec sched (Tee.init ["add a" +:+ PyStr.nl] [] 2) = Some s
    /\ Tee.parent s = Tee.GotStatus 2
    /\ st_log (snd (snapraid_btrfs_command cfg (with_tee_order order env)
                      "diff" [] (initial_args cfg) [2] init_state))
       = Tee.sink s
    /\ fst (snapraid_btrfs_command cfg (with_tee_order order env)
              "diff" [] (initial_args cfg) [2] init_state)
       = Ok (Tee.out s).
Proof.
  cbv zeta.
  set (cfg := demo_cfg 5 "80").
  set (env := demo_world [] 2 ["add a" +:+ PyStr.nl] "").
  set (sched := [Tee.WriteOut; Tee.TeeOut; Tee.CloseErr; Tee.TeeErr; Tee.TeeOut;
                 Tee.CloseOut; Tee.TeeOut; Tee.TeeOut; Tee.TeeOut; Tee.Exit;
                 Tee.TeeErr; Tee.ParentStep; Tee.ParentStep; Tee.ParentStep]).
  set (p := child_of cfg env "diff" [] (initial_args cfg) init_state).
  assert (proc_stdout p = ["add a" +:+ PyStr.nl]) as Eo by (vm_compute; reflexivity).
  assert (proc_stderr p = []) as Ee by (vm_compute; reflexivity).
  assert (proc_ret p = 2) as Er by (vm_compute; reflexivity).
  assert (exists s,
            Tee.exec sched (Tee.init ["add a" +:+ PyStr.nl] [] 2) = Some s
            /\ Tee.parent s = Tee.GotStatus 2) as (s & Hexec & Hp).
  { eexists. split; vm_compute; reflexivity. }
  assert (Forall (fun line => line <> "") (proc_stdout p)) as Ho.
  { rewrite Eo. repeat constructor; discriminate. }
  assert (Forall (fun line => line <> "") (proc_stderr p)) as He.
  { rewrite Ee. constructor. }
  assert (Tee.exec sched (Tee.init (proc_stdout p) (proc_stderr p) (proc_ret p))
          = Some s) as Hexec'.
  { by rewrite Eo, Ee, Er. }
  destruct (threads_refine_command_runner cfg env "diff" [] (initial_args cfg) [2]
              init_state sched s 2 Ho He Hexec' Hp) as (order & Hlog & Hres).
  exists s, order. split; [exact Hexec|]. split; [exact Hp|].
  split; [exact Hlog|exact Hres].
Defined.
